(** * Balatro AI assistant: scoring engine and play/discard optimizer

    A shallow embedding of [poker_ai/game_state.py] and
    [poker_ai/optimizer.py].

    Conventions of the embedding:
    - Python [int] is [Z];
    - the floats of the scoring engine ([x_mult], [final_mult] and the
      score before [int()]) are binary64 numbers, [pyfloat], and every
      product of them rounds to the nearest one, ties to even; a product
      of 2^1024 or more is [PyFloat.inf], on which Python's [int()]
      raises [OverflowError] and the embedding stops following it;
    - the floats of the optimizer's estimates (probabilities, the factor
      0.3, the success probability) are the exact rationals [Q] that their
      formulas denote, and [int(x)] on them is [Qtrunc];
    - a [str] is a string of ASCII characters, of which the card tokens
      that [parse_card] accepts are made;
    - a [dict] whose iteration order is observed ([Counter], the
      histograms of the optimizer) is an association list in insertion
      order; [hand_levels], only ever looked up, is a [gmap];
    - an exception is a value of [exn] carried by [result];
    - the objects that the optimizer mutates (a [GameState] and the
      [list] objects it points to) live in an explicit [Heap]. *)

From Stdlib Require Import ZArith QArith Qround Qpower Lqa String Ascii List Lia Bool DecimalString
  Sorting.Permutation Sorting.Sorted.
From stdpp Require Import base option list gmap strings.

Local Open Scope Z_scope.

(** ** Enumerations *)

Inductive Suit := HEARTS | DIAMONDS | CLUBS | SPADES.

Inductive Enhancement :=
  | ENH_NONE | BONUS | MULT | WILD | GLASS | STEEL | STONE | ENH_GOLD | LUCKY.

Inductive Edition := ED_NONE | FOIL | HOLOGRAPHIC | POLYCHROME | NEGATIVE.

Inductive Seal := SEAL_NONE | SEAL_GOLD | SEAL_RED | SEAL_BLUE | SEAL_PURPLE.

Inductive HandType :=
  | HIGH_CARD | PAIR | TWO_PAIR | THREE_OF_A_KIND | STRAIGHT | FLUSH
  | FULL_HOUSE | FOUR_OF_A_KIND | STRAIGHT_FLUSH | ROYAL_FLUSH
  | FIVE_OF_A_KIND | FLUSH_HOUSE | FLUSH_FIVE.

#[global] Instance Suit_eq_dec : EqDecision Suit.
Proof. solve_decision. Defined.
#[global] Instance Enhancement_eq_dec : EqDecision Enhancement.
Proof. solve_decision. Defined.
#[global] Instance Edition_eq_dec : EqDecision Edition.
Proof. solve_decision. Defined.
#[global] Instance Seal_eq_dec : EqDecision Seal.
Proof. solve_decision. Defined.
#[global] Instance HandType_eq_dec : EqDecision HandType.
Proof. solve_decision. Defined.

(** [Suit.value]: the letter of the suit. *)
Definition suit_value (s : Suit) : string :=
  match s with
  | HEARTS => "H" | DIAMONDS => "D" | CLUBS => "C" | SPADES => "S"
  end.

(** [Suit.color]. *)
Definition suit_color (s : Suit) : string :=
  match s with
  | HEARTS | DIAMONDS => "red"
  | CLUBS | SPADES => "black"
  end.

(** [HandType.base_chips] and [HandType.base_mult]. *)
Definition base_chips (ht : HandType) : Z :=
  match ht with
  | HIGH_CARD => 5 | PAIR => 10 | TWO_PAIR => 20 | THREE_OF_A_KIND => 30
  | STRAIGHT => 30 | FLUSH => 35 | FULL_HOUSE => 40 | FOUR_OF_A_KIND => 60
  | STRAIGHT_FLUSH => 100 | ROYAL_FLUSH => 100 | FIVE_OF_A_KIND => 120
  | FLUSH_HOUSE => 140 | FLUSH_FIVE => 160
  end.

Definition base_mult (ht : HandType) : Z :=
  match ht with
  | HIGH_CARD => 1 | PAIR => 2 | TWO_PAIR => 2 | THREE_OF_A_KIND => 3
  | STRAIGHT => 4 | FLUSH => 4 | FULL_HOUSE => 4 | FOUR_OF_A_KIND => 7
  | STRAIGHT_FLUSH => 8 | ROYAL_FLUSH => 8 | FIVE_OF_A_KIND => 12
  | FLUSH_HOUSE => 14 | FLUSH_FIVE => 16
  end.

(** ** Cards *)

Record Card := mkCard {
  rank : Z;
  suit : Suit;
  enhancement : Enhancement;
  edition : Edition;
  seal : Seal
}.

#[global] Instance Card_eq_dec : EqDecision Card.
Proof. solve_decision. Defined.

(** [Card(rank=r, suit=s)]: the other fields take their defaults. *)
Definition card (r : Z) (s : Suit) : Card := mkCard r s ENH_NONE ED_NONE SEAL_NONE.

(** [Card.chip_value]. *)
Definition chip_value (c : Card) : Z :=
  if decide (enhancement c = STONE) then 50
  else
    let base :=
      if (2 <=? rank c) && (rank c <=? 10) then rank c
      else if (rank c =? 11) || (rank c =? 12) || (rank c =? 13) then 10
      else 11 in
    let base := if decide (enhancement c = BONUS) then base + 30 else base in
    let base := if decide (edition c = FOIL) then base + 50 else base in
    base.

(** [str(n)] for an [int]. *)
Definition str_int (n : Z) : string :=
  NilZero.string_of_int (Z.to_int n).

(** [Card.rank_name]. *)
Definition rank_name (c : Card) : string :=
  if rank c =? 11 then "J"
  else if rank c =? 12 then "Q"
  else if rank c =? 13 then "K"
  else if rank c =? 14 then "A"
  else str_int (rank c).

(** [Card.__eq__]: rank, suit and enhancement only. *)
Definition Card_eq (c1 c2 : Card) : bool :=
  (rank c1 =? rank c2)
  && bool_decide (suit c1 = suit c2)
  && bool_decide (enhancement c1 = enhancement c2).

(** The tuple that [Card.__hash__] hands to [hash]. *)
Definition hash_key : Type := Z * Suit * Enhancement * Edition * Seal.

Definition Card_hash_key (c : Card) : hash_key :=
  (rank c, suit c, enhancement c, edition c, seal c).

(** [Card.__hash__], over the interpreter's hash of tuples. *)
Definition Card_hash (tuple_hash : hash_key -> Z) (c : Card) : Z :=
  tuple_hash (Card_hash_key c).

(** Field updates, used to state how [chip_value] depends on a field. *)
Definition with_edition (e : Edition) (c : Card) : Card :=
  mkCard (rank c) (suit c) (enhancement c) e (seal c).

Definition with_enhancement (e : Enhancement) (c : Card) : Card :=
  mkCard (rank c) (suit c) e (edition c) (seal c).

Definition with_seal (s : Seal) (c : Card) : Card :=
  mkCard (rank c) (suit c) (enhancement c) (edition c) s.

(** ** Exceptions *)

Inductive exn := ValueError | IndexError | AttributeError | ZeroDivisionError.

Inductive result (A : Type) : Type :=
  | Ok (a : A)
  | Raise (e : exn).
Arguments Ok {A} a.
Arguments Raise {A} e.

#[global] Instance result_ret : MRet result := fun _ a => Ok a.

#[global] Instance result_bind : MBind result := fun _ _ k r =>
  match r with
  | Ok a => k a
  | Raise e => Raise e
  end.

(** ** Parsing card tokens *)

Module Parse.

(** [str.upper] on ASCII text. *)
Definition upper_char (c : ascii) : ascii :=
  let n := nat_of_ascii c in
  if (97 <=? n)%nat && (n <=? 122)%nat then ascii_of_nat (n - 32) else c.

Definition upper (s : list ascii) : list ascii := map upper_char s.

(** The characters that [str.strip] removes. *)
Definition is_space (c : ascii) : bool :=
  let n := nat_of_ascii c in
  ((9 <=? n)%nat && (n <=? 13)%nat) || ((28 <=? n)%nat && (n <=? 32)%nat).

Fixpoint lstrip (s : list ascii) : list ascii :=
  match s with
  | c :: s' => if is_space c then lstrip s' else s
  | [] => []
  end.

Definition strip (s : list ascii) : list ascii :=
  rev (lstrip (rev (lstrip s))).

Definition is_digit (c : ascii) : bool :=
  let n := nat_of_ascii c in (48 <=? n)%nat && (n <=? 57)%nat.

(** [str.isdigit]: non-empty and all digits. *)
Definition isdigit (s : list ascii) : bool :=
  match s with
  | [] => false
  | _ => forallb is_digit s
  end.

(** [int(s)] for a string of digits. *)
Definition int_of_digits (s : list ascii) : Z :=
  fold_left (fun acc c => 10 * acc + (Z.of_nat (nat_of_ascii c) - 48)) s 0.

Definition suit_map (c : ascii) : option Suit :=
  if decide (c = "H"%char) then Some HEARTS
  else if decide (c = "D"%char) then Some DIAMONDS
  else if decide (c = "C"%char) then Some CLUBS
  else if decide (c = "S"%char) then Some SPADES
  else None.

Definition rank_map (s : string) : option Z :=
  if decide (s = "A") then Some 14
  else if decide (s = "K") then Some 13
  else if decide (s = "Q") then Some 12
  else if decide (s = "J") then Some 11
  else if decide (s = "T") then Some 10
  else if decide (s = "10") then Some 10
  else None.

(** [parse_card]. [card_str[-1]] raises [IndexError] on the empty string. *)
Definition parse_card (card_str : string) : result Card :=
  let card_str := strip (upper (list_ascii_of_string card_str)) in
  match last card_str with
  | None => Raise IndexError
  | Some suit_char =>
      let rank_str := removelast card_str in
      match suit_map suit_char with
      | None => Raise ValueError
      | Some suit =>
          match rank_map (string_of_list_ascii rank_str) with
          | Some rank => Ok (card rank suit)
          | None =>
              if isdigit rank_str
                 && (2 <=? int_of_digits rank_str)
                 && (int_of_digits rank_str <=? 10)
              then Ok (card (int_of_digits rank_str) suit)
              else Raise ValueError
          end
      end
  end.

(** [s.replace(old, new)] for one-character strings. *)
Definition replace_char (old new : ascii) (s : list ascii) : list ascii :=
  map (fun c => if decide (c = old) then new else c) s.

(** [s.split(sep)] for a one-character separator: one piece more than
    there are separators, empty pieces included. *)
Fixpoint split_on (sep : ascii) (s : list ascii) : list (list ascii) :=
  match s with
  | [] => [[]]
  | c :: s' =>
      if decide (c = sep) then [] :: split_on sep s'
      else match split_on sep s' with
           | t :: ts => (c :: t) :: ts
           | [] => [[c]]
           end
  end.

(** [parse_hand]. The list comprehension stops at the first token that
    [parse_card] rejects. *)
Definition parse_hand (hand_str : string) : result (list Card) :=
  let separators := [","%char; " "%char] in
  let cards_str :=
    fold_left (fun acc sep => replace_char sep "|"%char acc) separators
              (list_ascii_of_string hand_str) in
  let card_tokens :=
    map strip (filter (fun t => strip t ≠ []) (split_on "|"%char cards_str)) in
  mapM (fun t => parse_card (string_of_list_ascii t)) card_tokens.

(** The short name of a card as the specification writes cards ("AS",
    "10H"): [rank_name] followed by the suit's letter ([Suit.value]).
    [Card.__str__] ends in the suit's symbol instead and is not this. *)
Definition short_name (c : Card) : string :=
  rank_name c +:+ suit_value (suit c).

(** [s.upper()] as a string. *)
Definition upper_string (s : string) : string :=
  string_of_list_ascii (upper (list_ascii_of_string s)).

(** The tokens of the grammar: a rank symbol followed by a suit letter. *)
Definition rank_symbols : list string :=
  ["A"; "K"; "Q"; "J"; "T"; "10"; "2"; "3"; "4"; "5"; "6"; "7"; "8"; "9"].

Definition suit_letters : list string := ["H"; "D"; "C"; "S"].

Definition valid_token (t : string) : Prop :=
  ∃ r s, r ∈ rank_symbols ∧ s ∈ suit_letters ∧ upper_string t = r +:+ s.

End Parse.

(** [create_standard_deck]: ranks 2 to 14, and within a rank the suits in
    the order of the enumeration. *)
Definition create_standard_deck : list Card :=
  flat_map (fun rank => map (card rank) [HEARTS; DIAMONDS; CLUBS; SPADES])
           (map Z.of_nat (seq 2 13)).

(** ** Floats *)

(** A finite Python [float] is a binary64 number: [m * 2 ^ e] for an
    integer [m] of at most 53 bits and an exponent [e] of -1074 at least,
    below 2^1024 in size. It is kept as a pair of such integers, [fm] and
    [fe]; several pairs give the same number, and the operations below
    depend on the number only. The sign of a zero is not kept: nothing
    below observes it. *)
Record pyfloat := mkF { fm : Z; fe : Z }.

Module PyFloat.

(** The number of bits of [m]: [int.bit_length]. *)
Definition bits (m : Z) : Z := if m =? 0 then 0 else Z.log2 (Z.abs m) + 1.

(** [m / 2 ^ s] rounded to the nearest integer, a tie to the even one. *)
Definition round_shift (m s : Z) : Z :=
  let q := m / 2 ^ s in
  let r := m mod 2 ^ s in
  let half := 2 ^ (s - 1) in
  if r <? half then q
  else if half <? r then q + 1
  else if Z.even q then q else q + 1.

(** [m * 2 ^ e] rounded to 53 bits, ties to even: the 53 leading bits of
    [m] are kept, fewer below 2^-1022, where the exponent stays at -1074
    (gradual underflow). *)
Definition round (m e : Z) : pyfloat :=
  let s := Z.max (Z.max (bits m - 53) (-1074 - e)) 0 in
  if s =? 0 then mkF m e
  else
    let m' := round_shift m s in
    if Z.abs m' =? 2 ^ 53 then mkF (m' / 2) (e + s + 1) else mkF m' (e + s).

(** Below 2^1024 in size. *)
Definition finite (a : pyfloat) : bool :=
  (fm a =? 0) || (bits (fm a) + fe a <=? 1024).

(** What a product is once it has left the range: [inf], [-inf] or, from
    one of these times zero, [nan]. No later product leads back to a
    number, and [int()] raises on each of them; the model keeps one value
    for the three and follows the program no further than that. *)
Definition inf : pyfloat := mkF 1 1024.

(** The binary64 number nearest to [m * 2 ^ e], or [inf]. *)
Definition norm (m e : Z) : pyfloat :=
  let r := round m e in
  if finite r then r else inf.

(** [float(n)] for an [int], as in [n * x] for a float [x]. *)
Definition of_int (n : Z) : pyfloat := norm n 0.

(** [a * b]. *)
Definition mul (a b : pyfloat) : pyfloat :=
  if finite a && finite b then norm (fm a * fm b) (fe a + fe b) else inf.

(** [int(a)]: truncation toward zero. *)
Definition to_int (a : pyfloat) : Z :=
  if 0 <=? fe a then fm a * 2 ^ fe a else Z.quot (fm a) (2 ^ (- fe a)).

(** [a == b]. *)
Definition eqb (a b : pyfloat) : bool :=
  let e := Z.min (fe a) (fe b) in
  fm a * 2 ^ (fe a - e) =? fm b * 2 ^ (fe b - e).

(** The rational number that [a] is. *)
Definition value (a : pyfloat) : Q := (inject_Z (fm a) * 2 ^ fe a)%Q.

(** The pairs that are binary64 numbers, and what the operations give. *)
Definition is_float (a : pyfloat) : Prop :=
  Z.abs (fm a) < 2 ^ 53 ∧ -1074 ≤ fe a ∧ finite a = true.

Definition in_range (a : pyfloat) : Prop := a = inf ∨ is_float a.

(** The literals [1.0] and [1.5], and [n.0] for a small whole number. *)
Definition one : pyfloat := mkF 1 0.
Definition one_and_a_half : pyfloat := mkF 3 (-1).
Definition whole (n : Z) : pyfloat := mkF n 0.

End PyFloat.

(** ** Jokers *)

Record JokerEffect := mkJokerEffect {
  flat_chips : Z;
  flat_mult : Z;
  x_mult : pyfloat;
  chip_mult : pyfloat;
  conditional : option string;
  trigger : option string
}.

(** [JokerEffect()] with every field at its default. *)
Definition JokerEffect_default : JokerEffect :=
  mkJokerEffect 0 0 PyFloat.one PyFloat.one None None.

Definition with_flat_chips (v : Z) (e : JokerEffect) : JokerEffect :=
  mkJokerEffect v (flat_mult e) (x_mult e) (chip_mult e) (conditional e) (trigger e).
Definition with_flat_mult (v : Z) (e : JokerEffect) : JokerEffect :=
  mkJokerEffect (flat_chips e) v (x_mult e) (chip_mult e) (conditional e) (trigger e).
Definition with_x_mult (v : pyfloat) (e : JokerEffect) : JokerEffect :=
  mkJokerEffect (flat_chips e) (flat_mult e) v (chip_mult e) (conditional e) (trigger e).
Definition with_conditional (v : string) (e : JokerEffect) : JokerEffect :=
  mkJokerEffect (flat_chips e) (flat_mult e) (x_mult e) (chip_mult e) (Some v) (trigger e).

(** A [Joker] has the four fields below and no other attribute. *)
Record Joker := mkJoker {
  name : string;
  rarity : string;
  joker_edition : Edition;
  effect : JokerEffect
}.

Definition JOKER_DATABASE : list (string * JokerEffect) :=
  let d := JokerEffect_default in
  [ ("Joker", with_flat_mult 4 d);
    ("Greedy Joker", with_flat_mult 3 d);
    ("Lusty Joker", with_flat_mult 3 d);
    ("Wrathful Joker", with_flat_mult 3 d);
    ("Gluttonous Joker", with_flat_mult 3 d);
    ("Jolly Joker", with_conditional "pair" (with_flat_mult 8 d));
    ("Zany Joker", with_conditional "three_of_a_kind" (with_flat_mult 12 d));
    ("Mad Joker", with_conditional "two_pair" (with_flat_mult 10 d));
    ("Crazy Joker", with_conditional "straight" (with_flat_mult 12 d));
    ("Droll Joker", with_conditional "flush" (with_flat_mult 10 d));
    ("Sly Joker", with_conditional "pair" (with_flat_chips 50 d));
    ("Wily Joker", with_conditional "three_of_a_kind" (with_flat_chips 100 d));
    ("Clever Joker", with_conditional "two_pair" (with_flat_chips 80 d));
    ("Devious Joker", with_conditional "straight" (with_flat_chips 100 d));
    ("Crafty Joker", with_conditional "flush" (with_flat_chips 80 d));
    ("Half Joker", with_conditional "hand_size_lte_3" (with_flat_mult 20 d));
    ("Banner", with_flat_chips 30 d);
    ("Mystic Summit", with_conditional "discards_0" (with_flat_mult 15 d));
    ("Fibonacci", with_flat_mult 8 d);
    ("Steel Joker", with_x_mult (PyFloat.whole 1) d);
    ("Scary Face", with_flat_chips 30 d);
    ("Abstract Joker", with_flat_mult 3 d);
    ("Ride the Bus", with_flat_mult 1 d);
    ("Blackboard", with_conditional "all_spades_clubs" (with_x_mult (PyFloat.whole 3) d));
    ("The Duo", with_conditional "pair" (with_x_mult (PyFloat.whole 2) d));
    ("The Trio", with_conditional "three_of_a_kind" (with_x_mult (PyFloat.whole 3) d));
    ("The Family", with_conditional "four_of_a_kind" (with_x_mult (PyFloat.whole 4) d));
    ("The Order", with_conditional "straight" (with_x_mult (PyFloat.whole 3) d));
    ("The Tribe", with_conditional "flush" (with_x_mult (PyFloat.whole 2) d)) ].

(** [d.get(k, default)] on an association list. *)
Fixpoint assoc_get {K V} `{EqDecision K} (k : K) (d : list (K * V)) (default : V) : V :=
  match d with
  | [] => default
  | (k', v) :: d' => if decide (k = k') then v else assoc_get k d' default
  end.

(** [create_joker]. *)
Definition create_joker (name : string) (edition : Edition) : Joker :=
  mkJoker name "common" edition (assoc_get name JOKER_DATABASE JokerEffect_default).

(** ** Hand levels *)

Definition level_bonus (ht : HandType) : Z :=
  match ht with
  | HIGH_CARD => 10 | PAIR => 15 | TWO_PAIR => 20 | THREE_OF_A_KIND => 20
  | STRAIGHT => 30 | FLUSH => 15 | FULL_HOUSE => 25 | FOUR_OF_A_KIND => 30
  | STRAIGHT_FLUSH => 40 | ROYAL_FLUSH => 40 | FIVE_OF_A_KIND => 35
  | FLUSH_HOUSE => 40 | FLUSH_FIVE => 50
  end.

Record HandLevel := mkHandLevel { hl_hand_type : HandType; level : Z }.

(** [HandLevel.chips] and [HandLevel.mult]. *)
Definition HandLevel_chips (hl : HandLevel) : Z :=
  base_chips (hl_hand_type hl) + (level hl - 1) * level_bonus (hl_hand_type hl).

Definition HandLevel_mult (hl : HandLevel) : Z :=
  base_mult (hl_hand_type hl) + (level hl - 1).

(** ** Game state *)

Definition all_hand_types : list HandType :=
  [HIGH_CARD; PAIR; TWO_PAIR; THREE_OF_A_KIND; STRAIGHT; FLUSH; FULL_HOUSE;
   FOUR_OF_A_KIND; STRAIGHT_FLUSH; ROYAL_FLUSH; FIVE_OF_A_KIND; FLUSH_HOUSE;
   FLUSH_FIVE].

Definition HandType_to_nat (ht : HandType) : nat :=
  match ht with
  | HIGH_CARD => 0 | PAIR => 1 | TWO_PAIR => 2 | THREE_OF_A_KIND => 3
  | STRAIGHT => 4 | FLUSH => 5 | FULL_HOUSE => 6 | FOUR_OF_A_KIND => 7
  | STRAIGHT_FLUSH => 8 | ROYAL_FLUSH => 9 | FIVE_OF_A_KIND => 10
  | FLUSH_HOUSE => 11 | FLUSH_FIVE => 12
  end%nat.

#[global] Program Instance HandType_countable : Countable HandType :=
  inj_countable' HandType_to_nat (fun n => nth n all_hand_types HIGH_CARD) _.
Next Obligation. by intros []. Qed.

Record BlindInfo := mkBlindInfo {
  blind_name : string;
  target_score : Z;
  reward : Z;
  is_boss : bool;
  special_effect : option string
}.

(** A snapshot of a [GameState] object: the values of its fields, the
    list-valued fields read out. *)
Record GameState := mkGameState {
  hand : list Card;
  deck : list Card;
  jokers : list Joker;
  hand_levels : gmap HandType Z;
  hands_remaining : Z;
  discards_remaining : Z;
  money : Z;
  blind : BlindInfo;
  current_score : Z;
  ante : Z;
  round_in_ante : Z;
  cards_played_this_round : list Card
}.

(** The default [hand_levels]: every hand type at level 1. *)
Definition default_hand_levels : gmap HandType Z :=
  list_to_map (map (fun ht => (ht, 1)) all_hand_types).

Definition score_needed (gs : GameState) : Z :=
  Z.max 0 (target_score (blind gs) - current_score gs).

Definition can_play (gs : GameState) : bool :=
  (0 <? hands_remaining gs) && (0 <? Z.of_nat (length (hand gs))).

Definition can_discard (gs : GameState) : bool :=
  (0 <? discards_remaining gs) && (0 <? Z.of_nat (length (hand gs))).

(** [GameState.get_hand_level]. *)
Definition get_hand_level (gs : GameState) (ht : HandType) : HandLevel :=
  mkHandLevel ht (default 1 (hand_levels gs !! ht)).

(** ** Python list and dict helpers *)

(** [Counter(l)]: keys in order of first occurrence, with their counts. *)
Fixpoint counter_add {K} `{EqDecision K} (k : K) (m : list (K * Z)) : list (K * Z) :=
  match m with
  | [] => [(k, 1)]
  | (k', n) :: m' =>
      if decide (k = k') then (k', n + 1) :: m' else (k', n) :: counter_add k m'
  end.

Definition Counter {K} `{EqDecision K} (l : list K) : list (K * Z) :=
  fold_left (fun m k => counter_add k m) l [].

(** [list.sort] and [sorted] are stable. [before y x] says that [y] has to
    come strictly before [x]: [key y < key x], or [key y > key x] under
    [reverse=True]; elements that neither precede the other keep their
    order. *)
Fixpoint sort_insert {A} (before : A -> A -> bool) (x : A) (l : list A) : list A :=
  match l with
  | [] => [x]
  | y :: l' => if before y x then y :: sort_insert before x l' else x :: l
  end.

Definition stable_sort {A} (before : A -> A -> bool) (l : list A) : list A :=
  foldr (sort_insert before) [] l.

Definition sorted_asc (l : list Z) : list Z := stable_sort Z.ltb l.
Definition sorted_desc (l : list Z) : list Z := stable_sort Z.gtb l.

(** [sorted(set(l))]. *)
Definition sorted_set (l : list Z) : list Z := sorted_asc (remove_dups l).

(** [l[-n:]]. *)
Definition last_n {A} (n : nat) (l : list A) : list A :=
  drop (length l - n) l.

(** [max(l, key=key)]: the first element whose key is maximal. *)
Definition max_by {A} (key : A -> Z) (l : list A) : option A :=
  fold_left (fun best x =>
               match best with
               | None => Some x
               | Some b => if key b <? key x then Some x else Some b
               end) l None.

(** [min(l, key=key)]: the first element whose key is minimal. *)
Definition min_by {A} (key : A -> Z) (l : list A) : option A :=
  fold_left (fun best x =>
               match best with
               | None => Some x
               | Some b => if key x <? key b then Some x else Some b
               end) l None.

Definition len {A} (l : list A) : Z := Z.of_nat (length l).

(** ** Hand evaluator *)

Module HandEvaluator.

(** [_is_straight]. *)
Definition _is_straight (ranks : list Z) : bool :=
  let unique := sorted_set ranks in
  if len unique <? 5 then false
  else
    existsb (fun i => nth (i + 4) unique 0 - nth i unique 0 =? 4)
            (seq 0 (length unique - 4))
    || forallb (fun r => bool_decide (r ∈ unique)) [2; 3; 4; 5; 14].

(** The entries of [suits]: [None] stands for the marker ["WILD"]; a Stone
    card appends nothing. *)
Definition suits_of (cards : list Card) : list (option Suit) :=
  flat_map (fun c =>
              if decide (enhancement c = WILD) then [None]
              else if decide (enhancement c ≠ STONE) then [Some (suit c)]
              else []) cards.

Definition ranks_of (cards : list Card) : list Z := map rank cards.

Definition suit_counts_of (cards : list Card) : list (Suit * Z) :=
  Counter (omap id (suits_of cards)).

Definition wild_count_of (cards : list Card) : Z :=
  len (filter (fun s => s = None) (suits_of cards)).

Definition is_flush_of (cards : list Card) : bool :=
  (5 <=? len cards)
  && (existsb (fun sc => 5 <=? snd sc + wild_count_of cards) (suit_counts_of cards)
      || (5 <=? wild_count_of cards)).

(** [[r for r, c in rank_counts.items() if c >= n]]. *)
Definition ranks_with (n : Z) (rank_counts : list (Z * Z)) : list Z :=
  map fst (filter (fun rc => n ≤ snd rc) rank_counts).

(** [[c for c in cards if c.rank == r]]. *)
Definition of_rank (r : Z) (cards : list Card) : list Card :=
  filter (fun c => rank c = r) cards.

(** [get_hand_type]. Every subscript [[0]] below is guarded in the source
    by a test on [sorted_counts] that makes the list non-empty. *)
Definition get_hand_type (cards : list Card) : HandType * list Card :=
  if len cards =? 0 then (HIGH_CARD, [])
  else
    let ranks := ranks_of cards in
    let rank_counts := Counter ranks in
    let sorted_counts := sorted_desc (map snd rank_counts) in
    let is_flush := is_flush_of cards in
    let is_straight := _is_straight ranks in
    let count0 := hd 0 sorted_counts in
    if (5 <=? len cards) && is_flush && (5 <=? count0) then
      (FLUSH_FIVE,
       take 5 (filter (fun c => 5 ≤ assoc_get (rank c) rank_counts 0) cards))
    else if (5 <=? len cards) && is_flush
            && bool_decide (take 2 sorted_counts = [3; 2]) then
      (FLUSH_HOUSE, take 5 cards)
    else if (5 <=? len cards) && (5 <=? count0) then
      let target_rank := hd 0 (ranks_with 5 rank_counts) in
      (FIVE_OF_A_KIND, take 5 (of_rank target_rank cards))
    else if (5 <=? len cards) && is_flush && is_straight then
      if bool_decide (last_n 5 (sorted_set ranks) = [10; 11; 12; 13; 14])
      then (ROYAL_FLUSH, take 5 cards)
      else (STRAIGHT_FLUSH, take 5 cards)
    else if 4 <=? count0 then
      let target_rank := hd 0 (ranks_with 4 rank_counts) in
      (FOUR_OF_A_KIND, take 4 (of_rank target_rank cards))
    else if (2 <=? len sorted_counts) && (3 <=? count0)
            && (2 <=? nth 1 sorted_counts 0) then
      let three_rank := hd 0 (ranks_with 3 rank_counts) in
      let pair_rank :=
        hd 0 (filter (fun r => r ≠ three_rank) (ranks_with 2 rank_counts)) in
      (FULL_HOUSE,
       take 3 (of_rank three_rank cards) ++ take 2 (of_rank pair_rank cards))
    else if is_flush then (FLUSH, take 5 cards)
    else if is_straight then (STRAIGHT, take 5 cards)
    else if 3 <=? count0 then
      let target_rank := hd 0 (ranks_with 3 rank_counts) in
      (THREE_OF_A_KIND, take 3 (of_rank target_rank cards))
    else
      let pairs := ranks_with 2 rank_counts in
      if 2 <=? len pairs then
        (TWO_PAIR,
         flat_map (fun r => take 2 (of_rank r cards)) (take 2 (sorted_desc pairs)))
      else
        match pairs with
        | target_rank :: _ => (PAIR, take 2 (of_rank target_rank cards))
        | [] => (HIGH_CARD, option_list (max_by rank cards))
        end.

(** [int(x)] for a float [x] kept as a rational: truncation toward zero. *)
Definition Qtrunc (x : Q) : Z := Z.quot (Qnum x) (Zpos (Qden x)).

(** [_check_condition]: the table of recognised condition names, looked up
    with [conditions.get(condition, False)]. *)
Definition _check_condition (condition : string) (cards : list Card)
    (hand_type : HandType) (scoring_cards : list Card) (game_state : GameState) : bool :=
  let conditions : list (string * bool) :=
    [ ("pair", bool_decide (hand_type = PAIR));
      ("two_pair", bool_decide (hand_type = TWO_PAIR));
      ("three_of_a_kind", bool_decide (hand_type = THREE_OF_A_KIND));
      ("straight", bool_decide (hand_type ∈ [STRAIGHT; STRAIGHT_FLUSH]));
      ("flush", bool_decide (hand_type ∈ [FLUSH; STRAIGHT_FLUSH; FLUSH_HOUSE; FLUSH_FIVE]));
      ("full_house", bool_decide (hand_type ∈ [FULL_HOUSE; FLUSH_HOUSE]));
      ("four_of_a_kind", bool_decide (hand_type = FOUR_OF_A_KIND));
      ("hand_size_lte_3", len cards <=? 3);
      ("discards_0", discards_remaining game_state =? 0);
      ("all_spades_clubs",
       forallb (fun c => bool_decide (suit c ∈ [SPADES; CLUBS])) cards) ] in
  assoc_get condition conditions false.

(** [_apply_joker]. [if effect.conditional:] is false for [None] and for
    the empty string. *)
Definition _apply_joker (joker : Joker) (cards : list Card) (hand_type : HandType)
    (scoring_cards : list Card) (game_state : GameState) : Z * Z * pyfloat :=
  let effect := effect joker in
  let condition_met :=
    match conditional effect with
    | None => true
    | Some c =>
        if decide (c = "") then true
        else _check_condition c cards hand_type scoring_cards game_state
    end in
  if condition_met then
    (0 + flat_chips effect, 0 + flat_mult effect,
     if negb (PyFloat.eqb (x_mult effect) PyFloat.one)
     then PyFloat.mul PyFloat.one (x_mult effect)
     else PyFloat.one)
  else (0, 0, PyFloat.one).

(** The body of the loop over the scoring cards. *)
Definition score_card (acc : Z * Z * pyfloat) (card : Card) : Z * Z * pyfloat :=
  let '(chips, mult, x_mult) := acc in
  let chips := chips + chip_value card in
  let mult := if decide (enhancement card = MULT) then mult + 4 else mult in
  let mult := if decide (edition card = HOLOGRAPHIC) then mult + 10 else mult in
  let x_mult :=
    if decide (enhancement card = GLASS)
    then PyFloat.mul x_mult (PyFloat.of_int 2) else x_mult in
  let x_mult :=
    if decide (edition card = POLYCHROME)
    then PyFloat.mul x_mult PyFloat.one_and_a_half else x_mult in
  (chips, mult, x_mult).

(** The body of the loop over the jokers. *)
Definition score_joker (cards : list Card) (hand_type : HandType)
    (scoring_cards : list Card) (game_state : GameState)
    (acc : Z * Z * pyfloat) (joker : Joker) : Z * Z * pyfloat :=
  let '(chips, mult, x_mult) := acc in
  let '(j_chips, j_mult, j_xmult) :=
    _apply_joker joker cards hand_type scoring_cards game_state in
  let chips := chips + j_chips in
  let mult := mult + j_mult in
  let x_mult := PyFloat.mul x_mult j_xmult in
  match joker_edition joker with
  | FOIL => (chips + 50, mult, x_mult)
  | HOLOGRAPHIC => (chips, mult + 10, x_mult)
  | POLYCHROME => (chips, mult, PyFloat.mul x_mult PyFloat.one_and_a_half)
  | _ => (chips, mult, x_mult)
  end.

(** The values of [chips], [mult] and [x_mult] when both loops of
    [calculate_score] are over. *)
Definition score_totals (cards : list Card) (game_state : GameState)
    : Z * Z * pyfloat :=
  let '(hand_type, scoring_cards) := get_hand_type cards in
  let hand_level := get_hand_level game_state hand_type in
  let acc := (HandLevel_chips hand_level, HandLevel_mult hand_level, PyFloat.one) in
  let acc := fold_left score_card scoring_cards acc in
  fold_left (score_joker cards hand_type scoring_cards game_state)
            (jokers game_state) acc.

(** [calculate_score]: (score, hand type, total chips, total mult). *)
Definition calculate_score (cards : list Card) (game_state : GameState)
    : Z * HandType * Z * Z :=
  let '(chips, mult, x_mult) := score_totals cards game_state in
  let final_mult := PyFloat.mul (PyFloat.of_int mult) x_mult in
  let score := PyFloat.to_int (PyFloat.mul (PyFloat.of_int chips) final_mult) in
  (score, fst (get_hand_type cards), chips, PyFloat.to_int final_mult).

End HandEvaluator.

(** ** Optimizer: data *)

Inductive ActionType := PLAY | DISCARD.

#[global] Instance ActionType_eq_dec : EqDecision ActionType.
Proof. solve_decision. Defined.

(** The texts of [reasoning], one constructor per template of the source,
    carrying the values the template interpolates. *)
Inductive DiscardReason :=
  | NoPair (c : Card)                      (* "{card}: no forma par" *)
  | MinoritySuit (c : Card).               (* "{card}: palo minoritario" *)

Inductive Reasoning :=
  | R_empty                                (* "" *)
  | R_no_cards                             (* "No hay cartas en mano" *)
  | R_chips_mult (chips mult : Z)          (* "{chips} chips x {mult} mult" *)
  | R_no_discards                          (* "No quedan descartes" *)
  | R_all_useful                           (* "Todas las cartas son utiles, ..." *)
  | R_flush (count : Z) (s : Suit) (cards_needed : Z)
  | R_straight4 (lo hi needed : Z)
  | R_straight3 (lo hi : Z)
  | R_quads (r : Z)
  | R_full_house_made
  | R_two_pairs (best other : Z)
  | R_pair_to_trips (r : Z)
  | R_low_value                            (* "Cartas de menor valor esperado" *)
  | R_reasons (rs : list DiscardReason).   (* "; ".join(reasons[:3]) *)

Record PotentialHand := mkPotentialHand {
  ph_hand_type : HandType;
  cards_needed : Z;
  cards_to_discard : list Card;
  cards_to_keep : list Card;
  probability : Q;
  ph_expected_score : Z;
  ph_reasoning : Reasoning
}.

Record Action := mkAction {
  action_type : ActionType;
  cards : list Card;
  expected_score : Z;
  hand_type : option HandType;
  reasoning : Reasoning;
  confidence : Q;
  potential_hands : list PotentialHand
}.

Inductive Note :=
  | N_already_won                          (* "Ya ganaste el blind!" *)
  | N_discard                              (* "Descarte para mejorar ..." *)
  | N_enough_hands                         (* "Suficientes manos para ganar" *)
  | N_not_enough_hands                     (* "No hay suficientes manos" *)
  | N_below_target (total target : Z).     (* "Puntuacion esperada (..) < objetivo (..)" *)

Record Strategy := mkStrategy {
  actions : list Action;
  total_expected_score : Z;
  hands_needed : Z;
  discards_used : Z;
  success_probability : Q;
  notes : list Note
}.

(** [Strategy()]. *)
Definition Strategy_default : Strategy := mkStrategy [] 0 0 0 0 [].

(** ** Optimizer: plays *)

Module Optimizer.

Import HandEvaluator.

(** [itertools.combinations(l, k)], in its order. *)
Fixpoint combinations {A} (l : list A) (k : nat) {struct l} : list (list A) :=
  match k, l with
  | O, _ => [[]]
  | S _, [] => []
  | S k', x :: l' => map (cons x) (combinations l' k') ++ combinations l' k
  end.

(** The two nested loops shared by [find_best_play] and [find_all_plays]:
    [num_cards] in [range(1, min(6, len(hand) + 1))], then every combination
    of that size. *)
Definition enumerate_plays {A} (hand : list A) : list (list A) :=
  flat_map (combinations hand) (seq 1 (Nat.min 5 (length hand))).

(** The cards of a hand with their positions. The objects of a hand are
    pairwise distinct, so the position of a card stands for its [id]. *)
Definition indexed (hand : list Card) : list (nat * Card) :=
  zip (seq 0 (length hand)) hand.

(** The [Action] built in the body of both loops. *)
Definition play_action (cards : list Card) (state : GameState) : Action :=
  let '(score, hand_type, chips, mult) := calculate_score cards state in
  mkAction PLAY cards score (Some hand_type) (R_chips_mult chips mult) 1 [].

(** One iteration of [find_best_play]: [(best_score, best_action)], the
    action with the positions of its cards. *)
Definition best_step (state : GameState)
    (best : Z * option (list nat * Action)) (combo : list (nat * Card))
    : Z * option (list nat * Action) :=
  let a := play_action (map snd combo) state in
  if fst best <? expected_score a
  then (expected_score a, Some (map fst combo, a))
  else best.

Definition best_scan (state : GameState) : Z * option (list nat * Action) :=
  fold_left (best_step state) (enumerate_plays (indexed (hand state))) (-1, None).

(** [find_best_play], its result with the positions of the chosen cards.
    [None] is Python's [None], returned when no combination scores above
    the initial [best_score = -1]. *)
Definition find_best_play_ids (state : GameState) : option (list nat * Action) :=
  if len (hand state) =? 0
  then Some ([], mkAction PLAY [] 0 None R_no_cards 1 [])
  else snd (best_scan state).

Definition find_best_play (state : GameState) : option Action :=
  snd <$> find_best_play_ids state.

(** [find_all_plays]. *)
Definition all_plays (state : GameState) : list Action :=
  map (fun combo => play_action (map snd combo) state)
      (enumerate_plays (indexed (hand state))).

Definition sorted_plays (state : GameState) : list Action :=
  stable_sort (fun a b => expected_score a >? expected_score b) (all_plays state).

(** [l[:k]] for an [int] [k], negative [k] counting from the end. *)
Definition slice_to {A} (k : Z) (l : list A) : list A :=
  if 0 <=? k then take (Z.to_nat k) l else take (Z.to_nat (len l + k)) l.

Definition find_all_plays (state : GameState) (top_n : Z) : list Action :=
  slice_to top_n (sorted_plays state).

(** ** Optimizer: discards *)

(** [_calculate_draw_probability]. A division by [0] and [0.0] raised to a
    negative power raise [ZeroDivisionError]. *)
Definition py_div (a b : Z) : result Q :=
  if b =? 0 then Raise ZeroDivisionError else Ok (inject_Z a / inject_Z b)%Q.

Definition py_pow (x : Q) (n : Z) : result Q :=
  if Qeq_bool x 0 && (n <? 0) then Raise ZeroDivisionError else Ok (x ^ n)%Q.

Definition py_max (a b : Q) : Q := if Qle_bool b a then a else b.
Definition py_min (a b : Q) : Q := if Qle_bool a b then a else b.

Definition _calculate_draw_probability (cards_needed favorable_cards deck_size : Z)
    : result Q :=
  if cards_needed =? 0 then Ok 1%Q
  else if cards_needed =? 1 then py_div favorable_cards deck_size
  else if cards_needed =? 2 then
    a ← py_div (deck_size - favorable_cards) deck_size;
    b ← py_div (deck_size - favorable_cards - 1) (deck_size - 1);
    Ok (1 - a * b)%Q
  else
    r ← py_div favorable_cards deck_size;
    p ← py_pow r cards_needed;
    Ok (py_max 0.01 (p * 10))%Q.

(** [joker.trigger_type]: a [Joker] has no attribute of that name, so
    reading it raises [AttributeError]. *)
Definition Joker_trigger_type (joker : Joker) : result Z := Raise AttributeError.

(** The loop of [_estimate_hand_score] over the held jokers. *)
Fixpoint estimate_jokers (js : list Joker) (mult : Z) : result Z :=
  match js with
  | [] => Ok mult
  | joker :: js' =>
      a ← Joker_trigger_type joker;
      b ← Joker_trigger_type joker;
      estimate_jokers js' (if a =? b then mult + 2 else mult)
  end.

Definition estimate_base_chips (ht : HandType) : Z :=
  match ht with
  | HIGH_CARD => 5 | PAIR => 10 | TWO_PAIR => 20 | THREE_OF_A_KIND => 30
  | STRAIGHT => 30 | FLUSH => 35 | FULL_HOUSE => 40 | FOUR_OF_A_KIND => 60
  | STRAIGHT_FLUSH => 100 | ROYAL_FLUSH => 100
  | _ => 5
  end.

Definition estimate_base_mult (ht : HandType) : Z :=
  match ht with
  | HIGH_CARD => 1 | PAIR => 2 | TWO_PAIR => 2 | THREE_OF_A_KIND => 3
  | STRAIGHT => 4 | FLUSH => 4 | FULL_HOUSE => 4 | FOUR_OF_A_KIND => 7
  | STRAIGHT_FLUSH => 8 | ROYAL_FLUSH => 8
  | _ => 1
  end.

(** The chips a card adds in [_estimate_hand_score]. *)
Definition estimate_card_chips (c : Card) : Z :=
  let card_chips := if rank c <=? 10 then rank c else 10 in
  if rank c =? 14 then 11 else card_chips.

(** The chips of [_estimate_hand_score] before the joker loop, and its
    mult before the joker loop. [scoring_cards] is [None] or a list; both
    [None] and the empty list take the average branch. *)
Definition estimate_chips (state : GameState) (ht : HandType)
    (scoring_cards : option (list Card)) : Z :=
  let chips := estimate_base_chips ht in
  let chips :=
    match scoring_cards with
    | Some (c :: cs) => fold_left (fun acc card => acc + estimate_card_chips card) (c :: cs) chips
    | _ =>
        let num_cards :=
          if bool_decide (ht ∈ [STRAIGHT; FLUSH; FULL_HOUSE; STRAIGHT_FLUSH; ROYAL_FLUSH])
          then 5 else 2 in
        chips + 7 * num_cards
    end in
  let level := default 1 (hand_levels state !! ht) in
  chips + (level - 1) * 10.

Definition estimate_mult (state : GameState) (ht : HandType) : Z :=
  let level := default 1 (hand_levels state !! ht) in
  estimate_base_mult ht + (level - 1) * 1.

(** [_estimate_hand_score]. *)
Definition _estimate_hand_score (state : GameState) (ht : HandType)
    (scoring_cards : option (list Card)) : result Z :=
  let chips := estimate_chips state ht scoring_cards in
  mult ← estimate_jokers (jokers state) (estimate_mult state ht);
  Ok (chips * mult).

(** [[c for c in hand if c not in keep]], [in] comparing with [Card.__eq__]. *)
Definition not_in (keep : list Card) (hand : list Card) : list Card :=
  filter (fun c => existsb (Card_eq c) keep = false) hand.

(** Running [f] on the elements in order and chaining what it appends. *)
Fixpoint collect {A B} (f : A -> result (list B)) (l : list A) : result (list B) :=
  match l with
  | [] => Ok []
  | x :: l' => ys ← f x; zs ← collect f l'; Ok (ys ++ zs)
  end.

(** [cards_by_rank[r][:1]] for each rank of a window. *)
Definition one_of_each (window : list Z) (hand : list Card) : list Card :=
  flat_map (fun r => take 1 (HandEvaluator.of_rank r hand)) window.

(** First loop of [_find_straight_potential], over the windows of four. *)
Fixpoint straight_loop4 (state : GameState) (sorted_ranks : list Z) (idxs : list nat)
    : result (option PotentialHand) :=
  match idxs with
  | [] => Ok None
  | i :: idxs' =>
      let window := take 4 (drop i sorted_ranks) in
      let w0 := nth 0 window 0 in
      let w3 := nth 3 window 0 in
      if w3 - w0 =? 3 then
        let needed_rank : option Z :=
          if (0 <? i)%nat && (nth (i - 1) sorted_ranks 0 =? w0 - 1) then Some (w0 - 1)
          else if (i + 4 <? length sorted_ranks)%nat
                  && (nth (i + 4) sorted_ranks 0 =? w3 + 1) then Some (w3 + 1)
          else if 2 <? w0 then Some (w0 - 1)
          else if w3 <? 14 then Some (w3 + 1)
          else None in
        match needed_rank with
        | Some needed =>
            if needed =? 0 then straight_loop4 state sorted_ranks idxs'
            else
              let cards_to_keep := one_of_each window (hand state) in
              let cards_to_discard := not_in cards_to_keep (hand state) in
              prob ← _calculate_draw_probability 1 4 (52 - 8);
              est ← _estimate_hand_score state STRAIGHT (Some cards_to_keep);
              Ok (Some (mkPotentialHand STRAIGHT 1 (take 4 cards_to_discard)
                          cards_to_keep prob est (R_straight4 w0 w3 needed)))
        | None => straight_loop4 state sorted_ranks idxs'
        end
      else straight_loop4 state sorted_ranks idxs'
  end.

(** Second loop of [_find_straight_potential], over the windows of three. *)
Fixpoint straight_loop3 (state : GameState) (sorted_ranks : list Z) (idxs : list nat)
    : result (option PotentialHand) :=
  match idxs with
  | [] => Ok None
  | i :: idxs' =>
      let window := take 3 (drop i sorted_ranks) in
      let w0 := nth 0 window 0 in
      let w2 := nth 2 window 0 in
      if w2 - w0 =? 2 then
        let cards_to_keep := one_of_each window (hand state) in
        let cards_to_discard := not_in cards_to_keep (hand state) in
        prob ← _calculate_draw_probability 2 8 (52 - 8);
        if negb (Qle_bool prob 0.05) then
          est ← _estimate_hand_score state STRAIGHT (Some cards_to_keep);
          Ok (Some (mkPotentialHand STRAIGHT 2 (take 5 cards_to_discard)
                      cards_to_keep prob est (R_straight3 w0 w2)))
        else straight_loop3 state sorted_ranks idxs'
      else straight_loop3 state sorted_ranks idxs'
  end.

(** [_find_straight_potential]. *)
Definition _find_straight_potential (state : GameState) (sorted_ranks : list Z)
    : result (option PotentialHand) :=
  r ← straight_loop4 state sorted_ranks (seq 0 (length sorted_ranks - 3));
  match r with
  | Some p => Ok (Some p)
  | None => straight_loop3 state sorted_ranks (seq 0 (length sorted_ranks - 2))
  end.

(** The histograms built by the first loop of [analyze_potential_hands],
    [_analyze_discards] and [_estimate_discard_value]: keys in order of
    first occurrence. *)
Definition rank_histogram (hand : list Card) : list (Z * Z) := Counter (map rank hand).
Definition suit_histogram (hand : list Card) : list (Suit * Z) := Counter (map suit hand).

(** [cards_by_suit[s]]. *)
Definition of_suit (s : Suit) (hand : list Card) : list Card :=
  filter (fun c => suit c = s) hand.

(** Section 1 of [analyze_potential_hands]: one suit of the histogram. *)
Definition flush_potential (state : GameState) (sc : Suit * Z)
    : result (list PotentialHand) :=
  let '(s, count) := sc in
  if 4 <=? count then
    let cards_needed := 5 - count in
    let cards_to_keep := of_suit s (hand state) in
    let cards_to_discard := take 5 (filter (fun c => suit c ≠ s) (hand state)) in
    let remaining_in_suit := 13 - count in
    prob ← _calculate_draw_probability cards_needed remaining_in_suit (52 - 8);
    if cards_needed <=? 2 then
      est ← _estimate_hand_score state FLUSH (Some cards_to_keep);
      Ok [mkPotentialHand FLUSH cards_needed
            (slice_to (cards_needed + 2) cards_to_discard) cards_to_keep prob est
            (R_flush count s cards_needed)]
    else Ok []
  else Ok [].

(** Section 3: one rank of the histogram. *)
Definition quads_potential (state : GameState) (rc : Z * Z)
    : result (list PotentialHand) :=
  let '(r, count) := rc in
  if count =? 3 then
    let cards_to_keep := HandEvaluator.of_rank r (hand state) in
    let cards_to_discard := filter (fun c => rank c ≠ r) (hand state) in
    prob ← _calculate_draw_probability 1 1 (52 - 8);
    est ← _estimate_hand_score state FOUR_OF_A_KIND (Some cards_to_keep);
    Ok [mkPotentialHand FOUR_OF_A_KIND 1 (take 3 cards_to_discard) cards_to_keep
          prob est (R_quads r)]
  else Ok [].

(** Section 4. In the source the [cards_to_keep] of a Full House already
    in hand is the hand list itself, not a copy; the embedding records the
    value it has at that point. *)
Definition full_house_potential (state : GameState) (rank_counts : list (Z * Z))
    : result (list PotentialHand) :=
  let hand := hand state in
  let pairs := filter (fun rc => 2 ≤ snd rc) rank_counts in
  if 2 <=? len pairs then
    let trips := filter (fun p => 3 ≤ snd p) pairs in
    let twos := filter (fun p => snd p = 2) pairs in
    match trips, twos with
    | _ :: _, _ :: _ =>
        est ← _estimate_hand_score state FULL_HOUSE (Some (take 5 hand));
        Ok [mkPotentialHand FULL_HOUSE 0 [] hand 1 est R_full_house_made]
    | _, _ =>
        if 2 <=? len twos then
          let best_pair_rank := default 0 (fst <$> max_by fst twos) in
          let other_pair_rank := default 0 (fst <$> min_by fst twos) in
          let cards_to_keep :=
            HandEvaluator.of_rank best_pair_rank hand
            ++ HandEvaluator.of_rank other_pair_rank hand in
          let cards_to_discard := not_in cards_to_keep hand in
          prob ← _calculate_draw_probability 1 4 (52 - 8);
          est ← _estimate_hand_score state FULL_HOUSE (Some cards_to_keep);
          Ok [mkPotentialHand FULL_HOUSE 1
                (take (length cards_to_discard) cards_to_discard) cards_to_keep
                prob est (R_two_pairs best_pair_rank other_pair_rank)]
        else Ok []
    end
  else Ok [].

(** Section 5: one rank of the histogram. *)
Definition trips_potential (state : GameState) (rc : Z * Z)
    : result (list PotentialHand) :=
  let '(r, count) := rc in
  if count =? 2 then
    let cards_to_keep := HandEvaluator.of_rank r (hand state) in
    let cards_to_discard := filter (fun c => rank c ≠ r) (hand state) in
    prob ← _calculate_draw_probability 1 2 (52 - 8);
    est ← _estimate_hand_score state THREE_OF_A_KIND (Some cards_to_keep);
    Ok [mkPotentialHand THREE_OF_A_KIND 1 (take 3 cards_to_discard) cards_to_keep
          prob est (R_pair_to_trips r)]
  else Ok [].

(** The sort key of [analyze_potential_hands]. *)
Definition potential_value (p : PotentialHand) : Q :=
  (inject_Z (ph_expected_score p) * probability p)%Q.

(** [analyze_potential_hands]. *)
Definition analyze_potential_hands (state : GameState) : result (list PotentialHand) :=
  let hand := hand state in
  let rank_counts := rank_histogram hand in
  let suit_counts := suit_histogram hand in
  p1 ← collect (flush_potential state) suit_counts;
  let sorted_ranks := sorted_set (map fst rank_counts) in
  straight_potential ← _find_straight_potential state sorted_ranks;
  let p2 := option_list straight_potential in
  p3 ← collect (quads_potential state) rank_counts;
  p4 ← full_house_potential state rank_counts;
  p5 ← collect (trips_potential state) rank_counts;
  Ok (stable_sort
        (fun a b => negb (Qle_bool (potential_value a) (potential_value b)))
        (p1 ++ p2 ++ p3 ++ p4 ++ p5)).

(** [_generate_discard_reasoning]. *)
Definition _generate_discard_reasoning (discards : list Card)
    (rank_counts : list (Z * Z)) (suit_counts : list (Suit * Z)) : Reasoning :=
  let reasons :=
    flat_map (fun card =>
                (if assoc_get (rank card) rank_counts 0 =? 1 then [NoPair card] else [])
                ++ (if assoc_get (suit card) suit_counts 0 <? 3
                    then [MinoritySuit card] else []))
             discards in
  match reasons with
  | [] => R_low_value
  | _ => R_reasons (take 3 reasons)
  end.

(** The value that the fallback of [_analyze_discards] gives a card. *)
Definition discard_value (rank_counts : list (Z * Z)) (suit_counts : list (Suit * Z))
    (card : Card) : Z :=
  let value := 0 in
  let value := value + assoc_get (rank card) rank_counts 0 * 20 in
  let value := value + assoc_get (suit card) suit_counts 0 * 5 in
  let value := if 10 <=? rank card then value + 10 else value in
  let value := if rank card =? 14 then value + 15 else value in
  let value := if decide (enhancement card ≠ ENH_NONE) then value + 30 else value in
  let value := if decide (edition card ≠ ED_NONE) then value + 40 else value in
  value.

(** [_analyze_discards]. *)
Definition _analyze_discards (state : GameState) (hand candidates : list Card)
    : result Action :=
  potential_hands ← analyze_potential_hands state;
  let fallback :=
    let rank_counts := rank_histogram hand in
    let suit_counts := suit_histogram hand in
    let card_values :=
      map (fun card => (discard_value rank_counts suit_counts card, card)) candidates in
    let card_values := stable_sort (fun a b => fst a <? fst b) card_values in
    let to_discard :=
      map snd (take (Nat.min 5 (length card_values)) card_values) in
    let reasoning := _generate_discard_reasoning to_discard rank_counts suit_counts in
    mkAction DISCARD to_discard 0 None reasoning 1 (take 3 potential_hands) in
  match potential_hands with
  | best_potential :: _ =>
      if Qle_bool 0.1 (probability best_potential) && (0 <? cards_needed best_potential)
      then
        Ok (mkAction DISCARD (take 5 (cards_to_discard best_potential))
              (Qtrunc (potential_value best_potential))
              (Some (ph_hand_type best_potential)) (ph_reasoning best_potential)
              1 (take 3 potential_hands))
      else Ok fallback
  | [] => Ok fallback
  end.

(** [find_best_discard]. The candidates are the cards of the hand whose
    [id] is not that of a card of the best play; reading [.cards] of a
    best play that is [None] raises [AttributeError]. *)
Definition find_best_discard (state : GameState) : result Action :=
  if negb (can_discard state)
  then Ok (mkAction DISCARD [] 0 None R_no_discards 1 [])
  else
    let hand := hand state in
    match find_best_play_ids state with
    | None => Raise AttributeError
    | Some (scoring_cards, current_best) =>
        let discard_candidates :=
          map snd (filter (fun ic => fst ic ∉ scoring_cards) (indexed hand)) in
        match discard_candidates with
        | [] => Ok (mkAction DISCARD [] 0 None R_all_useful 1 [])
        | _ => _analyze_discards state hand discard_candidates
        end
    end.

(** [_count_consecutive]. *)
Definition count_step (sorted_ranks : list Z) (acc : Z * Z) (i : nat) : Z * Z :=
  let '(max_consecutive, current) := acc in
  if nth i sorted_ranks 0 =? nth (i - 1) sorted_ranks 0 + 1
  then (Z.max max_consecutive (current + 1), current + 1)
  else (max_consecutive, 1).

Definition _count_consecutive (sorted_ranks : list Z) : Z :=
  if len sorted_ranks <? 2 then len sorted_ranks
  else
    let max_consecutive :=
      fst (fold_left (count_step sorted_ranks) (seq 1 (length sorted_ranks - 1)) (1, 1)) in
    if bool_decide (14 ∈ sorted_ranks) && bool_decide (2 ∈ sorted_ranks) then
      let wheel_count :=
        1 + len (filter (fun r => r ∈ sorted_ranks) [2; 3; 4; 5]) in
      Z.max max_consecutive wheel_count
    else max_consecutive.

(** [max(d.values()) if d else 0]. *)
Definition max_count {K} (d : list (K * Z)) : Z :=
  match d with
  | [] => 0
  | (_, n) :: d' => fold_left Z.max (map snd d') n
  end.

(** [_estimate_discard_value]. *)
Definition _estimate_discard_value (state : GameState) : Z :=
  let hand := hand state in
  let rank_counts := rank_histogram hand in
  let suit_counts := suit_histogram hand in
  let potential_value := 0 in
  let max_suit := max_count suit_counts in
  let potential_value :=
    if max_suit =? 4 then potential_value + 200
    else if max_suit =? 3 then potential_value + 50
    else potential_value in
  let sorted_ranks := sorted_set (map fst rank_counts) in
  let consecutive := _count_consecutive sorted_ranks in
  let potential_value :=
    if consecutive =? 4 then potential_value + 150
    else if consecutive =? 3 then potential_value + 30
    else potential_value in
  let max_rank := max_count rank_counts in
  let potential_value :=
    if max_rank =? 3 then potential_value + 100
    else if max_rank =? 2 then
      let pairs := len (filter (fun rc => 2 ≤ snd rc) rank_counts) in
      if 2 <=? pairs then potential_value + 80 else potential_value
    else potential_value in
  potential_value.

End Optimizer.

(** ** The heap: game-state objects and the lists they point to *)

Definition loc := positive.

(** A [GameState] object. Its [hand], [deck] and [cards_played_this_round]
    are references to list objects. The jokers and the hand levels are
    never written by the optimizer and are kept as values. *)
Record StateObj := mkStateObj {
  o_hand : loc;
  o_deck : loc;
  o_jokers : list Joker;
  o_hand_levels : gmap HandType Z;
  o_hands_remaining : Z;
  o_discards_remaining : Z;
  o_money : Z;
  o_blind : BlindInfo;
  o_current_score : Z;
  o_ante : Z;
  o_round_in_ante : Z;
  o_cards_played : loc
}.

Record Heap := mkHeap {
  lists : gmap loc (list Card);
  objs : gmap loc StateObj
}.

#[global] Instance StateObj_inhabited : Inhabited StateObj :=
  populate (mkStateObj 1%positive 1%positive [] ∅ 0 0 0
              (mkBlindInfo "" 0 0 false None) 0 0 0 1%positive).

Definition read_list (h : Heap) (l : loc) : list Card := default [] (lists h !! l).
Definition read_obj (h : Heap) (l : loc) : StateObj := objs h !!! l.

(** Reading all the fields of the state at [l]. *)
Definition snapshot (h : Heap) (l : loc) : GameState :=
  let o := read_obj h l in
  mkGameState (read_list h (o_hand o)) (read_list h (o_deck o)) (o_jokers o)
    (o_hand_levels o) (o_hands_remaining o) (o_discards_remaining o) (o_money o)
    (o_blind o) (o_current_score o) (o_ante o) (o_round_in_ante o)
    (read_list h (o_cards_played o)).

Definition alloc_list (l : list Card) (h : Heap) : loc * Heap :=
  let r := fresh (dom (lists h)) in
  (r, mkHeap (<[r := l]> (lists h)) (objs h)).

Definition alloc_obj (o : StateObj) (h : Heap) : loc * Heap :=
  let r := fresh (dom (objs h)) in
  (r, mkHeap (lists h) (<[r := o]> (objs h))).

(** [GameState.copy], that is [copy.deepcopy]: a new state object whose
    lists are new list objects; two fields that shared one list share one
    copy. *)
Definition copy (l : loc) (h : Heap) : loc * Heap :=
  let o := read_obj h l in
  let '(hand', h1) := alloc_list (read_list h (o_hand o)) h in
  let '(deck', h2) :=
    if decide (o_deck o = o_hand o) then (hand', h1)
    else alloc_list (read_list h (o_deck o)) h1 in
  let '(played', h3) :=
    if decide (o_cards_played o = o_hand o) then (hand', h2)
    else if decide (o_cards_played o = o_deck o) then (deck', h2)
    else alloc_list (read_list h (o_cards_played o)) h2 in
  alloc_obj
    (mkStateObj hand' deck' (o_jokers o) (o_hand_levels o) (o_hands_remaining o)
       (o_discards_remaining o) (o_money o) (o_blind o) (o_current_score o)
       (o_ante o) (o_round_in_ante o) played') h3.

(** [state.hands_remaining -= 1] and [state.discards_remaining -= 1]. *)
Definition dec_hands_remaining (l : loc) (h : Heap) : Heap :=
  let o := read_obj h l in
  mkHeap (lists h)
    (<[l := mkStateObj (o_hand o) (o_deck o) (o_jokers o) (o_hand_levels o)
              (o_hands_remaining o - 1) (o_discards_remaining o) (o_money o)
              (o_blind o) (o_current_score o) (o_ante o) (o_round_in_ante o)
              (o_cards_played o)]> (objs h)).

Definition dec_discards_remaining (l : loc) (h : Heap) : Heap :=
  let o := read_obj h l in
  mkHeap (lists h)
    (<[l := mkStateObj (o_hand o) (o_deck o) (o_jokers o) (o_hand_levels o)
              (o_hands_remaining o) (o_discards_remaining o - 1) (o_money o)
              (o_blind o) (o_current_score o) (o_ante o) (o_round_in_ante o)
              (o_cards_played o)]> (objs h)).

(** [l.remove(card)]: drops the first element equal to [card]. *)
Fixpoint list_remove_first (card : Card) (l : list Card) : list Card :=
  match l with
  | [] => []
  | c :: l' => if Card_eq c card then l' else c :: list_remove_first card l'
  end.

(** [if card in state.hand: state.hand.remove(card)], on the list object
    that the state at [l] points to. *)
Definition hand_remove (l : loc) (card : Card) (h : Heap) : Heap :=
  let r := o_hand (read_obj h l) in
  if existsb (fun c => Card_eq c card) (read_list h r)
  then mkHeap (<[r := list_remove_first card (read_list h r)]> (lists h)) (objs h)
  else h.

(** [for card in cards: if card in state.hand: state.hand.remove(card)]. *)
Definition hand_remove_all (l : loc) (cards : list Card) (h : Heap) : Heap :=
  fold_left (fun h card => hand_remove l card h) cards h.

(** ** The multi-turn simulation *)

Module Strategist.

Import Optimizer.

(** The local variables of [calculate_strategy]'s loop. *)
Definition add_action (a : Action) (s : Strategy) : Strategy :=
  mkStrategy (actions s ++ [a]) (total_expected_score s) (hands_needed s)
    (discards_used s) (success_probability s) (notes s).
Definition add_note (n : Note) (s : Strategy) : Strategy :=
  mkStrategy (actions s) (total_expected_score s) (hands_needed s)
    (discards_used s) (success_probability s) (notes s ++ [n]).
Definition inc_hands_needed (s : Strategy) : Strategy :=
  mkStrategy (actions s) (total_expected_score s) (hands_needed s + 1)
    (discards_used s) (success_probability s) (notes s).
Definition inc_discards_used (s : Strategy) : Strategy :=
  mkStrategy (actions s) (total_expected_score s) (hands_needed s)
    (discards_used s + 1) (success_probability s) (notes s).
Definition set_total (v : Z) (s : Strategy) : Strategy :=
  mkStrategy (actions s) v (hands_needed s) (discards_used s)
    (success_probability s) (notes s).
Definition set_probability (p : Q) (s : Strategy) : Strategy :=
  mkStrategy (actions s) (total_expected_score s) (hands_needed s)
    (discards_used s) p (notes s).

(** What a run of the loop yields: [None] when the fuel ran out, else the
    loop's normal or exceptional exit; the heap is the heap at that point. *)
Definition loop_exit : Type := option (result (Strategy * Z)) * Heap.

(** The branch that plays [best_play]. *)
Definition play_branch (sim : loc) (best_play : Action) (strategy : Strategy)
    (total_score : Z) (h : Heap) : Strategy * Z * Heap :=
  let strategy := inc_hands_needed (add_action best_play strategy) in
  let total_score := total_score + expected_score best_play in
  let h := dec_hands_remaining sim h in
  let h := hand_remove_all sim (cards best_play) h in
  (strategy, total_score, h).

(** The branch that takes [discard_action]. *)
Definition discard_branch (sim : loc) (discard_action : Action) (strategy : Strategy)
    (h : Heap) : Strategy * Heap :=
  let strategy := inc_discards_used (add_action discard_action strategy) in
  let h := dec_discards_remaining sim h in
  let h := hand_remove_all sim (cards discard_action) h in
  (add_note N_discard strategy, h).

(** [potential_improvement > best_play.expected_score * 0.3 and
    sim_state.hands_remaining > 1], evaluated when discards remain. *)
Definition should_discard (sim_state : GameState) (best_play : Action) : bool :=
  (0 <? discards_remaining sim_state)
  && negb (Qle_bool (inject_Z (_estimate_discard_value sim_state))
                    (inject_Z (expected_score best_play) * 0.3))
  && (1 <? hands_remaining sim_state).

(** The [while] loop of [calculate_strategy]; [sim] is [sim_state]. Using
    [best_play.expected_score] when [best_play] is [None] raises
    [AttributeError]. *)
Fixpoint strategy_loop (fuel : nat) (sim : loc) (target : Z)
    (strategy : Strategy) (total_score : Z) (h : Heap) : loop_exit :=
  let sim_state := snapshot h sim in
  if (total_score <? target) && (0 <? hands_remaining sim_state) then
    match fuel with
    | O => (None, h)
    | S fuel' =>
        match find_best_play sim_state with
        | None => (Some (Raise AttributeError), h)
        | Some best_play =>
            let play :=
              let '(strategy, total_score, h) :=
                play_branch sim best_play strategy total_score h in
              strategy_loop fuel' sim target strategy total_score h in
            if should_discard sim_state best_play then
              match find_best_discard sim_state with
              | Raise e => (Some (Raise e), h)
              | Ok discard_action =>
                  match cards discard_action with
                  | [] => play
                  | _ =>
                      let '(strategy, h) :=
                        discard_branch sim discard_action strategy h in
                      strategy_loop fuel' sim target strategy total_score h
                  end
              end
            else play
        end
    end
  else (Some (Ok (strategy, total_score)), h).

(** The code after the loop. [total_score / target] raises
    [ZeroDivisionError] when [target] is [0]. *)
Definition conclude (self_state : GameState) (target : Z) (strategy : Strategy)
    (total_score : Z) : result Strategy :=
  let strategy := set_total total_score strategy in
  if target <=? total_score then
    let strategy := set_probability 0.95 strategy in
    if hands_needed strategy <=? hands_remaining self_state
    then Ok (add_note N_enough_hands strategy)
    else Ok (add_note N_not_enough_hands (set_probability 0 strategy))
  else
    ratio ← py_div total_score target;
    Ok (add_note (N_below_target total_score target)
          (set_probability (py_min 0.8 ratio) strategy)).

(** Every pass through the loop uses up a hand or a discard of the
    simulated state, which bounds the number of passes. *)
Definition loop_bound (sim_state : GameState) : nat :=
  Z.to_nat (hands_remaining sim_state) + Z.to_nat (discards_remaining sim_state).

(** [calculate_strategy] of the optimizer whose [self.state] is the object
    at [self]. The result is [None] only if the loop ran out of fuel. *)
Definition calculate_strategy (self : loc) (h : Heap) : option (result Strategy) * Heap :=
  let target := target_score (blind (snapshot h self)) in
  let current := current_score (snapshot h self) in
  let needed := target - current in
  let strategy := Strategy_default in
  if needed <=? 0 then
    (Some (Ok (add_note N_already_won (set_probability 1 strategy))), h)
  else
    let '(sim, h) := copy self h in
    let total_score := current in
    match strategy_loop (loop_bound (snapshot h sim)) sim target strategy total_score h with
    | (None, h) => (None, h)
    | (Some (Raise e), h) => (Some (Raise e), h)
    | (Some (Ok (strategy, total_score)), h) =>
        (Some (conclude (snapshot h self) target strategy total_score), h)
    end.

End Strategist.

(** ** The recommender *)

Module Advisor.

Import Optimizer Strategist.

(** A [Recommender] object: [current_state] is [None] or a reference to a
    game state. *)
Record Recommender := mkRecommender {
  history : list Action;
  current_state : option loc
}.

(** [Recommender()]. *)
Definition Recommender_new : Recommender := mkRecommender [] None.

(** [update_state]. *)
Definition update_state (self : Recommender) (state : loc) : Recommender :=
  mkRecommender (history self) (Some state).

(** [get_recommendation]: the immediate action, which is [None] when it
    comes from a [find_best_play] that returned [None], and the strategy.
    The outer [None] is the loop of [calculate_strategy] out of fuel. *)
Definition get_recommendation (self : Recommender) (h : Heap)
    : option (result (option Action * Strategy)) * Heap :=
  match current_state self with
  | None => (Some (Raise ValueError), h)
  | Some state =>
      match calculate_strategy state h with
      | (None, h) => (None, h)
      | (Some (Raise e), h) => (Some (Raise e), h)
      | (Some (Ok strategy), h) =>
          match actions strategy with
          | immediate_action :: _ => (Some (Ok (Some immediate_action, strategy)), h)
          | [] => (Some (Ok (find_best_play (snapshot h state), strategy)), h)
          end
      end
  end.

(** The texts of the quick tips, one constructor per template. *)
Inductive Tip :=
  | T_last_hand                      (* "Ultima mano! Juega tu mejor combinacion." *)
  | T_no_discards                    (* "Sin descartes. ..." *)
  | T_can_win (ht : HandType)        (* "Puedes ganar con una mano! Juega: {display_name}" *)
  | T_per_hand (points : Z)          (* "Necesitas ~{..} pts/mano" *)
  | T_hard                           (* "Dificil alcanzar el objetivo. ..." *)
  | T_jokers (names : list string).  (* "Jokers activos: {names}" *)

(** [a // b]: floor division, [ZeroDivisionError] on a zero divisor. *)
Definition py_floordiv (a b : Z) : result Z :=
  if b =? 0 then Raise ZeroDivisionError else Ok (a / b).

(** [get_quick_tips] on the state the recommender holds, [None] when it
    holds none. Reading an attribute of a best play that is [None], or the
    [display_name] of a hand type that is [None], raises [AttributeError]. *)
Definition get_quick_tips (current_state : option GameState) : result (list Tip) :=
  let tips := [] in
  match current_state with
  | None => Ok tips
  | Some state =>
      let tips := if hands_remaining state =? 1 then tips ++ [T_last_hand] else tips in
      let tips := if discards_remaining state =? 0 then tips ++ [T_no_discards] else tips in
      let score_needed := score_needed state in
      match find_best_play state with
      | None => Raise AttributeError
      | Some best_play =>
          tips ←
            (if score_needed <=? expected_score best_play then
               match hand_type best_play with
               | None => Raise AttributeError
               | Some ht => Ok (tips ++ [T_can_win ht])
               end
             else if score_needed <=? expected_score best_play * hands_remaining state then
               q ← py_floordiv score_needed (hands_remaining state);
               Ok (tips ++ [T_per_hand q])
             else Ok (tips ++ [T_hard]));
          match jokers state with
          | [] => Ok tips
          | _ => Ok (tips ++ [T_jokers (map name (take 3 (jokers state)))])
          end
      end
  end.

End Advisor.

(** ** Sorting and scanning by a key *)

(** The comparison of [sort(key=key, reverse=True)]. *)
Definition by_key_desc {A} (key : A → Z) (a b : A) : bool := key a >? key b.

(** [l1 ++ a :: l2] split at its first element of maximal key. *)
Definition first_max_split {A} (key : A → Z) (l1 : list A) (a : A) (l2 : list A) : Prop :=
  Forall (λ x, key x < key a) l1 ∧ Forall (λ x, key x ≤ key a) l2.

(** One step of a scan that keeps the first strictly better element. *)
Definition keep_first_better {A B} (key : A → Z) (g : A → B)
    (best : Z * option B) (x : A) : Z * option B :=
  if fst best <? key x then (key x, Some (g x)) else best.

(** ** Predicates on heaps *)

(** [l] refers to a state object of [h] whose three lists are list objects
    of [h]: references do not dangle. *)
Definition valid_state (h : Heap) (l : loc) : Prop :=
  ∃ o, objs h !! l = Some o
       ∧ is_Some (lists h !! o_hand o)
       ∧ is_Some (lists h !! o_deck o)
       ∧ is_Some (lists h !! o_cards_played o).

(** From [h] to [h'] nothing was written but the state object at [sim] and
    the list object of its hand, and that hand is still the same object. *)
Definition touches_only (sim : loc) (h h' : Heap) : Prop :=
  (∀ l, l ≠ o_hand (read_obj h sim) → lists h' !! l = lists h !! l)
  ∧ (∀ l, l ≠ sim → objs h' !! l = objs h !! l)
  ∧ o_hand (read_obj h' sim) = o_hand (read_obj h sim).

(** Every object of [h] is in [h'] as it was. *)
Definition preserved (h h' : Heap) : Prop :=
  (∀ l, is_Some (lists h !! l) → lists h' !! l = lists h !! l)
  ∧ (∀ l, is_Some (objs h !! l) → objs h' !! l = objs h !! l).

(** What every potential hand is held to: it discards cards of the hand,
    in the order of the hand, keeps cards of the hand, discards no card
    equal to one it keeps, and its score is an estimate that returned. *)
Definition sound_potential (st : GameState) (p : PotentialHand) : Prop :=
  sublist (cards_to_discard p) (hand st)
  ∧ cards_to_keep p ⊆ hand st
  ∧ (∀ c k, c ∈ cards_to_discard p → k ∈ cards_to_keep p → Card_eq c k = false)
  ∧ ∃ sc, Optimizer._estimate_hand_score st (ph_hand_type p) (Some sc)
          = Ok (ph_expected_score p).

(** [cs] are [n] cards of rank [r] among [cards], in their order. *)
Definition of_a_kind (n : nat) (r : Z) (cards cs : list Card) : Prop :=
  length cs = n ∧ sublist cs cards ∧ Forall (λ c, rank c = r) cs.

(** What the scoring cards of a hand type named after rank groups are. *)
Definition rank_groups (cards : list Card) (ht : HandType) (sc : list Card) : Prop :=
  match ht with
  | PAIR => ∃ r, of_a_kind 2 r cards sc
  | THREE_OF_A_KIND => ∃ r, of_a_kind 3 r cards sc
  | FOUR_OF_A_KIND => ∃ r, of_a_kind 4 r cards sc
  | FIVE_OF_A_KIND => ∃ r, of_a_kind 5 r cards sc
  | TWO_PAIR =>
      ∃ r1 r2 a b, r2 < r1 ∧ sc = a ++ b
                   ∧ of_a_kind 2 r1 cards a ∧ of_a_kind 2 r2 cards b
  | FULL_HOUSE =>
      ∃ r3 r2 a b, r3 ≠ r2 ∧ sc = a ++ b
                   ∧ of_a_kind 3 r3 cards a ∧ of_a_kind 2 r2 cards b
  | HIGH_CARD =>
      (cards = [] ∧ sc = [])
      ∨ ∃ c, sc = [c] ∧ c ∈ cards ∧ (∀ c', c' ∈ cards → rank c' ≤ rank c)
             ∧ NoDup (map rank cards)
  | _ => True
  end.

(** What the loop of [_count_consecutive] has computed when it has looked
    at the places up to [j] of [u]: [cur] is the length of the longest
    stretch of consecutive values that ends at place [j], and [best] the
    length of the longest stretch that ends at a place up to [j]. *)
Definition stretch (u : list Z) (j : nat) (c : Z) : Prop :=
  1 ≤ c ≤ Z.of_nat j + 1
  ∧ ∃ a, u !! j = Some a
         ∧ ∀ i, (Z.of_nat i < c) → u !! (j - i)%nat = Some (a - Z.of_nat i).

Definition count_inv (u : list Z) (j : nat) (acc : Z * Z) : Prop :=
  stretch u j (snd acc)
  ∧ ¬ stretch u j (snd acc + 1)
  ∧ (∃ j', (j' ≤ j)%nat ∧ stretch u j' (fst acc))
  ∧ ∀ j' c, (j' ≤ j)%nat → stretch u j' c → c ≤ fst acc.

(** Two cards that differ in their seal at most. *)
Definition same_but_seal (c c' : Card) : Prop :=
  rank c = rank c' ∧ suit c = suit c' ∧ enhancement c = enhancement c'
  ∧ edition c = edition c'.

(** ** Concrete cards and states used in the statements below *)

Module Scenarios.

Import Parse.

(** How a rank symbol is rendered back: T comes back as 10. *)
Definition rendered_rank (r : string) : string := if decide (r = "T") then "10" else r.

(** The round trip as the specification words it, for every valid token. *)
Definition roundtrip_all_tokens : Prop :=
  ∀ t, valid_token t → ∃ c, parse_card t = Ok c ∧ short_name c = upper_string t.

Definition stone_seven : Card := mkCard 7 HEARTS STONE ED_NONE SEAL_NONE.

Definition four_hearts : list Card :=
  [card 2 HEARTS; card 4 HEARTS; card 7 HEARTS; card 9 HEARTS].

Definition state_with (hand : list Card) (jokers : list Joker)
    (hands_remaining discards_remaining target current : Z) : GameState :=
  mkGameState hand [] jokers default_hand_levels hands_remaining
    discards_remaining 0 (mkBlindInfo "Small Blind" target 0 false None)
    current 1 1 [].

Definition scenario_hand : list Card :=
  [card 14 SPADES; card 14 HEARTS; card 13 SPADES; card 13 HEARTS;
   card 12 DIAMONDS; card 7 CLUBS; card 3 SPADES; card 2 HEARTS].

Definition scenario_state : GameState :=
  mkGameState scenario_hand [] [] default_hand_levels 4 3 0
    (mkBlindInfo "Small Blind" 300 0 false None) 0 1 1 [].

Definition two_pair_cards : list Card :=
  [card 14 SPADES; card 14 HEARTS; card 13 SPADES; card 13 HEARTS].



(** The two products of [calculate_score], [mult * x_mult] and
    [chips * final_mult], need no rounding: [x_mult] is [m * 2 ^ e] for
    integers [m] and [e] such that the factors and the product hold in 53
    bits each time, at an exponent that a float can have. *)
Definition exact_products (chips mult : Z) (x : pyfloat) : Prop :=
  ∃ m e,
    PyFloat.eqb x (mkF m e) = true
    ∧ Z.abs m < 2 ^ 53 ∧ Z.abs chips < 2 ^ 53 ∧ Z.abs mult < 2 ^ 53
    ∧ Z.abs (mult * m) < 2 ^ 53 ∧ Z.abs (chips * (mult * m)) < 2 ^ 53
    ∧ -1074 ≤ e ≤ 971.


(** Levels are at least 1 and no joker takes chips or mult away. *)
Definition nonneg_state (gs : GameState) : Prop :=
  (∀ ht l, hand_levels gs !! ht = Some l → 1 ≤ l)
  ∧ (∀ j, j ∈ jokers gs →
       0 ≤ flat_chips (effect j) ∧ 0 ≤ flat_mult (effect j)
       ∧ (0 <= PyFloat.value (x_mult (effect j)))%Q).


(** [sep.join(ts)] for a one-character separator. *)
Fixpoint join_with (sep : ascii) (ts : list (list ascii)) : list ascii :=
  match ts with
  | [] => []
  | [t] => t
  | t :: ts' => t ++ sep :: join_with sep ts'
  end.

(** A token that holds no separator and no blank, and is not empty. *)
Definition clean_token (t : list ascii) : Prop :=
  t ≠ []
  ∧ Forall (λ c, c ≠ ","%char ∧ c ≠ "|"%char ∧ is_space c = false) t.

(** Both replacements of [parse_hand] at once. *)
Definition bar_separators (s : list ascii) : list ascii :=
  replace_char " "%char "|"%char (replace_char ","%char "|"%char s).

(** A state with its jokers replaced. *)
Definition with_jokers (js : list Joker) (gs : GameState) : GameState :=
  mkGameState (hand gs) (deck gs) js (hand_levels gs) (hands_remaining gs)
    (discards_remaining gs) (money gs) (blind gs) (current_score gs) (ante gs)
    (round_in_ante gs) (cards_played_this_round gs).

(** The plays and the discards among the actions of a strategy, and the
    sum of the scores of a list of actions. *)
Definition plays_of (l : list Action) : list Action :=
  filter (λ a, action_type a = PLAY) l.

Definition discards_of (l : list Action) : list Action :=
  filter (λ a, action_type a = DISCARD) l.

Definition total_score_of (l : list Action) : Z :=
  foldr Z.add 0 (map expected_score l).

(** A heap with one state object, at location 1, whose hand, deck and
    played cards are the list objects at 1, 2 and 3. *)
Definition heap_with (hand : list Card) (jokers : list Joker)
    (hands_remaining discards_remaining target current : Z) : Heap :=
  mkHeap
    (<[1%positive := hand]> (<[2%positive := []]> (<[3%positive := []]> ∅)))
    (<[1%positive :=
         mkStateObj 1%positive 2%positive jokers default_hand_levels
           hands_remaining discards_remaining 0
           (mkBlindInfo "Small Blind" target 0 false None) current 1 1
           3%positive]> ∅).

(** What a normal end of the loop has added to the strategy. *)
Definition loop_accounts (sim : loc) (target : Z) (s : Strategy) (t : Z) (h : Heap)
    (s' : Strategy) (t' : Z) (h' : Heap) : Prop :=
  ∃ more,
    actions s' = actions s ++ more
    ∧ hands_needed s' = hands_needed s + len (plays_of more)
    ∧ discards_used s' = discards_used s + len (discards_of more)
    ∧ t' = t + total_score_of (plays_of more)
    ∧ discards_used s' - discards_used s
      = discards_remaining (snapshot h sim) - discards_remaining (snapshot h' sim)
    ∧ (0 ≤ discards_remaining (snapshot h sim) → 0 ≤ discards_remaining (snapshot h' sim))
    ∧ (discards_remaining (snapshot h sim) ≤ 0 → discards_used s' = discards_used s)
    ∧ (t' < target → hands_remaining (snapshot h' sim) ≤ 0).

(** A Royal Flush of hearts. *)
Definition royal_hearts : list Card :=
  [card 10 HEARTS; card 11 HEARTS; card 12 HEARTS; card 13 HEARTS; card 14 HEARTS].

(** The factors by which a joker multiplies [x_mult]: its own, then 1.5
    when it is Polychrome. *)
Definition joker_factors (cards : list Card) (ht : HandType) (sc : list Card)
    (gs : GameState) (j : Joker) : list pyfloat :=
  (HandEvaluator._apply_joker j cards ht sc gs).2
  :: (if decide (joker_edition j = POLYCHROME) then [PyFloat.one_and_a_half] else []).

(** The multipliers of a hand under the jokers [js]: [x_mult] as the
    scoring cards leave it, then the factors of each joker in turn. *)
Definition multipliers (cards : list Card) (gs : GameState) (js : list Joker)
    : list pyfloat :=
  let '(ht, sc) := HandEvaluator.get_hand_type cards in
  (fold_left HandEvaluator.score_card sc
     (HandLevel_chips (get_hand_level gs ht), HandLevel_mult (get_hand_level gs ht),
      PyFloat.one)).2
  :: flat_map (joker_factors cards ht sc gs) js.

(** No product of these floats, in whatever order, needs rounding: they
    are [m * 2 ^ e] for pairs of integers [m] and [e] such that the sizes
    of the mantissas [m] (1 for a zero) multiply to less than 2^53 and the
    sizes of the exponents [e] add up to 971 at most. *)
Definition small_pairs (rs : list pyfloat) : Prop :=
  foldr Z.mul 1 (map (λ r, Z.max 1 (Z.abs (fm r))) rs) < 2 ^ 53
  ∧ foldr Z.add 0 (map (λ r, Z.abs (fe r)) rs) ≤ 971.

Definition exact_multipliers (fs : list pyfloat) : Prop :=
  ∃ rs, Forall2 (λ f r, PyFloat.eqb f r = true) fs rs ∧ small_pairs rs.

(** The floats nearest to 1.1, 1.2 and 2.5, jokers that multiply by them,
    and three tens. *)
Definition float_1_1 : pyfloat := mkF 4953959590107546 (-52).
Definition float_1_2 : pyfloat := mkF 5404319552844595 (-52).
Definition float_2_5 : pyfloat := mkF 5 (-1).

Definition times_joker (x : pyfloat) : Joker :=
  mkJoker "Times" "common" ED_NONE (with_x_mult x JokerEffect_default).

Definition three_tens : list Card := [card 10 SPADES; card 10 HEARTS; card 10 CLUBS].

End Scenarios.

(** * Properties *)

(** ** Cards *)

Lemma chip_value_stone c : enhancement c = STONE → chip_value c = 50.
Proof. intros H. unfold chip_value. by rewrite decide_True. Qed.

(** C7. The chip value of a card is 50 for a Stone card; otherwise it is the
    rank for ranks 2 to 10, 10 for J, Q, K and 11 for the Ace, plus 30 for a
    Bonus card, plus 50 for a Foil card. Hence it does not depend on the
    seal, nor on the edition apart from Foil (+50), nor on the enhancement
    apart from Bonus (+30) and Stone (50). *)
Theorem chip_value_spec (c : Card) :
  (enhancement c = STONE → chip_value c = 50)
  ∧ (enhancement c ≠ STONE →
     ∃ base,
       chip_value c
       = base + (if decide (enhancement c = BONUS) then 30 else 0)
              + (if decide (edition c = FOIL) then 50 else 0)
       ∧ (2 ≤ rank c ≤ 10 → base = rank c)
       ∧ (11 ≤ rank c ≤ 13 → base = 10)
       ∧ (rank c = 14 → base = 11))
  ∧ (∀ s, chip_value (with_seal s c) = chip_value c)
  ∧ (∀ e e', e ≠ FOIL → e' ≠ FOIL →
       chip_value (with_edition e c) = chip_value (with_edition e' c))
  ∧ (enhancement c ≠ STONE →
       chip_value (with_edition FOIL c) = chip_value (with_edition ED_NONE c) + 50)
  ∧ (∀ e e', e ≠ BONUS → e ≠ STONE → e' ≠ BONUS → e' ≠ STONE →
       chip_value (with_enhancement e c) = chip_value (with_enhancement e' c))
  ∧ chip_value (with_enhancement BONUS c)
    = chip_value (with_enhancement ENH_NONE c) + 30
  ∧ chip_value (with_enhancement STONE c) = 50.
Proof.
  destruct c as [r s en ed se]. split_and!.
  - apply chip_value_stone.
  - cbn. intros Hen.
    exists (if (2 <=? r) && (r <=? 10) then r
            else if (r =? 11) || (r =? 12) || (r =? 13) then 10 else 11).
    split_and!.
    + unfold chip_value; cbn. rewrite decide_False by done.
      repeat case_decide; lia.
    + intros. rewrite (proj2 (andb_true_iff _ _)); [done | lia].
    + intros. replace ((2 <=? r) && (r <=? 10)) with false by lia.
      replace ((r =? 11) || (r =? 12) || (r =? 13)) with true by lia. done.
    + intros ->. done.
  - done.
  - intros e e' He He'. unfold chip_value; cbn.
    rewrite (decide_False (P := e = FOIL)), (decide_False (P := e' = FOIL)); done.
  - cbn. intros Hen. unfold chip_value; cbn. rewrite decide_False by done.
    repeat case_decide; try done; lia.
  - intros e e' ? ? ? ?. unfold chip_value; cbn.
    rewrite (decide_False (P := e = STONE)), (decide_False (P := e' = STONE)) by done.
    rewrite (decide_False (P := e = BONUS)), (decide_False (P := e' = BONUS)); done.
  - unfold chip_value; cbn. repeat case_decide; try done; lia.
  - done.
Qed.

Lemma chip_value_spec_witness :
  chip_value (mkCard 12 HEARTS BONUS FOIL SEAL_RED) = 10 + 30 + 50.
Proof.
  destruct (chip_value_spec (mkCard 12 HEARTS BONUS FOIL SEAL_RED))
    as (_ & H & _).
  destruct H as (base & -> & _ & Hb & _); [done|].
  rewrite Hb; [reflexivity | cbn; lia].
Defined.

Lemma Card_eq_spec c1 c2 :
  Card_eq c1 c2 = true
  ↔ rank c1 = rank c2 ∧ suit c1 = suit c2 ∧ enhancement c1 = enhancement c2.
Proof.
  unfold Card_eq. rewrite !andb_true_iff, !bool_decide_eq_true, Z.eqb_eq.
  tauto.
Qed.

Lemma Card_eq_refl c : Card_eq c c = true.
Proof. by apply Card_eq_spec. Qed.

(** [Card.__eq__] leaves the edition and the seal aside, while
    [Card.__hash__] hashes the tuple that holds them: a card and the same
    card under another edition, or another seal, are equal and are hashed
    from different tuples. The hash values of those tuples are the
    interpreter's, seeded anew for every process, and are not part of the
    program. *)
Lemma equal_cards_hashed_from_different_tuples c :
  (∀ e, e ≠ edition c →
     Card_eq c (with_edition e c) = true
     ∧ Card_hash_key c ≠ Card_hash_key (with_edition e c))
  ∧ (∀ s, s ≠ seal c →
       Card_eq c (with_seal s c) = true
       ∧ Card_hash_key c ≠ Card_hash_key (with_seal s c)).
Proof.
  split.
  - intros e He. split; [by apply Card_eq_spec|].
    intros Hk. apply He. unfold Card_hash_key in Hk. cbn in Hk. congruence.
  - intros s Hs. split; [by apply Card_eq_spec|].
    intros Hk. apply Hs. unfold Card_hash_key in Hk. cbn in Hk. congruence.
Qed.

(** ** Card tokens *)

Module ParseFacts.

Import Parse Scenarios.

(** [parse_card] reads its argument through [upper] only. *)
Lemma parse_card_upper t u :
  upper_string t = u →
  upper (list_ascii_of_string u) = list_ascii_of_string u →
  parse_card t = parse_card u.
Proof.
  intros <- Hu. unfold parse_card. rewrite Hu. unfold upper_string.
  by rewrite list_ascii_of_string_of_list_ascii.
Qed.

(** C8. A token made of a rank symbol and a suit letter, in either case,
    parses to a card, and the short name of that card (its [rank_name]
    followed by the letter of its suit) is the token in upper case, except
    that the rank symbol T is rendered as 10. *)
Theorem parse_card_roundtrip (t r s : string) :
  r ∈ rank_symbols → s ∈ suit_letters → upper_string t = r +:+ s →
  ∃ c, parse_card t = Ok c
       ∧ suit_value (suit c) = s
       ∧ rank_name c = rendered_rank r
       ∧ short_name c = rendered_rank r +:+ s.
Proof.
  intros Hr Hs Ht.
  assert (upper (list_ascii_of_string (r +:+ s)) = list_ascii_of_string (r +:+ s)
          ∧ ∃ c, parse_card (r +:+ s) = Ok c ∧ suit_value (suit c) = s
                 ∧ rank_name c = rendered_rank r
                 ∧ short_name c = rendered_rank r +:+ s) as [Hu Hc].
  { unfold rank_symbols, suit_letters in *.
    repeat (apply elem_of_cons in Hr as [->|Hr]);
      [..|by apply elem_of_nil in Hr];
      (repeat (apply elem_of_cons in Hs as [->|Hs]);
       [..|by apply elem_of_nil in Hs]);
      (split; [reflexivity | eexists; split_and!; reflexivity]). }
  destruct Hc as (c & Hc & ?). exists c. split; [|done].
  rewrite <- Hc. by apply parse_card_upper.
Qed.

Lemma parse_card_roundtrip_witness :
  ∃ c, parse_card "10h" = Ok c ∧ suit_value (suit c) = "H"
       ∧ rank_name c = "10" ∧ short_name c = "10H".
Proof.
  apply (parse_card_roundtrip "10h" "10" "H");
    [ unfold rank_symbols; set_solver | unfold suit_letters; set_solver
    | reflexivity ].
Defined.

Lemma roundtrip_fails_on_T : ¬ roundtrip_all_tokens.
Proof.
  intros H. destruct (H "TS") as (c & Hc & Hn).
  - exists "T", "S". unfold rank_symbols, suit_letters.
    split_and!; [set_solver | set_solver | reflexivity].
  - vm_compute in Hc. injection Hc as <-. vm_compute in Hn. discriminate.
Qed.

End ParseFacts.

(** ** Hand classification *)

Module ClassifierFacts.

Import HandEvaluator Scenarios.

(** A Stone card adds nothing to [suits]; a Wild card adds the marker that
    counts for every suit. *)
Lemma suits_of_stone c cs :
  enhancement c = STONE → suits_of (c :: cs) = suits_of cs.
Proof. intros H. unfold suits_of; cbn. rewrite H. done. Qed.

Lemma suit_counts_of_stone c cs :
  enhancement c = STONE → suit_counts_of (c :: cs) = suit_counts_of cs.
Proof. intros H. unfold suit_counts_of. by rewrite suits_of_stone. Qed.

Lemma wild_count_of_stone c cs :
  enhancement c = STONE → wild_count_of (c :: cs) = wild_count_of cs.
Proof. intros H. unfold wild_count_of. by rewrite suits_of_stone. Qed.

Lemma wild_count_of_wild c cs :
  enhancement c = WILD → wild_count_of (c :: cs) = wild_count_of cs + 1.
Proof.
  intros H. unfold wild_count_of, suits_of. cbn [flat_map]. rewrite H.
  rewrite decide_True by done. cbn [app].
  rewrite filter_cons_True by done. unfold len; cbn [length]. lia.
Qed.

(** The rank of every card, Stone or not, enters [ranks]. *)
Lemma ranks_of_cons c cs : ranks_of (c :: cs) = rank c :: ranks_of cs.
Proof. done. Qed.

(** C1. The classifier leaves a Stone card out of the suit counts but not
    out of the rank counts: a Stone card of rank 7 played with a plain 7 is
    classified as a Pair scoring both cards, where the plain 7 alone is a
    High Card. *)
Theorem stone_card_counts_toward_rank :
  suits_of [stone_seven; card 7 SPADES] = [Some SPADES]
  ∧ Counter (ranks_of [stone_seven; card 7 SPADES]) = [(7, 2)]
  ∧ get_hand_type [stone_seven; card 7 SPADES]
    = (PAIR, [stone_seven; card 7 SPADES])
  ∧ get_hand_type [card 7 SPADES] = (HIGH_CARD, [card 7 SPADES]).
Proof. split_and!; reflexivity. Qed.

End ClassifierFacts.

(** ** The estimator of discard directions *)

Module EstimatorFacts.

Import Optimizer Scenarios.

Lemma estimate_jokers_nil mult : estimate_jokers [] mult = Ok mult.
Proof. done. Qed.

Lemma estimate_jokers_cons j js mult :
  estimate_jokers (j :: js) mult = Raise AttributeError.
Proof. done. Qed.

(** Without jokers the estimate is the product of the table chips, the
    chips of the kept cards and the level bonus by the table mult and its
    level bonus. *)
Lemma _estimate_hand_score_no_jokers state ht scoring_cards :
  jokers state = [] →
  _estimate_hand_score state ht scoring_cards
  = Ok (estimate_chips state ht scoring_cards * estimate_mult state ht).
Proof. intros H. unfold _estimate_hand_score. rewrite H. done. Qed.

(** With a joker the estimator stops on [joker.trigger_type]. *)
Lemma _estimate_hand_score_jokers state ht scoring_cards :
  jokers state ≠ [] →
  _estimate_hand_score state ht scoring_cards = Raise AttributeError.
Proof.
  intros H. unfold _estimate_hand_score. destruct (jokers state); done.
Qed.

(** C4. With the joker "Joker" held, the estimate of a Flush over four
    hearts raises [AttributeError]; with no joker held it is
    (35 + 2 + 4 + 7 + 9) * 4. *)
Theorem _estimate_hand_score_raises_with_joker :
  _estimate_hand_score
    (state_with (four_hearts ++ [card 13 SPADES]) [create_joker "Joker" ED_NONE] 4 3 300 0)
    FLUSH (Some four_hearts)
  = Raise AttributeError
  ∧ _estimate_hand_score
      (state_with (four_hearts ++ [card 13 SPADES]) [] 4 3 300 0)
      FLUSH (Some four_hearts)
    = Ok ((35 + 2 + 4 + 7 + 9) * 4).
Proof. split; reflexivity. Qed.

End EstimatorFacts.

(** ** Best play *)

Module PlayFacts.

Import HandEvaluator Optimizer Scenarios.

(** C5. On the hand A♠ A♥ K♠ K♥ Q♦ 7♣ 3♠ 2♥, without jokers and with every
    hand at level 1, [find_best_play] returns the play of A♠ A♥ K♠ K♥ as a
    Two Pair, with chips 20 + 11 + 11 + 10 + 10 = 62, mult 2 and score 124. *)
Theorem find_best_play_two_pair :
  find_best_play scenario_state
  = Some (mkAction PLAY two_pair_cards 124 (Some TWO_PAIR) (R_chips_mult 62 2) 1 [])
  ∧ get_hand_type two_pair_cards = (TWO_PAIR, two_pair_cards)
  ∧ map chip_value two_pair_cards = [11; 11; 10; 10]
  ∧ HandLevel_chips (get_hand_level scenario_state TWO_PAIR) = 20
  ∧ HandLevel_mult (get_hand_level scenario_state TWO_PAIR) = 2
  ∧ calculate_score two_pair_cards scenario_state = (124, TWO_PAIR, 62, 2)
  ∧ 20 + 11 + 11 + 10 + 10 = 62 ∧ 62 * 2 = 124.
Proof. split_and!; vm_compute; reflexivity. Qed.

End PlayFacts.

(** ** Floats *)

Module FloatFacts.

Import PyFloat.

Lemma two53 : 2 ^ 53 = 9007199254740992.
Proof. reflexivity. Qed.

Lemma bits_nonneg m : 0 ≤ bits m.
Proof.
  unfold bits. destruct (Z.eqb_spec m 0); [lia|].
  pose proof (Z.log2_nonneg (Z.abs m)). lia.
Qed.

Lemma bits_spec m : m ≠ 0 → 2 ^ (bits m - 1) ≤ Z.abs m < 2 ^ bits m.
Proof.
  intros Hm. unfold bits. destruct (Z.eqb_spec m 0); [done|].
  replace (Z.log2 (Z.abs m) + 1 - 1) with (Z.log2 (Z.abs m)) by lia.
  replace (Z.log2 (Z.abs m) + 1) with (Z.succ (Z.log2 (Z.abs m))) by lia.
  apply Z.log2_spec. lia.
Qed.

Lemma bits_le m k : 0 ≤ k → Z.abs m < 2 ^ k → bits m ≤ k.
Proof.
  intros Hk Hm. destruct (decide (m = 0)) as [->|Hne]; [by cbn|].
  destruct (bits_spec m Hne) as [Hlo _].
  destruct (Z.le_gt_cases (bits m) k) as [|Hgt]; [done|].
  assert (2 ^ k ≤ 2 ^ (bits m - 1)) by (apply Z.pow_le_mono_r; lia). lia.
Qed.

Lemma abs_lt_bits m k : bits m ≤ k → Z.abs m < 2 ^ k.
Proof.
  intros Hb. destruct (decide (m = 0)) as [->|Hne].
  - cbn. pose proof (bits_nonneg 0). apply Z.pow_pos_nonneg; [lia|]. cbn in Hb. lia.
  - destruct (bits_spec m Hne) as [_ Hhi].
    assert (2 ^ bits m ≤ 2 ^ k) by (apply Z.pow_le_mono_r; lia). lia.
Qed.

(** A pair within the 53 bits and above the least exponent needs no
    rounding. *)
Lemma round_id m e : Z.abs m < 2 ^ 53 → -1074 ≤ e → round m e = mkF m e.
Proof.
  intros Hm He. unfold round.
  pose proof (bits_le m 53 ltac:(lia) Hm).
  replace (Z.max (Z.max (bits m - 53) (-1074 - e)) 0) with 0 by lia. done.
Qed.

Lemma finite_small m e : Z.abs m < 2 ^ 53 → e ≤ 971 → finite (mkF m e) = true.
Proof.
  intros Hm He. unfold finite. cbn. apply orb_true_iff. right.
  pose proof (bits_le m 53 ltac:(lia) Hm). lia.
Qed.

Lemma norm_id m e :
  Z.abs m < 2 ^ 53 → -1074 ≤ e → finite (mkF m e) = true → norm m e = mkF m e.
Proof. intros Hm He Hf. unfold norm. rewrite round_id by done. by rewrite Hf. Qed.

Lemma round_shift_bounds m s :
  0 < s → m / 2 ^ s ≤ round_shift m s ≤ m / 2 ^ s + 1.
Proof. intros Hs. unfold round_shift. repeat case_match; lia. Qed.

Lemma round_shift_abs m s k :
  0 < s → 0 ≤ k → Z.abs m < 2 ^ (k + s) → Z.abs (round_shift m s) ≤ 2 ^ k.
Proof.
  intros Hs Hk Hm. pose proof (round_shift_bounds m s Hs) as Hb.
  assert (0 < 2 ^ s) as Hp by (apply Z.pow_pos_nonneg; lia).
  assert (2 ^ (k + s) = 2 ^ k * 2 ^ s) as Hks by (apply Z.pow_add_r; lia).
  assert (0 < 2 ^ k) as Hpk by (apply Z.pow_pos_nonneg; lia).
  assert (- 2 ^ k ≤ m / 2 ^ s).
  { apply Z.div_le_lower_bound; [done|]. lia. }
  assert (m / 2 ^ s < 2 ^ k).
  { apply Z.div_lt_upper_bound; [done|]. lia. }
  lia.
Qed.

Lemma round_shift_nonneg m s : 0 < s → 0 ≤ m → 0 ≤ round_shift m s.
Proof.
  intros Hs Hm. pose proof (round_shift_bounds m s Hs).
  assert (0 ≤ m / 2 ^ s); [|lia].
  apply Z.div_pos; [done|]. apply Z.pow_pos_nonneg; lia.
Qed.

(** What [round] gives holds in 53 bits, above the least exponent. *)
Lemma round_bounds m e :
  Z.abs (fm (round m e)) < 2 ^ 53 ∧ -1074 ≤ fe (round m e).
Proof.
  unfold round.
  set (s := Z.max (Z.max (bits m - 53) (-1074 - e)) 0).
  destruct (Z.eqb_spec s 0) as [Hs0|Hs0].
  - cbn. split; [|lia]. apply abs_lt_bits. lia.
  - assert (0 < s) as Hs by lia.
    assert (Z.abs (round_shift m s) ≤ 2 ^ 53) as Hle.
    { apply round_shift_abs; [done|lia|]. apply abs_lt_bits. lia. }
    destruct (Z.eqb_spec (Z.abs (round_shift m s)) (2 ^ 53)) as [Heq|Hne]; cbn.
    + split; [|lia]. rewrite two53 in *.
      assert (round_shift m s = 9007199254740992 ∨ round_shift m s = -9007199254740992)
        as [-> | ->] by lia; by vm_compute.
    + split; lia.
Qed.

Lemma round_nonneg m e : 0 ≤ m → 0 ≤ fm (round m e).
Proof.
  intros Hm. unfold round.
  set (s := Z.max (Z.max (bits m - 53) (-1074 - e)) 0).
  destruct (Z.eqb_spec s 0) as [Hs0|Hs0]; [done|].
  assert (0 < s) as Hs by lia.
  pose proof (round_shift_nonneg m s Hs Hm).
  case_match; cbn; [|done]. apply Z.div_pos; lia.
Qed.

(** Every product is a float, or [inf]. *)
Lemma norm_in_range m e : in_range (norm m e).
Proof.
  unfold norm. destruct (finite (round m e)) eqn:Hf; [|by left].
  right. destruct (round_bounds m e) as [? ?]. by repeat split.
Qed.

Lemma mul_in_range a b : in_range (mul a b).
Proof. unfold mul. case_match; [apply norm_in_range | by left]. Qed.

Lemma one_in_range : in_range one.
Proof. right. by vm_compute. Qed.

(** Signs. *)
Lemma norm_nonneg m e : 0 ≤ m → 0 ≤ fm (norm m e).
Proof.
  intros Hm. unfold norm. case_match; [by apply round_nonneg | done].
Qed.

Lemma mul_nonneg a b : 0 ≤ fm a → 0 ≤ fm b → 0 ≤ fm (mul a b).
Proof.
  intros Ha Hb. unfold mul. case_match; [|done]. apply norm_nonneg. lia.
Qed.

Lemma of_int_nonneg n : 0 ≤ n → 0 ≤ fm (of_int n).
Proof. apply norm_nonneg. Qed.

Lemma to_int_nonneg a : 0 ≤ fm a → 0 ≤ to_int a.
Proof.
  intros Ha. unfold to_int. destruct (Z.leb_spec 0 (fe a)).
  - apply Z.mul_nonneg_nonneg; [done|]. apply Z.pow_nonneg. lia.
  - apply Z.quot_pos; [done|]. apply Z.pow_pos_nonneg; lia.
Qed.

Lemma value_nonneg a : (0 <= value a)%Q ↔ 0 ≤ fm a.
Proof.
  destruct a as [m e]. unfold value. cbn [fm fe].
  assert (0 < 2 ^ e)%Q as Hp.
  { apply Qpower_0_lt. reflexivity. }
  split.
  - intros H. destruct (Z.le_gt_cases 0 m) as [|Hneg]; [done|].
    exfalso. assert (inject_Z m < 0)%Q as Hm by (unfold Qlt; cbn; lia).
    generalize dependent (2 ^ e)%Q. generalize dependent (inject_Z m). intros. nra.
  - intros H. assert (0 <= inject_Z m)%Q as Hm by (unfold Qle; cbn; lia).
    generalize dependent (2 ^ e)%Q. generalize dependent (inject_Z m). intros. nra.
Qed.

(** Multiplying by [1.0] changes nothing. *)
Lemma mul_one a : in_range a → mul a one = a.
Proof.
  intros [-> | (Hm & He & Hf)]; [done|].
  unfold mul. rewrite Hf. cbn [andb]. change (finite one) with true. cbn [fm fe one].
  rewrite Z.mul_1_r, Z.add_0_r. destruct a as [m e]. by apply norm_id.
Qed.

(** An [int] of at most 53 bits is a float. *)
Lemma of_int_small n : Z.abs n < 2 ^ 53 → of_int n = mkF n 0.
Proof.
  intros Hn. unfold of_int. apply norm_id; [done|lia|]. by apply finite_small.
Qed.

(** Two pairs for the same number. *)
Lemma eqb_spec a b :
  eqb a b = true
  ↔ fm a * 2 ^ (fe a - Z.min (fe a) (fe b)) = fm b * 2 ^ (fe b - Z.min (fe a) (fe b)).
Proof. unfold eqb. apply Z.eqb_eq. Qed.

Lemma eqb_le a b :
  fe a ≤ fe b → (eqb a b = true ↔ fm a = fm b * 2 ^ (fe b - fe a)).
Proof.
  intros H. rewrite eqb_spec. rewrite Z.min_l by done.
  rewrite Z.sub_diag. cbn. lia.
Qed.

Lemma eqb_ge a b :
  fe b ≤ fe a → (eqb a b = true ↔ fm a * 2 ^ (fe a - fe b) = fm b).
Proof.
  intros H. rewrite eqb_spec. rewrite Z.min_r by done.
  rewrite Z.sub_diag. cbn. lia.
Qed.

Lemma pow2_pos n : 0 ≤ n → 0 < 2 ^ n.
Proof. intros. apply Z.pow_pos_nonneg; lia. Qed.

Lemma abs_scaled_lt k n j :
  0 ≤ n → 0 ≤ j → Z.abs k < 2 ^ j → Z.abs (k * 2 ^ n) < 2 ^ (j + n).
Proof.
  intros Hn Hj Hk. rewrite Z.abs_mul, Z.pow_add_r by done.
  pose proof (pow2_pos n Hn). rewrite (Z.abs_eq (2 ^ n)) by lia. nia.
Qed.

(** A number that holds in 53 bits, at an exponent of -1074 at least, is
    not changed by rounding. *)
Lemma round_representable M E k e :
  eqb (mkF M E) (mkF k e) = true → Z.abs k < 2 ^ 53 → -1074 ≤ e →
  eqb (round M E) (mkF k e) = true.
Proof.
  intros Heq Hk He.
  destruct (Z.le_gt_cases e E) as [HeE|HeE].
  - (* the pair has the larger exponent: its mantissa is the smaller *)
    apply eqb_ge in Heq; [|done]. cbn [fm fe] in Heq.
    pose proof (pow2_pos (E - e) ltac:(lia)).
    assert (Z.abs M < 2 ^ 53).
    { assert (Z.abs M ≤ Z.abs k); [|lia]. rewrite <- Heq, Z.abs_mul.
      rewrite (Z.abs_eq (2 ^ (E - e))) by lia. nia. }
    rewrite round_id by (try done; lia). by apply eqb_ge.
  - apply eqb_le in Heq; [|cbn; lia]. cbn [fm fe] in Heq.
    unfold round.
    set (s := Z.max (Z.max (bits M - 53) (-1074 - E)) 0).
    assert (Z.abs M < 2 ^ (53 + (e - E))) as HM.
    { rewrite Heq. apply abs_scaled_lt; [lia|lia|done]. }
    assert (bits M ≤ 53 + (e - E)) as Hb by (apply bits_le; [lia|done]).
    assert (0 ≤ s ≤ e - E) as Hs by lia.
    destruct (Z.eqb_spec s 0) as [Hs0|Hs0].
    { apply eqb_le; [cbn; lia|]. done. }
    assert (2 ^ (e - E) = 2 ^ (e - E - s) * 2 ^ s) as Hsplit.
    { rewrite <- Z.pow_add_r by lia. f_equal. lia. }
    pose proof (pow2_pos s ltac:(lia)) as Hps.
    assert (M = k * 2 ^ (e - E - s) * 2 ^ s) as HMs by (rewrite Heq, Hsplit; lia).
    assert (M / 2 ^ s = k * 2 ^ (e - E - s)) as Hq.
    { rewrite HMs. apply Z.div_mul. lia. }
    assert (M mod 2 ^ s = 0) as Hr.
    { rewrite HMs. apply Z.mod_mul. lia. }
    assert (round_shift M s = k * 2 ^ (e - E - s)) as Hrs.
    { unfold round_shift. rewrite Hr, Hq.
      pose proof (pow2_pos (s - 1) ltac:(lia)).
      destruct (Z.ltb_spec 0 (2 ^ (s - 1))); [done|lia]. }
    rewrite Hrs.
    assert (Z.abs (k * 2 ^ (e - E - s)) < 2 ^ 53) as Hlt.
    { assert (bits M - 53 ≤ s) by lia.
      assert (Z.abs M < 2 ^ (53 + s)) as HM' by (apply abs_lt_bits; lia).
      rewrite HMs in HM'. rewrite Z.abs_mul, (Z.abs_eq (2 ^ s)) in HM' by lia.
      rewrite Z.pow_add_r in HM' by lia. nia. }
    destruct (Z.eqb_spec (Z.abs (k * 2 ^ (e - E - s))) (2 ^ 53)); [lia|].
    apply eqb_le; [cbn; lia|]. cbn [fm fe]. f_equal. f_equal. lia.
Qed.

(** Such a number is finite. *)
Lemma finite_representable r k e :
  eqb r (mkF k e) = true → Z.abs (fm r) < 2 ^ 53 → Z.abs k < 2 ^ 53 → e ≤ 971 →
  finite r = true.
Proof.
  intros Heq Hr Hk He. unfold finite. apply orb_true_iff.
  destruct (decide (fm r = 0)) as [H0|H0]; [left; lia|right].
  apply Z.leb_le.
  destruct (Z.le_gt_cases (fe r) e) as [Hle|Hgt].
  - pose proof (bits_le (fm r) 53 ltac:(lia) Hr). lia.
  - apply eqb_ge in Heq; [|cbn; lia]. cbn [fm fe] in Heq.
    destruct (bits_spec (fm r) H0) as [Hlo _].
    pose proof (pow2_pos (fe r - e) ltac:(lia)) as Hp.
    assert (2 ^ (bits (fm r) - 1) * 2 ^ (fe r - e) < 2 ^ 53) as Hlt.
    { assert (Z.abs k = Z.abs (fm r) * 2 ^ (fe r - e)) as Hak.
      { rewrite <- Heq, Z.abs_mul. rewrite (Z.abs_eq (2 ^ (fe r - e))); lia. }
      nia. }
    pose proof (bits_nonneg (fm r)).
    assert (1 ≤ bits (fm r)).
    { unfold bits. destruct (Z.eqb_spec (fm r) 0); [done|].
      pose proof (Z.log2_nonneg (Z.abs (fm r))). lia. }
    rewrite <- Z.pow_add_r in Hlt by lia.
    apply Z.pow_lt_mono_r_iff in Hlt; lia.
Qed.

Lemma norm_representable M E k e :
  eqb (mkF M E) (mkF k e) = true → Z.abs k < 2 ^ 53 → -1074 ≤ e ≤ 971 →
  eqb (norm M E) (mkF k e) = true ∧ is_float (norm M E).
Proof.
  intros Heq Hk He.
  pose proof (round_representable M E k e Heq Hk ltac:(lia)) as Hr.
  destruct (round_bounds M E) as [Hm Hfe].
  pose proof (finite_representable _ k e Hr Hm Hk ltac:(lia)) as Hf.
  unfold norm. rewrite Hf. by repeat split.
Qed.

(** A product that holds in 53 bits is exact, whatever pairs its factors
    are given by. *)
Lemma mul_representable a b k e :
  finite a = true → finite b = true →
  eqb (mkF (fm a * fm b) (fe a + fe b)) (mkF k e) = true →
  Z.abs k < 2 ^ 53 → -1074 ≤ e ≤ 971 →
  eqb (mul a b) (mkF k e) = true ∧ is_float (mul a b).
Proof.
  intros Ha Hb Heq Hk He. unfold mul. rewrite Ha, Hb. cbn [andb].
  by apply norm_representable.
Qed.

Lemma eqb_scale c x m e :
  eqb x (mkF m e) = true → eqb (mkF (c * fm x) (0 + fe x)) (mkF (c * m) e) = true.
Proof.
  rewrite !eqb_spec. cbn [fm fe]. rewrite Z.add_0_l. intros H.
  rewrite <- !Z.mul_assoc. by rewrite H.
Qed.

Lemma eqb_not_inf m e : Z.abs m < 2 ^ 53 → e ≤ 971 → eqb inf (mkF m e) = false.
Proof.
  intros Hm He. destruct (eqb inf (mkF m e)) eqn:E; [|done].
  by pose proof (finite_representable inf m e E ltac:(by vm_compute) Hm He).
Qed.

(** Pairs for the same number have the same value. *)
Lemma eqb_value a b : eqb a b = true → (value a == value b)%Q.
Proof.
  rewrite eqb_spec. set (e0 := Z.min (fe a) (fe b)). intros H.
  assert (∀ m e, e0 ≤ e →
            (inject_Z m * 2 ^ e == inject_Z (m * 2 ^ (e - e0)) * 2 ^ e0)%Q) as Hsplit.
  { intros m e Hle. rewrite inject_Z_mult.
    rewrite (Zpower_Qpower 2 (e - e0)) by lia. change (inject_Z 2) with 2%Q.
    rewrite <- Qmult_assoc, <- Qpower_plus by done.
    by replace (e - e0 + e0) with e by lia. }
  unfold value. rewrite (Hsplit (fm a) (fe a)), (Hsplit (fm b) (fe b)) by lia.
  by rewrite H.
Qed.

Lemma value_eqb a b : (value a == value b)%Q → eqb a b = true.
Proof.
  rewrite eqb_spec. set (e0 := Z.min (fe a) (fe b)). intros H.
  assert (∀ m e, e0 ≤ e →
            (inject_Z m * 2 ^ e == inject_Z (m * 2 ^ (e - e0)) * 2 ^ e0)%Q) as Hsplit.
  { intros m e Hle. rewrite inject_Z_mult.
    rewrite (Zpower_Qpower 2 (e - e0)) by lia. change (inject_Z 2) with 2%Q.
    rewrite <- Qmult_assoc, <- Qpower_plus by done.
    by replace (e - e0 + e0) with e by lia. }
  unfold value in H.
  rewrite (Hsplit (fm a) (fe a)), (Hsplit (fm b) (fe b)) in H by lia.
  assert (0 < 2 ^ e0)%Q as Hp by (by apply Qpower_0_lt).
  apply Qmult_inj_r in H; [|intros E; rewrite E in Hp; by apply Qlt_irrefl in Hp].
  unfold Qeq in H. cbn in H. lia.
Qed.

Lemma eqb_refl a : eqb a a = true.
Proof. apply value_eqb. reflexivity. Qed.

Lemma eqb_sym a b : eqb a b = true → eqb b a = true.
Proof. intros H%eqb_value. apply value_eqb. by symmetry. Qed.

Lemma eqb_trans a b c : eqb a b = true → eqb b c = true → eqb a c = true.
Proof. intros H1%eqb_value H2%eqb_value. apply value_eqb. by rewrite H1. Qed.

Lemma value_mul a b :
  (value (mkF (fm a * fm b) (fe a + fe b)) == value a * value b)%Q.
Proof.
  unfold value. cbn [fm fe]. rewrite inject_Z_mult, Qpower_plus by done. ring.
Qed.

Lemma bits_scaled M d : M ≠ 0 → 0 ≤ d → bits (M * 2 ^ d) = bits M + d.
Proof.
  intros HM Hd. unfold bits. pose proof (pow2_pos d Hd).
  destruct (Z.eqb_spec (M * 2 ^ d) 0); [nia|].
  destruct (Z.eqb_spec M 0); [done|].
  rewrite Z.abs_mul, (Z.abs_eq (2 ^ d)) by lia.
  rewrite Z.log2_mul_pow2 by lia. lia.
Qed.

Lemma round_shift_scaled M s d :
  0 < s → 0 ≤ d → round_shift (M * 2 ^ d) (s + d) = round_shift M s.
Proof.
  intros Hs Hd. unfold round_shift.
  pose proof (pow2_pos d Hd) as Hpd. pose proof (pow2_pos s ltac:(lia)) as Hps.
  pose proof (pow2_pos (s - 1) ltac:(lia)) as Hph.
  rewrite (Z.pow_add_r 2 s d) by lia.
  rewrite Z.div_mul_cancel_r by lia.
  rewrite Z.mul_mod_distr_r by lia.
  replace (s + d - 1) with (s - 1 + d) by lia. rewrite (Z.pow_add_r 2 (s - 1) d) by lia.
  pose proof (Z.mod_pos_bound M (2 ^ s) Hps) as Hr.
  set (r := M mod 2 ^ s) in *. set (h := 2 ^ (s - 1)) in *. set (c := 2 ^ d) in *.
  destruct (Z.ltb_spec r h), (Z.ltb_spec (r * c) (h * c)); try nia; try done.
  destruct (Z.ltb_spec h r), (Z.ltb_spec (h * c) (r * c)); try nia; done.
Qed.

Lemma round_shift_divisible K s :
  0 < s → round_shift (K * 2 ^ s) s = K.
Proof.
  intros Hs. unfold round_shift. pose proof (pow2_pos s ltac:(lia)).
  pose proof (pow2_pos (s - 1) ltac:(lia)).
  rewrite Z.div_mul, Z.mod_mul by lia.
  destruct (Z.ltb_spec 0 (2 ^ (s - 1))); [done|lia].
Qed.

Lemma round_zero E : fm (round 0 E) = 0.
Proof.
  unfold round. set (s := Z.max (Z.max (bits 0 - 53) (-1074 - E)) 0).
  destruct (Z.eqb_spec s 0) as [|Hs]; [done|].
  assert (round_shift 0 s = 0) as ->.
  { rewrite <- (Z.mul_0_l (2 ^ s)). apply round_shift_divisible. lia. }
  done.
Qed.

(** Rounding depends on the number, not on the pair that gives it. *)
Lemma round_scaled M E d :
  0 ≤ d → eqb (round (M * 2 ^ d) (E - d)) (round M E) = true.
Proof.
  intros Hd. pose proof (pow2_pos d Hd) as Hpd.
  destruct (decide (M = 0)) as [->|HM].
  { rewrite Z.mul_0_l. apply eqb_spec. rewrite !round_zero. lia. }
  unfold round. rewrite bits_scaled by done.
  set (t := Z.max (bits M - 53) (-1074 - E)).
  replace (Z.max (bits M + d - 53) (-1074 - (E - d))) with (t + d) by lia.
  destruct (Z.le_gt_cases 0 t) as [Ht|Ht].
  - rewrite (Z.max_l t 0), (Z.max_l (t + d) 0) by lia.
    destruct (Z.eqb_spec t 0) as [Ht0|Ht0].
    + (* no shift on the right *)
      rewrite Ht0, Z.add_0_l.
      destruct (Z.eqb_spec d 0) as [->|Hd0].
      { rewrite Z.mul_1_r, Z.sub_0_r. apply eqb_refl. }
      rewrite round_shift_divisible by lia.
      assert (Z.abs M < 2 ^ 53) by (apply abs_lt_bits; lia).
      destruct (Z.eqb_spec (Z.abs M) (2 ^ 53)); [lia|].
      replace (E - d + d) with E by lia. apply eqb_refl.
    + destruct (Z.eqb_spec (t + d) 0); [lia|].
      rewrite round_shift_scaled by lia.
      replace (E - d + (t + d)) with (E + t) by lia.
      replace (E - d + (t + d) + 1) with (E + t + 1) by lia.
      apply eqb_refl.
  - rewrite (Z.max_r t 0) by lia. cbn [Z.eqb].
    assert (Z.abs M < 2 ^ 53) as HM53 by (apply abs_lt_bits; lia).
    destruct (Z.le_gt_cases (t + d) 0) as [Htd|Htd].
    + rewrite (Z.max_r (t + d) 0) by lia. cbn [Z.eqb].
      apply eqb_le; [cbn; lia|]. cbn [fm fe]. f_equal. f_equal. lia.
    + rewrite (Z.max_l (t + d) 0) by lia.
      destruct (Z.eqb_spec (t + d) 0); [lia|].
      assert (M * 2 ^ d = M * 2 ^ (- t) * 2 ^ (t + d)) as ->.
      { rewrite <- Z.mul_assoc, <- Z.pow_add_r by lia. f_equal. f_equal. lia. }
      rewrite round_shift_divisible by lia.
      assert (Z.abs (M * 2 ^ (- t)) < 2 ^ 53) as Hlt.
      { apply abs_lt_bits. rewrite bits_scaled by (try done; lia). lia. }
      destruct (Z.eqb_spec (Z.abs (M * 2 ^ (- t))) (2 ^ 53)); [lia|].
      apply eqb_le; [cbn; lia|]. cbn [fm fe]. f_equal. f_equal. lia.
Qed.

Lemma round_proper a b :
  eqb a b = true → eqb (round (fm a) (fe a)) (round (fm b) (fe b)) = true.
Proof.
  assert (∀ a b, fe a ≤ fe b → eqb a b = true →
                 eqb (round (fm a) (fe a)) (round (fm b) (fe b)) = true) as Hle.
  { intros a' b' Hfe Heq. apply eqb_le in Heq; [|done]. rewrite Heq.
    replace (fe a') with (fe b' - (fe b' - fe a')) at 2 by lia.
    apply round_scaled. lia. }
  intros Heq. destruct (Z.le_gt_cases (fe a) (fe b)) as [H|H]; [by apply Hle|].
  apply eqb_sym, Hle; [lia | by apply eqb_sym].
Qed.

Lemma finite_proper a b : eqb a b = true → finite a = finite b.
Proof.
  assert (∀ a b, fe a ≤ fe b → eqb a b = true → finite a = finite b) as Hle.
  { intros a' b' Hfe Heq. apply eqb_le in Heq; [|done]. unfold finite.
    pose proof (pow2_pos (fe b' - fe a') ltac:(lia)).
    destruct (decide (fm b' = 0)) as [H0|H0].
    - rewrite Heq, H0. done.
    - rewrite Heq, bits_scaled by (try done; lia).
      destruct (Z.eqb_spec (fm b' * 2 ^ (fe b' - fe a')) 0); [nia|].
      destruct (Z.eqb_spec (fm b') 0); [done|]. cbn [orb].
      f_equal. lia. }
  intros Heq. destruct (Z.le_gt_cases (fe a) (fe b)) as [H|H]; [by apply Hle|].
  symmetry. apply Hle; [lia | by apply eqb_sym].
Qed.

Lemma norm_proper a b :
  eqb a b = true → eqb (norm (fm a) (fe a)) (norm (fm b) (fe b)) = true.
Proof.
  intros Heq. pose proof (round_proper a b Heq) as Hr.
  unfold norm. rewrite (finite_proper _ _ Hr).
  case_match; [done | apply eqb_refl].
Qed.

(** The product depends on the numbers multiplied, not on the pairs that
    give them. *)
Lemma mul_proper a a' b b' :
  eqb a a' = true → eqb b b' = true → eqb (mul a b) (mul a' b') = true.
Proof.
  intros Ha Hb. unfold mul.
  rewrite (finite_proper _ _ Ha), (finite_proper _ _ Hb).
  case_match; [|apply eqb_refl].
  apply (norm_proper (mkF (fm a * fm b) (fe a + fe b))
           (mkF (fm a' * fm b') (fe a' + fe b'))).
  apply value_eqb. rewrite !value_mul.
  by rewrite (eqb_value _ _ Ha), (eqb_value _ _ Hb).
Qed.
(** A product whose pair holds in 53 bits is that pair. *)
Lemma mul_exact a b :
  finite a = true → finite b = true →
  Z.abs (fm a * fm b) < 2 ^ 53 → -1074 ≤ fe a + fe b ≤ 971 →
  mul a b = mkF (fm a * fm b) (fe a + fe b).
Proof.
  intros Ha Hb Hm He. unfold mul. rewrite Ha, Hb. cbn [andb].
  apply norm_id; [done|lia|]. apply finite_small; [done|lia].
Qed.

End FloatFacts.

(** ** Score calculation *)

Module ScoreFacts.

Import HandEvaluator Scenarios.

(** [int(x)] is the floor of a non-negative [x] and the ceiling of a
    negative one. *)
Lemma Qtrunc_nonneg x : (0 <= x)%Q → Qtrunc x = Qfloor x.
Proof.
  destruct x as [n d]. unfold Qle; cbn. intros H.
  unfold Qtrunc; cbn. apply Z.quot_div_nonneg; lia.
Qed.

Lemma Qtrunc_neg x : (x <= 0)%Q → Qtrunc x = Qceiling x.
Proof.
  destruct x as [n d]. unfold Qle; cbn. intros H.
  unfold Qtrunc, Qceiling, Qfloor; cbn.
  replace n with (- - n) at 1 by lia.
  rewrite Z.quot_opp_l by lia. f_equal. apply Z.quot_div_nonneg; lia.
Qed.

#[local] Instance Qtrunc_proper : Proper (Qeq ==> eq) Qtrunc.
Proof.
  intros x y Hxy. destruct (Qlt_le_dec x 0) as [Hx|Hx].
  - rewrite !Qtrunc_neg; [by rewrite Hxy | rewrite <- Hxy | ]; by apply Qlt_le_weak.
  - rewrite !Qtrunc_nonneg; [by rewrite Hxy | by rewrite <- Hxy | done].
Qed.

(** [int()] of a float is the truncation of its value. *)
Lemma to_int_value a : PyFloat.to_int a = Qtrunc (PyFloat.value a).
Proof.
  destruct a as [m e]. unfold PyFloat.to_int, PyFloat.value. cbn [fm fe].
  destruct (Z.leb_spec 0 e) as [He|He].
  - assert (2 ^ e == inject_Z (2 ^ e))%Q as Hp.
    { symmetry. change 2%Q with (inject_Z 2). by apply Zpower_Qpower. }
    assert (inject_Z m * 2 ^ e == inject_Z (m * 2 ^ e))%Q as Hv.
    { rewrite Hp. by rewrite inject_Z_mult. }
    rewrite (Qtrunc_proper _ _ Hv).
    unfold Qtrunc, inject_Z. cbn. by rewrite Z.quot_1_r.
  - assert (0 < 2 ^ (- e)) as Hpos by (apply Z.pow_pos_nonneg; lia).
    assert (inject_Z m * 2 ^ e == m # Z.to_pos (2 ^ (- e)))%Q as Hv.
    { replace e with (- - e) at 1 by lia. rewrite Qpower_opp.
      assert (2 ^ (- e) == inject_Z (2 ^ (- e)))%Q as ->.
      { symmetry. change 2%Q with (inject_Z 2). apply Zpower_Qpower. lia. }
      rewrite (Qmake_Qdiv m). rewrite Z2Pos.id by done. reflexivity. }
    rewrite (Qtrunc_proper _ _ Hv). unfold Qtrunc. cbn. by rewrite Z2Pos.id.
Qed.

Lemma chip_value_nonneg c : 0 ≤ chip_value c.
Proof.
  unfold chip_value. repeat case_decide; repeat case_match; lia.
Qed.

(** The float accumulator is a float, or [inf], through both loops. *)
Lemma score_card_in_range acc c :
  PyFloat.in_range acc.2 → PyFloat.in_range (score_card acc c).2.
Proof.
  destruct acc as [[chips mult] x]. cbn. intros Hx. unfold score_card.
  repeat case_decide; cbn; try done; apply FloatFacts.mul_in_range.
Qed.

Lemma _apply_joker_in_range j cards ht sc gs :
  PyFloat.in_range (_apply_joker j cards ht sc gs).2.
Proof.
  unfold _apply_joker. repeat case_match; cbn;
    first [apply FloatFacts.mul_in_range | apply FloatFacts.one_in_range].
Qed.

Lemma score_joker_in_range cards ht sc gs acc j :
  PyFloat.in_range (score_joker cards ht sc gs acc j).2.
Proof.
  destruct acc as [[chips mult] x]. unfold score_joker.
  destruct (_apply_joker j cards ht sc gs) as [[jc jm] jx].
  destruct (joker_edition j); cbn; apply FloatFacts.mul_in_range.
Qed.

Lemma fold_score_card_in_range cs acc :
  PyFloat.in_range acc.2 → PyFloat.in_range (fold_left score_card cs acc).2.
Proof.
  revert acc. induction cs as [|c cs IH]; intros acc H; [done|].
  cbn. apply IH. by apply score_card_in_range.
Qed.

Lemma fold_score_joker_in_range cards ht sc gs js acc :
  PyFloat.in_range acc.2 →
  PyFloat.in_range (fold_left (score_joker cards ht sc gs) js acc).2.
Proof.
  revert acc. induction js as [|j js IH]; intros acc H; [done|].
  cbn. apply IH. apply score_joker_in_range.
Qed.


(** The three accumulators stay non-negative through both loops. *)
Definition nonneg_acc (acc : Z * Z * pyfloat) : Prop :=
  0 ≤ acc.1.1 ∧ 0 ≤ acc.1.2 ∧ 0 ≤ fm acc.2.

Lemma score_card_nonneg acc c : nonneg_acc acc → nonneg_acc (score_card acc c).
Proof.
  destruct acc as [[chips mult] x]. intros (Hc & Hm & Hx); cbn in *.
  pose proof (chip_value_nonneg c).
  unfold score_card, nonneg_acc.
  repeat case_decide; cbn; split_and!; try lia;
    repeat (apply FloatFacts.mul_nonneg); try done; by vm_compute.
Qed.

Lemma _apply_joker_nonneg j cards ht sc gs :
  0 ≤ flat_chips (effect j) → 0 ≤ flat_mult (effect j) →
  (0 <= PyFloat.value (x_mult (effect j)))%Q →
  nonneg_acc (_apply_joker j cards ht sc gs).
Proof.
  intros Hc Hm Hx%FloatFacts.value_nonneg. unfold _apply_joker, nonneg_acc.
  repeat case_match; cbn; split_and!; try lia; try done.
  all: by apply FloatFacts.mul_nonneg.
Qed.

Lemma score_joker_nonneg cards ht sc gs acc j :
  0 ≤ flat_chips (effect j) → 0 ≤ flat_mult (effect j) →
  (0 <= PyFloat.value (x_mult (effect j)))%Q →
  nonneg_acc acc → nonneg_acc (score_joker cards ht sc gs acc j).
Proof.
  intros Hc Hm Hx. destruct acc as [[chips mult] x]. intros (Hc' & Hm' & Hx').
  pose proof (_apply_joker_nonneg j cards ht sc gs Hc Hm Hx) as Hj.
  unfold score_joker.
  destruct (_apply_joker j cards ht sc gs) as [[jc jm] jx].
  destruct Hj as (? & ? & ?); cbn in *.
  unfold nonneg_acc.
  destruct (joker_edition j); cbn; split_and!; try lia;
    repeat (apply FloatFacts.mul_nonneg); try done; by vm_compute.
Qed.

Lemma fold_score_card_nonneg cs acc :
  nonneg_acc acc → nonneg_acc (fold_left score_card cs acc).
Proof.
  revert acc. induction cs as [|c cs IH]; intros acc H; [done|].
  cbn. apply IH. by apply score_card_nonneg.
Qed.

Lemma fold_score_joker_nonneg cards ht sc gs js acc :
  (∀ j, j ∈ js →
     0 ≤ flat_chips (effect j) ∧ 0 ≤ flat_mult (effect j)
     ∧ (0 <= PyFloat.value (x_mult (effect j)))%Q) →
  nonneg_acc acc → nonneg_acc (fold_left (score_joker cards ht sc gs) js acc).
Proof.
  revert acc. induction js as [|j js IH]; intros acc Hjs H; [done|].
  cbn. apply IH.
  - intros j' Hj'. apply Hjs. by right.
  - destruct (Hjs j) as (? & ? & ?); [by left|]. by apply score_joker_nonneg.
Qed.

Lemma score_totals_nonneg cards gs :
  nonneg_state gs → nonneg_acc (score_totals cards gs).
Proof.
  intros [Hlv Hjs]. unfold score_totals.
  destruct (get_hand_type cards) as [ht sc].
  apply fold_score_joker_nonneg; [done|].
  apply fold_score_card_nonneg.
  assert (1 ≤ level (get_hand_level gs ht)) as Hl.
  { unfold get_hand_level; cbn. destruct (hand_levels gs !! ht) eqn:E; cbn; [|lia].
    by eapply Hlv. }
  unfold nonneg_acc, HandLevel_chips, HandLevel_mult.
  replace (hl_hand_type (get_hand_level gs ht)) with ht by done.
  generalize dependent (level (get_hand_level gs ht)). intros l Hl.
  cbn [fst snd].
  split_and!; [destruct ht; cbn; lia | destruct ht; cbn; lia | done].
Qed.

(** The product of non-negative chips, mult and multiplier. *)
Lemma final_score_nonneg chips mult x :
  0 ≤ chips → 0 ≤ mult → 0 ≤ fm x →
  0 ≤ PyFloat.to_int
        (PyFloat.mul (PyFloat.of_int chips) (PyFloat.mul (PyFloat.of_int mult) x)).
Proof.
  intros Hc Hm Hx.
  apply FloatFacts.to_int_nonneg, FloatFacts.mul_nonneg;
    [by apply FloatFacts.of_int_nonneg|].
  apply FloatFacts.mul_nonneg; [by apply FloatFacts.of_int_nonneg | done].
Qed.

(** The score depends on the number that [x_mult] is. *)
Lemma final_score_proper chips mult x x' :
  PyFloat.eqb x x' = true →
  PyFloat.to_int
    (PyFloat.mul (PyFloat.of_int chips) (PyFloat.mul (PyFloat.of_int mult) x))
  = PyFloat.to_int
      (PyFloat.mul (PyFloat.of_int chips) (PyFloat.mul (PyFloat.of_int mult) x'))
  ∧ PyFloat.to_int (PyFloat.mul (PyFloat.of_int mult) x)
    = PyFloat.to_int (PyFloat.mul (PyFloat.of_int mult) x').
Proof.
  intros Hx.
  pose proof (FloatFacts.mul_proper _ _ _ _
                (FloatFacts.eqb_refl (PyFloat.of_int mult)) Hx) as Hq.
  pose proof (FloatFacts.mul_proper _ _ _ _
                (FloatFacts.eqb_refl (PyFloat.of_int chips)) Hq) as Hp.
  rewrite !to_int_value.
  split; apply Qtrunc_proper; by apply FloatFacts.eqb_value.
Qed.

(** The two products of an exact state are the exact ones. *)
Lemma exact_products_values chips mult x :
  PyFloat.in_range x → exact_products chips mult x →
  (PyFloat.value (PyFloat.mul (PyFloat.of_int mult) x)
   == inject_Z mult * PyFloat.value x)%Q
  ∧ (PyFloat.value
       (PyFloat.mul (PyFloat.of_int chips) (PyFloat.mul (PyFloat.of_int mult) x))
     == inject_Z chips * inject_Z mult * PyFloat.value x)%Q.
Proof.
  intros Hr (m & e & Hx & Hm53 & Hc & Hm & Hmx & Hcmx & He).
  assert (PyFloat.is_float x) as (Hfm & Hfe & Hfin).
  { destruct Hr as [-> | H]; [|done].
    rewrite FloatFacts.eqb_not_inf in Hx; [done|done|lia]. }
  rewrite !FloatFacts.of_int_small by done.
  destruct (FloatFacts.mul_representable (mkF mult 0) x (mult * m) e)
    as [Hq Hqf]; [by apply FloatFacts.finite_small|done| |done|done|].
  { by apply (FloatFacts.eqb_scale mult x m e). }
  destruct Hqf as (_ & _ & Hqfin).
  destruct (FloatFacts.mul_representable (mkF chips 0)
              (PyFloat.mul (mkF mult 0) x) (chips * (mult * m)) e)
    as [Hp _]; [by apply FloatFacts.finite_small|done| |done|done|].
  { by apply (FloatFacts.eqb_scale chips _ (mult * m) e). }
  apply FloatFacts.eqb_value in Hx, Hq, Hp.
  rewrite Hq, Hp, Hx. unfold PyFloat.value. cbn [fm fe].
  rewrite !inject_Z_mult. generalize (2 ^ e)%Q. intros. split; ring.
Qed.

(** Without a multiplier the score is the product of chips and mult, as
    long as it holds in 53 bits. *)
Lemma exact_score_no_multiplier chips mult :
  Z.abs chips < 2 ^ 53 → Z.abs mult < 2 ^ 53 → Z.abs (chips * mult) < 2 ^ 53 →
  PyFloat.to_int
    (PyFloat.mul (PyFloat.of_int chips)
       (PyFloat.mul (PyFloat.of_int mult) PyFloat.one))
  = chips * mult.
Proof.
  intros Hc Hm Hcm.
  destruct (exact_products_values chips mult PyFloat.one FloatFacts.one_in_range)
    as [_ Hp].
  - exists 1, 0. rewrite !Z.mul_1_r. split_and!; [done|done|done..|lia|lia].
  - rewrite to_int_value, (Qtrunc_proper _ _ Hp).
    assert (inject_Z chips * inject_Z mult * PyFloat.value PyFloat.one
            == inject_Z (chips * mult))%Q as Hv.
    { rewrite inject_Z_mult. unfold PyFloat.value. cbn. ring. }
    rewrite (Qtrunc_proper _ _ Hv). unfold Qtrunc, inject_Z. cbn.
    apply Z.quot_1_r.
Qed.



(** A product that is rounded: on three tens (60 chips, 3 mult) under a
    joker that multiplies by 1.2, [3 * 1.2] is the float
    3.5999999999999996 and 60 times that is truncated to 215. *)
Lemma rounded_score_example :
  calculate_score three_tens (with_jokers [times_joker float_1_2] scenario_state)
  = (215, THREE_OF_A_KIND, 60, 3).
Proof. reflexivity. Qed.


End ScoreFacts.

(** ** Stable sorting *)

Section StableSort.

Context {A : Type} (key : A → Z).

#[local] Abbreviation before := (by_key_desc key).

Lemma sort_insert_perm (bf : A → A → bool) x l : sort_insert bf x l ≡ₚ x :: l.
Proof.
  induction l as [|y l IH]; [done|]. cbn. destruct (bf y x); [|done].
  rewrite IH. apply Permutation_swap.
Qed.

Lemma stable_sort_perm (bf : A → A → bool) l : stable_sort bf l ≡ₚ l.
Proof.
  induction l as [|x l IH]; [done|]. cbn.
  rewrite sort_insert_perm. by rewrite IH.
Qed.

Lemma sort_insert_sorted x l :
  StronglySorted (λ a b, key b ≤ key a) l →
  StronglySorted (λ a b, key b ≤ key a) (sort_insert before x l).
Proof.
  induction 1 as [|y l Hl IH Hy]; cbn.
  - repeat constructor.
  - unfold before at 1. destruct (Z.gtb_spec (key y) (key x)) as [Hgt|Hle].
    + constructor; [done|]. rewrite sort_insert_perm.
      constructor; [lia | done].
    + constructor; [by constructor|].
      constructor; [lia|]. eapply Forall_impl; [exact Hy|]. cbn. lia.
Qed.

Lemma stable_sort_sorted l :
  StronglySorted (λ a b, key b ≤ key a) (stable_sort before l).
Proof.
  induction l as [|x l IH]; cbn; [constructor | by apply sort_insert_sorted].
Qed.



#[local] Abbreviation first_max_at := (first_max_split key).

Lemma first_max_exists l :
  l ≠ [] → ∃ l1 a l2, l = l1 ++ a :: l2 ∧ first_max_at l1 a l2.
Proof.
  induction l as [|x l IH]; [done|]. intros _.
  destruct l as [|y l].
  { exists [], x, []. by repeat split. }
  destruct IH as (l1 & a & l2 & Hl & H1 & H2); [done|].
  destruct (Z.lt_ge_cases (key x) (key a)) as [Hlt|Hge].
  - exists (x :: l1), a, l2. rewrite Hl. repeat split; [|done].
    by constructor.
  - exists [], x, (y :: l). repeat split; [constructor|].
    rewrite Hl. apply Forall_app. split.
    + eapply Forall_impl; [exact H1|]. cbn. lia.
    + constructor; [lia|]. eapply Forall_impl; [exact H2|]. cbn. lia.
Qed.

Lemma first_max_key l1 a l2 x :
  first_max_at l1 a l2 → x ∈ l1 ++ a :: l2 → key x ≤ key a.
Proof.
  intros [H1 H2] Hx. apply elem_of_app in Hx as [Hx|Hx].
  - rewrite Forall_forall in H1. specialize (H1 x Hx). lia.
  - apply elem_of_cons in Hx as [->|Hx]; [lia|].
    rewrite Forall_forall in H2. by apply H2.
Qed.

(** The sorted list starts with the first element of maximal key. *)
Lemma stable_sort_head l1 a l2 :
  first_max_at l1 a l2 →
  ∃ tl, stable_sort before (l1 ++ a :: l2) = a :: tl.
Proof.
  intros [H1 H2]. induction H1 as [|x l1 Hx H1 IH].
  - cbn [app stable_sort foldr]. fold (stable_sort before l2).
    destruct (stable_sort before l2) as [|y tl] eqn:E; [by eexists|].
    cbn. unfold before at 1.
    destruct (Z.gtb_spec (key y) (key a)) as [Hgt|Hle]; [|by eexists].
    assert (y ∈ l2) as Hy.
    { rewrite <- (stable_sort_perm before l2), E. by left. }
    rewrite Forall_forall in H2. specialize (H2 y Hy). lia.
  - destruct IH as [tl IH]. cbn [app stable_sort foldr].
    fold (stable_sort before (l1 ++ a :: l2)). rewrite IH. cbn.
    unfold before at 1.
    destruct (Z.gtb_spec (key a) (key x)) as [Hgt|Hle]; [by eexists | lia].
Qed.

(** A scan that keeps the first strictly better element, as the loop of
    [find_best_play] does. *)
Context {B : Type} (g : A → B).

#[local] Abbreviation step := (keep_first_better key g).

Lemma scan_no_better l best :
  Forall (λ x, key x ≤ fst best) l → fold_left step l best = best.
Proof.
  revert best. induction l as [|x l IH]; intros best H; [done|].
  apply Forall_cons in H as [Hx H]. cbn. unfold step at 2.
  destruct (Z.ltb_spec (fst best) (key x)); [lia|]. by apply IH.
Qed.

Lemma scan_below l best k :
  fst best < k → Forall (λ x, key x < k) l → fst (fold_left step l best) < k.
Proof.
  revert best. induction l as [|x l IH]; intros best Hb H; [done|].
  apply Forall_cons in H as [Hx H]. cbn. apply IH; [|done].
  unfold step. by destruct (Z.ltb_spec (fst best) (key x)).
Qed.

Lemma scan_first_max l1 a l2 best :
  first_max_at l1 a l2 → fst best < key a →
  fold_left step (l1 ++ a :: l2) best = (key a, Some (g a)).
Proof.
  intros [H1 H2] Hb. rewrite fold_left_app. cbn [fold_left].
  pose proof (scan_below l1 best (key a) Hb H1) as Hlt.
  unfold step at 2. destruct (Z.ltb_spec (fst (fold_left step l1 best)) (key a)); [|lia].
  by apply scan_no_better.
Qed.

End StableSort.

(** ** All plays and the best play *)

Module AllPlaysFacts.

Import HandEvaluator Optimizer Scenarios.

Lemma combinations_map {A B} (f : A → B) l k :
  combinations (map f l) k = map (map f) (combinations l k).
Proof.
  revert k. induction l as [|x l IH]; intros [|k]; try done.
  cbn. rewrite !IH, map_app, !map_map. done.
Qed.

Lemma enumerate_plays_map {A B} (f : A → B) l :
  enumerate_plays (map f l) = map (map f) (enumerate_plays l).
Proof.
  unfold enumerate_plays. rewrite length_map.
  induction (seq 1 (Nat.min 5 (length l))) as [|k ks IH]; [done|].
  cbn. by rewrite map_app, IH, combinations_map.
Qed.

Lemma snd_indexed hand : map snd (indexed hand) = hand.
Proof. unfold indexed. apply snd_zip. by rewrite length_seq. Qed.

(** Every combination is a sublist of the given size, and conversely. *)
Lemma combinations_sublist {A} (l cs : list A) k :
  cs ∈ combinations l k ↔ sublist cs l ∧ length cs = k.
Proof.
  revert cs k. induction l as [|x l IH]; intros cs [|k].
  - cbn. rewrite list_elem_of_singleton. split.
    + intros ->. split; [constructor | done].
    + intros [_ H]. by apply nil_length_inv.
  - cbn. split; [by intros ?%elem_of_nil|].
    intros [H%sublist_nil_r Hl]. by subst.
  - cbn. rewrite list_elem_of_singleton. split.
    + intros ->. split; [apply sublist_nil_l | done].
    + intros [_ H]. by apply nil_length_inv.
  - cbn. rewrite elem_of_app, list_elem_of_fmap. setoid_rewrite IH. split.
    + intros [(cs' & -> & Hs & Hl)|[Hs Hl]].
      * split; [by constructor | cbn; lia].
      * split; [by constructor | done].
    + intros [Hs Hl]. apply sublist_cons_r in Hs as [Hs|(cs' & -> & Hs)].
      * by right.
      * left. exists cs'. cbn in Hl. split_and!; [done | done | lia].
Qed.

Lemma enumerate_plays_spec {A} (l cs : list A) :
  cs ∈ enumerate_plays l
  ↔ sublist cs l ∧ (1 ≤ length cs ≤ Nat.min 5 (length l))%nat.
Proof.
  unfold enumerate_plays. rewrite list_elem_of_In, in_flat_map. split.
  - intros (k & Hk & Hcs). apply in_seq in Hk.
    apply list_elem_of_In, combinations_sublist in Hcs as [Hs Hl].
    split; [done | lia].
  - intros [Hs Hl]. exists (length cs). split; [apply in_seq; lia|].
    apply list_elem_of_In, combinations_sublist. done.
Qed.




(** The two loops of [find_best_play] keep the first play of maximal
    score, the one that the stable sort of [find_all_plays] puts first. *)
Lemma best_play_is_first_sorted st :
  (∃ a, a ∈ all_plays st ∧ 0 ≤ expected_score a) →
  ∃ a tl, sorted_plays st = a :: tl ∧ find_best_play st = Some a.
Proof.
  intros (a0 & Ha0 & Hpos).
  set (G := λ combo : list (nat * Card), play_action (map snd combo) st).
  set (combos := enumerate_plays (indexed (hand st))).
  assert (all_plays st = map G combos) as Hall by done.
  destruct (first_max_exists (λ combo, expected_score (G combo)) combos)
    as (c1 & c & c2 & Hsplit & Hmax).
  { intros E. rewrite Hall, E in Ha0. by apply elem_of_nil in Ha0. }
  assert (first_max_split expected_score (map G c1) (G c) (map G c2)) as Hmax'.
  { destruct Hmax as [H1 H2]. split; by apply Forall_map. }
  assert (all_plays st = map G c1 ++ G c :: map G c2) as Hall'.
  { by rewrite Hall, Hsplit, map_app. }
  destruct (stable_sort_head expected_score _ _ _ Hmax') as [tl Htl].
  exists (G c), tl. split.
  { unfold sorted_plays. by rewrite Hall'. }
  assert (0 ≤ expected_score (G c)) as Hc.
  { rewrite Hall' in Ha0.
    pose proof (first_max_key expected_score _ _ _ _ Hmax' Ha0). lia. }
  assert (hand st ≠ []) as Hne.
  { intros E. subst combos. rewrite E in Hsplit. by destruct c1. }
  unfold find_best_play, find_best_play_ids.
  destruct (Z.eqb_spec (len (hand st)) 0) as [E|_].
  { destruct (hand st); [done | unfold len in E; cbn in E; lia]. }
  unfold best_scan. fold combos. rewrite Hsplit.
  assert (fold_left (best_step st) (c1 ++ c :: c2) (-1, None)
          = (expected_score (G c), Some (map fst c, G c))) as ->; [|done].
  apply (scan_first_max (λ combo, expected_score (G combo))
           (λ combo, (map fst combo, G combo)) c1 c c2 (-1, None) Hmax).
  cbn. lia.
Qed.




(** When every candidate scores below zero, [find_best_play] returns
    [None] while [find_all_plays(1)] still returns a play. *)
Example find_best_play_none_below_zero :
  let st := state_with [card 2 SPADES]
              [mkJoker "Debt" "common" ED_NONE (with_flat_mult (-5) JokerEffect_default)]
              4 3 300 0 in
  find_best_play st = None
  ∧ map expected_score (find_all_plays st 1) = [-28].
Proof. split; vm_compute; reflexivity. Qed.

(** Under levels of at least 1 and jokers that take nothing away, every
    play of a non-empty hand has a non-negative score. *)
Lemma nonneg_state_has_play st :
  hand st ≠ [] → nonneg_state st →
  ∃ a, a ∈ all_plays st ∧ 0 ≤ expected_score a.
Proof.
  intros Hne Hst. destruct (hand st) as [|c cs] eqn:E; [done|].
  exists (play_action [c] st). split.
  - unfold all_plays. apply list_elem_of_fmap.
    assert ([c] ∈ enumerate_plays (hand st)) as Hc.
    { apply enumerate_plays_spec. rewrite E. split.
      - apply sublist_skip, sublist_nil_l.
      - cbn. lia. }
    rewrite <- (snd_indexed (hand st)), enumerate_plays_map in Hc.
    apply list_elem_of_fmap in Hc as (combo & Hcombo & Hin).
    exists combo. by rewrite <- Hcombo.
  - unfold play_action.
    pose proof (ScoreFacts.score_totals_nonneg [c] st Hst) as Hn.
    unfold calculate_score.
    destruct (score_totals [c] st) as [[chips mult] x]. cbn.
    destruct Hn as (Hc & Hm & Hx); cbn in *.
    by apply ScoreFacts.final_score_nonneg.
Qed.

End AllPlaysFacts.

(** ** The simulation and the caller's state *)

Module HeapFacts.

Import Optimizer Strategist Scenarios.

Lemma touches_only_refl sim h : touches_only sim h h.
Proof. by repeat split. Qed.

Lemma touches_only_trans sim h1 h2 h3 :
  touches_only sim h1 h2 → touches_only sim h2 h3 → touches_only sim h1 h3.
Proof.
  intros (L1 & O1 & H1) (L2 & O2 & H2). split_and!.
  - intros l Hl. rewrite L2, L1; [done..|]. by rewrite H1.
  - intros l Hl. by rewrite O2, O1.
  - by rewrite H2.
Qed.

Lemma read_obj_insert l o (h : Heap) ls :
  read_obj (mkHeap ls (<[l := o]> (objs h))) l = o.
Proof. unfold read_obj; cbn. by rewrite lookup_total_insert_eq. Qed.

Lemma dec_hands_remaining_touches sim h :
  touches_only sim h (dec_hands_remaining sim h).
Proof.
  unfold dec_hands_remaining. split_and!.
  - done.
  - intros l Hl. cbn. by rewrite lookup_insert_ne.
  - by rewrite read_obj_insert.
Qed.

Lemma dec_discards_remaining_touches sim h :
  touches_only sim h (dec_discards_remaining sim h).
Proof.
  unfold dec_discards_remaining. split_and!.
  - done.
  - intros l Hl. cbn. by rewrite lookup_insert_ne.
  - by rewrite read_obj_insert.
Qed.

Lemma hand_remove_objs sim c h : objs (hand_remove sim c h) = objs h.
Proof. unfold hand_remove. by case_match. Qed.

Lemma hand_remove_touches sim c h : touches_only sim h (hand_remove sim c h).
Proof.
  split_and!.
  - intros l Hl. unfold hand_remove. case_match; [|done].
    cbn. by rewrite lookup_insert_ne.
  - intros l _. by rewrite hand_remove_objs.
  - unfold read_obj. by rewrite hand_remove_objs.
Qed.

Lemma hand_remove_all_objs sim cs h : objs (hand_remove_all sim cs h) = objs h.
Proof.
  revert h. induction cs as [|c cs IH]; intros h; [done|].
  cbn. fold (hand_remove_all sim cs (hand_remove sim c h)).
  by rewrite IH, hand_remove_objs.
Qed.

Lemma hand_remove_all_touches sim cs h :
  touches_only sim h (hand_remove_all sim cs h).
Proof.
  revert h. induction cs as [|c cs IH]; intros h; [apply touches_only_refl|].
  cbn. fold (hand_remove_all sim cs (hand_remove sim c h)).
  eapply touches_only_trans; [apply hand_remove_touches | apply IH].
Qed.

Lemma play_branch_touches sim a s t h :
  touches_only sim h (play_branch sim a s t h).2.
Proof.
  unfold play_branch; cbn.
  eapply touches_only_trans;
    [apply dec_hands_remaining_touches | apply hand_remove_all_touches].
Qed.

Lemma discard_branch_touches sim a s h :
  touches_only sim h (discard_branch sim a s h).2.
Proof.
  unfold discard_branch; cbn.
  eapply touches_only_trans;
    [apply dec_discards_remaining_touches | apply hand_remove_all_touches].
Qed.

(** One pass of the loop. *)
Lemma strategy_loop_unfold fuel sim target s t h :
  strategy_loop (S fuel) sim target s t h
  = if (t <? target) && (0 <? hands_remaining (snapshot h sim)) then
      match find_best_play (snapshot h sim) with
      | None => (Some (Raise AttributeError), h)
      | Some best_play =>
          let play :=
            let '(s', t', h') := play_branch sim best_play s t h in
            strategy_loop fuel sim target s' t' h' in
          if should_discard (snapshot h sim) best_play then
            match find_best_discard (snapshot h sim) with
            | Raise e => (Some (Raise e), h)
            | Ok discard_action =>
                match cards discard_action with
                | [] => play
                | _ =>
                    let '(s', h') := discard_branch sim discard_action s h in
                    strategy_loop fuel sim target s' t h'
                end
            end
          else play
      end
    else (Some (Ok (s, t)), h).
Proof. done. Qed.

Lemma strategy_loop_zero sim target s t h :
  strategy_loop 0 sim target s t h
  = if (t <? target) && (0 <? hands_remaining (snapshot h sim))
    then (None, h) else (Some (Ok (s, t)), h).
Proof. done. Qed.

(** The loop writes to the simulated state and to its hand only, whether
    it ends normally, raises, or runs out of fuel. *)
Lemma strategy_loop_touches fuel sim target s t h :
  touches_only sim h (strategy_loop fuel sim target s t h).2.
Proof.
  revert s t h. induction fuel as [|fuel IH]; intros s t h.
  - rewrite strategy_loop_zero. case_match; apply touches_only_refl.
  - rewrite strategy_loop_unfold.
    destruct ((t <? target) && (0 <? hands_remaining (snapshot h sim)));
      [|apply touches_only_refl].
    destruct (find_best_play (snapshot h sim)) as [best|];
      [|apply touches_only_refl].
    assert (touches_only sim h
              (let '(s', t', h') := play_branch sim best s t h in
               strategy_loop fuel sim target s' t' h').2) as Hplay.
    { pose proof (play_branch_touches sim best s t h) as Hp.
      destruct (play_branch sim best s t h) as [[s' t'] h']. cbn in Hp.
      eapply touches_only_trans; [exact Hp | apply IH]. }
    cbv zeta.
    destruct (should_discard (snapshot h sim) best); [|exact Hplay].
    destruct (find_best_discard (snapshot h sim)) as [d|e];
      [|apply touches_only_refl].
    destruct (cards d) eqn:Ed; [exact Hplay|].
    pose proof (discard_branch_touches sim d s h) as Hd.
    destruct (discard_branch sim d s h) as [s' h']. cbn in Hd.
    eapply touches_only_trans; [exact Hd | apply IH].
Qed.

(** *** Allocation and [copy] *)

Lemma preserved_refl h : preserved h h.
Proof. by split. Qed.

Lemma preserved_trans h1 h2 h3 : preserved h1 h2 → preserved h2 h3 → preserved h1 h3.
Proof.
  intros [L1 O1] [L2 O2]. split; intros l Hl.
  - rewrite L2, L1; [done..|]. by rewrite L1.
  - rewrite O2, O1; [done..|]. by rewrite O1.
Qed.

Lemma preserved_read_list h h' r :
  preserved h h' → is_Some (lists h !! r) → read_list h' r = read_list h r.
Proof. intros [L _] Hr. unfold read_list. by rewrite L. Qed.

Lemma preserved_is_Some h h' r :
  preserved h h' → is_Some (lists h !! r) → is_Some (lists h' !! r).
Proof. intros [L _] Hr. by rewrite L. Qed.

Lemma snapshot_preserved h h' l :
  preserved h h' → valid_state h l → snapshot h' l = snapshot h l.
Proof.
  intros Hp (o & Ho & H1 & H2 & H3). unfold snapshot.
  assert (read_obj h' l = o) as ->.
  { unfold read_obj. apply lookup_total_correct.
    destruct Hp as [_ O]. by rewrite O. }
  assert (read_obj h l = o) as -> by by apply lookup_total_correct.
  by rewrite !(preserved_read_list h h').
Qed.

Lemma valid_state_preserved h h' l :
  preserved h h' → valid_state h l → valid_state h' l.
Proof.
  intros Hp (o & Ho & H1 & H2 & H3). exists o.
  split_and!; try by eapply preserved_is_Some.
  destruct Hp as [_ O]. by rewrite O.
Qed.

Lemma alloc_list_spec l h :
  let '(r, h') := alloc_list l h in
  lists h !! r = None ∧ preserved h h' ∧ objs h' = objs h
  ∧ lists h' !! r = Some l.
Proof.
  unfold alloc_list. set (r := fresh (dom (lists h))).
  assert (lists h !! r = None) as Hr.
  { apply not_elem_of_dom. apply is_fresh. }
  split_and!; [done | | done | cbn; by rewrite lookup_insert_eq].
  split; [|done]. intros l' [x Hl']. cbn.
  rewrite lookup_insert_ne; [done|]. intros ->. congruence.
Qed.

Lemma alloc_obj_spec o h :
  let '(r, h') := alloc_obj o h in
  objs h !! r = None ∧ preserved h h' ∧ lists h' = lists h ∧ read_obj h' r = o.
Proof.
  unfold alloc_obj. set (r := fresh (dom (objs h))).
  assert (objs h !! r = None) as Hr.
  { apply not_elem_of_dom. apply is_fresh. }
  split_and!; [done | | done | apply read_obj_insert].
  split; [done|]. intros l' [x Hl']. cbn.
  rewrite lookup_insert_ne; [done|]. intros ->. congruence.
Qed.

(** The copy is a new state object with new lists, equal in value to the
    original, and every object of the heap is left as it was. *)
Lemma copy_spec self h :
  let '(sim, h') := copy self h in
  preserved h h'
  ∧ objs h !! sim = None
  ∧ lists h !! o_hand (read_obj h' sim) = None
  ∧ snapshot h' sim = snapshot h self.
Proof.
  unfold copy. set (o := read_obj h self).
  pose proof (alloc_list_spec (read_list h (o_hand o)) h) as A1.
  destruct (alloc_list (read_list h (o_hand o)) h) as [r1 h1].
  destruct A1 as (F1 & P1 & O1 & R1).
  (* the deck *)
  assert (∃ r2 h2,
            (if decide (o_deck o = o_hand o) then (r1, h1)
             else alloc_list (read_list h (o_deck o)) h1) = (r2, h2)
            ∧ preserved h1 h2 ∧ objs h2 = objs h
            ∧ lists h2 !! r2 = Some (read_list h (o_deck o))) as (r2 & h2 & -> & P2 & O2 & R2).
  { case_decide as Hd.
    - exists r1, h1. rewrite Hd. split_and!; [done | apply preserved_refl | done | done].
    - pose proof (alloc_list_spec (read_list h (o_deck o)) h1) as A2.
      destruct (alloc_list (read_list h (o_deck o)) h1) as [r2 h2].
      destruct A2 as (_ & P2 & O2 & R2). exists r2, h2.
      split_and!; [done | done | congruence | done]. }
  (* the cards played *)
  assert (∃ r3 h3,
            (if decide (o_cards_played o = o_hand o) then (r1, h2)
             else if decide (o_cards_played o = o_deck o) then (r2, h2)
             else alloc_list (read_list h (o_cards_played o)) h2) = (r3, h3)
            ∧ preserved h2 h3 ∧ objs h3 = objs h
            ∧ lists h3 !! r3 = Some (read_list h (o_cards_played o)))
    as (r3 & h3 & -> & P3 & O3 & R3).
  { case_decide as Hp; [|case_decide as Hp'].
    - exists r1, h2. rewrite Hp. split_and!; [done | apply preserved_refl | done |].
      destruct P2 as [L2 _]. by rewrite L2.
    - exists r2, h2. rewrite Hp'. split_and!; [done | apply preserved_refl | done | done].
    - pose proof (alloc_list_spec (read_list h (o_cards_played o)) h2) as A3.
      destruct (alloc_list (read_list h (o_cards_played o)) h2) as [r3 h3].
      destruct A3 as (_ & P3 & O3' & R3). exists r3, h3.
      split_and!; [done | done | congruence | done]. }
  match goal with |- context [alloc_obj ?x h3] => set (o' := x) end.
  pose proof (alloc_obj_spec o' h3) as A4.
  destruct (alloc_obj o' h3) as [sim h4]. destruct A4 as (F4 & P4 & L4 & R4).
  assert (preserved h h4) as Hp.
  { eapply preserved_trans; [exact P1|]. eapply preserved_trans; [exact P2|].
    eapply preserved_trans; [exact P3 | exact P4]. }
  split_and!.
  - exact Hp.
  - by rewrite <- O3.
  - by rewrite R4.
  - unfold snapshot. rewrite R4. fold o. subst o'. cbn.
    assert (read_list h4 r1 = read_list h (o_hand o)) as ->.
    { unfold read_list at 1. rewrite L4.
      destruct P3 as [L3 _]. destruct P2 as [L2 _].
      rewrite L3, L2, R1; [done | by rewrite R1 | rewrite L2; by rewrite R1]. }
    assert (read_list h4 r2 = read_list h (o_deck o)) as ->.
    { unfold read_list at 1. rewrite L4.
      destruct P3 as [L3 _]. rewrite L3, R2; [done | by rewrite R2]. }
    assert (read_list h4 r3 = read_list h (o_cards_played o)) as ->.
    { unfold read_list at 1. by rewrite L4, R3. }
    done.
Qed.

(** *** The caller's state *)

Lemma copy_then_loop_preserved self h sim h1 fuel target s t :
  copy self h = (sim, h1) →
  preserved h (strategy_loop fuel sim target s t h1).2.
Proof.
  intros Hc. pose proof (copy_spec self h) as Hs. rewrite Hc in Hs.
  destruct Hs as ([L1 O1] & Hsim & Hhand & _).
  destruct (strategy_loop_touches fuel sim target s t h1) as (L2 & O2 & _).
  split; intros l Hl.
  - rewrite L2, L1; [done..|]. intros ->. rewrite Hhand in Hl. by destruct Hl.
  - rewrite O2, O1; [done..|]. intros ->. rewrite Hsim in Hl. by destruct Hl.
Qed.

Lemma calculate_strategy_preserved self h :
  preserved h (calculate_strategy self h).2.
Proof.
  unfold calculate_strategy. case_match; [apply preserved_refl|].
  destruct (copy self h) as [sim h1] eqn:Hc.
  pose proof (copy_then_loop_preserved self h sim h1
                (loop_bound (snapshot h1 sim))
                (target_score (blind (snapshot h self))) Strategy_default
                (current_score (snapshot h self)) Hc) as Hp.
  destruct (strategy_loop _ _ _ _ _ _) as [[[[s t]|e]|] h2]; exact Hp.
Qed.

(** C9. [calculate_strategy] leaves the caller's game state as it was:
    after the call, whether it returned or raised, the state object that
    the optimizer was built on and the list objects of its hand, deck and
    played cards hold what they held before, and so does every other object
    that existed before the call; the simulation wrote to its own copy. *)
Theorem calculate_strategy_preserves_state (self : loc) (h : Heap) :
  valid_state h self →
  snapshot (calculate_strategy self h).2 self = snapshot h self
  ∧ objs (calculate_strategy self h).2 !! self = objs h !! self
  ∧ (∀ l, is_Some (lists h !! l) →
       lists (calculate_strategy self h).2 !! l = lists h !! l)
  ∧ (∀ l, is_Some (objs h !! l) →
       objs (calculate_strategy self h).2 !! l = objs h !! l).
Proof.
  intros Hv. pose proof (calculate_strategy_preserved self h) as Hp.
  split_and!.
  - by apply snapshot_preserved.
  - destruct Hv as (o & Ho & _). destruct Hp as [_ O]. apply O. by rewrite Ho.
  - apply Hp.
  - apply Hp.
Qed.

Lemma heap_with_valid hand js hr dr tgt cur :
  valid_state (heap_with hand js hr dr tgt cur) 1%positive.
Proof. eexists. split_and!; [reflexivity | by eexists..]. Qed.

Lemma calculate_strategy_preserves_state_witness :
  snapshot (calculate_strategy 1%positive
              (heap_with (four_hearts ++ [card 13 SPADES]) [] 4 3 300 0)).2 1%positive
  = state_with (four_hearts ++ [card 13 SPADES]) [] 4 3 300 0.
Proof.
  destruct (calculate_strategy_preserves_state 1%positive
              (heap_with (four_hearts ++ [card 13 SPADES]) [] 4 3 300 0)
              (heap_with_valid _ _ _ _ _ _)) as [H _].
  rewrite H. reflexivity.
Defined.

(** On that heap the simulation did write: the copy, at location 2 with
    its hand at location 4, ends with no hand left and no card in hand,
    while the original still has its four hands and five cards. *)
Example simulation_writes_to_its_copy :
  let h := heap_with (four_hearts ++ [card 13 SPADES]) [] 4 3 300 0 in
  let h' := (calculate_strategy 1%positive h).2 in
  objs h !! 2%positive = None
  ∧ hands_remaining (snapshot h' 2%positive) = 0
  ∧ o_hand (read_obj h' 2%positive) = 4%positive
  ∧ lists h' !! 4%positive = Some []
  ∧ hands_remaining (snapshot h' 1%positive) = 4
  ∧ lists h' !! 1%positive = Some (four_hearts ++ [card 13 SPADES]).
Proof. vm_compute. split_and!; reflexivity. Qed.

End HeapFacts.

(** ** The simulation loop *)

Module StrategyFacts.

Import Optimizer Strategist Scenarios HeapFacts.

Lemma read_obj_hand_remove_all sim cs h :
  read_obj (hand_remove_all sim cs h) sim = read_obj h sim.
Proof. unfold read_obj. by rewrite hand_remove_all_objs. Qed.

(** Playing uses up a hand of the simulated state, discarding a discard. *)
Lemma play_branch_counts sim a s t h :
  let '(s', t', h') := play_branch sim a s t h in
  hands_remaining (snapshot h' sim) = hands_remaining (snapshot h sim) - 1
  ∧ discards_remaining (snapshot h' sim) = discards_remaining (snapshot h sim)
  ∧ hands_needed s' = hands_needed s + 1
  ∧ t' = t + expected_score a
  ∧ actions s' = actions s ++ [a].
Proof.
  unfold play_branch, snapshot; cbn.
  rewrite read_obj_hand_remove_all. unfold dec_hands_remaining.
  by rewrite read_obj_insert.
Qed.

Lemma discard_branch_counts sim a s h :
  let '(s', h') := discard_branch sim a s h in
  hands_remaining (snapshot h' sim) = hands_remaining (snapshot h sim)
  ∧ discards_remaining (snapshot h' sim) = discards_remaining (snapshot h sim) - 1
  ∧ hands_needed s' = hands_needed s.
Proof.
  unfold discard_branch, snapshot; cbn.
  rewrite read_obj_hand_remove_all. unfold dec_discards_remaining.
  by rewrite read_obj_insert.
Qed.

Lemma should_discard_discards st a :
  should_discard st a = true → 0 < discards_remaining st.
Proof.
  unfold should_discard. rewrite !andb_true_iff. intros [[H _] _]. lia.
Qed.

(** The loop ends within [loop_bound] passes. *)
Lemma strategy_loop_enough_fuel fuel sim target s t h :
  (loop_bound (snapshot h sim) ≤ fuel)%nat →
  (strategy_loop fuel sim target s t h).1 ≠ None.
Proof.
  revert s t h. induction fuel as [|fuel IH]; intros s t h Hb.
  - rewrite strategy_loop_zero.
    destruct (Z.ltb_spec t target); [|done].
    destruct (Z.ltb_spec 0 (hands_remaining (snapshot h sim))); [|done].
    unfold loop_bound in Hb. lia.
  - rewrite strategy_loop_unfold.
    destruct (Z.ltb_spec t target); [|done].
    destruct (Z.ltb_spec 0 (hands_remaining (snapshot h sim))) as [Hh|]; [|done].
    cbn [andb].
    destruct (find_best_play (snapshot h sim)) as [best|]; [|done].
    assert ((let '(s', t', h') := play_branch sim best s t h in
             strategy_loop fuel sim target s' t' h').1 ≠ None) as Hplay.
    { pose proof (play_branch_counts sim best s t h) as Hp.
      destruct (play_branch sim best s t h) as [[s' t'] h'].
      destruct Hp as (Hhr & Hdr & _). apply IH.
      unfold loop_bound in *. rewrite Hhr, Hdr. lia. }
    cbv zeta.
    destruct (should_discard (snapshot h sim) best) eqn:Hsd; [|exact Hplay].
    apply should_discard_discards in Hsd.
    destruct (find_best_discard (snapshot h sim)) as [d|e]; [|done].
    destruct (cards d); [exact Hplay|].
    pose proof (discard_branch_counts sim d s h) as Hd.
    destruct (discard_branch sim d s h) as [s' h'].
    destruct Hd as (Hhr & Hdr & _). apply IH.
    unfold loop_bound in *. rewrite Hhr, Hdr. lia.
Qed.

(** [calculate_strategy] always ends: with a strategy or with an exception. *)
Lemma calculate_strategy_ends self h : (calculate_strategy self h).1 ≠ None.
Proof.
  unfold calculate_strategy. case_match; [done|].
  destruct (copy self h) as [sim h1].
  pose proof (strategy_loop_enough_fuel (loop_bound (snapshot h1 sim)) sim
                (target_score (blind (snapshot h self))) Strategy_default
                (current_score (snapshot h self)) h1 (le_n _)) as Hf.
  destruct (strategy_loop _ _ _ _ _ _) as [[[[s t]|e]|] h2]; done.
Qed.

(** What the loop leaves when it ends normally: every hand it counted was
    taken from the simulated state, which never goes below zero hands, and
    a state without hands is left alone. *)
Lemma strategy_loop_result fuel sim target s t h s' t' h' :
  strategy_loop fuel sim target s t h = (Some (Ok (s', t')), h') →
  hands_needed s' + hands_remaining (snapshot h' sim)
  = hands_needed s + hands_remaining (snapshot h sim)
  ∧ (0 ≤ hands_remaining (snapshot h sim) → 0 ≤ hands_remaining (snapshot h' sim))
  ∧ (hands_remaining (snapshot h sim) ≤ 0 → s' = s ∧ t' = t).
Proof.
  revert s t h. induction fuel as [|fuel IH]; intros s t h.
  - rewrite strategy_loop_zero. case_match; [done|].
    intros [= <- <- <-]. split_and!; [done | done | done].
  - rewrite strategy_loop_unfold.
    destruct (Z.ltb_spec t target); cbn [andb];
      [|intros [= <- <- <-]; split_and!; done].
    destruct (Z.ltb_spec 0 (hands_remaining (snapshot h sim))) as [Hh|];
      [|intros [= <- <- <-]; split_and!; done].
    destruct (find_best_play (snapshot h sim)) as [best|]; [|done].
    assert ((let '(s1, t1, h1) := play_branch sim best s t h in
             strategy_loop fuel sim target s1 t1 h1) = (Some (Ok (s', t')), h') →
            hands_needed s' + hands_remaining (snapshot h' sim)
            = hands_needed s + hands_remaining (snapshot h sim)
            ∧ (0 ≤ hands_remaining (snapshot h sim) → 0 ≤ hands_remaining (snapshot h' sim))
            ∧ (hands_remaining (snapshot h sim) ≤ 0 → s' = s ∧ t' = t)) as Hplay.
    { pose proof (play_branch_counts sim best s t h) as Hp.
      destruct (play_branch sim best s t h) as [[s1 t1] h1].
      destruct Hp as (Hhr & _ & Hn & _). intros Hl.
      destruct (IH _ _ _ Hl) as (I1 & I2 & _). split_and!; [lia | | lia].
      intros _. apply I2. lia. }
    cbv zeta.
    destruct (should_discard (snapshot h sim) best); [|exact Hplay].
    destruct (find_best_discard (snapshot h sim)) as [d|e]; [|done].
    destruct (cards d); [exact Hplay|].
    pose proof (discard_branch_counts sim d s h) as Hd.
    destruct (discard_branch sim d s h) as [s1 h1].
    destruct Hd as (Hhr & _ & Hn). intros Hl.
    destruct (IH _ _ _ Hl) as (I1 & I2 & _). split_and!; [lia | | lia].
    intros _. apply I2. lia.
Qed.

(** A normal return of [calculate_strategy] past its first test comes from
    a normal end of the loop on the copy, concluded on the caller's state. *)
Lemma calculate_strategy_ok self h s :
  valid_state h self →
  current_score (snapshot h self) < target_score (blind (snapshot h self)) →
  (calculate_strategy self h).1 = Some (Ok s) →
  ∃ sim h1 s' t' h2,
    copy self h = (sim, h1)
    ∧ snapshot h1 sim = snapshot h self
    ∧ strategy_loop (loop_bound (snapshot h self)) sim
        (target_score (blind (snapshot h self))) Strategy_default
        (current_score (snapshot h self)) h1
      = (Some (Ok (s', t')), h2)
    ∧ conclude (snapshot h self) (target_score (blind (snapshot h self))) s' t' = Ok s.
Proof.
  intros Hv Hlt.
  pose proof (snapshot_preserved _ _ self (calculate_strategy_preserved self h) Hv)
    as Hsnap.
  revert Hsnap. unfold calculate_strategy.
  destruct (Z.leb_spec (target_score (blind (snapshot h self))
                        - current_score (snapshot h self)) 0); [lia|].
  pose proof (copy_spec self h) as Hc.
  destruct (copy self h) as [sim h1]. destruct Hc as (_ & _ & _ & Hs).
  rewrite Hs.
  destruct (strategy_loop _ _ _ _ _ _) as [[[[s' t']|e]|] h2] eqn:Hl; cbn;
    [|done..].
  intros -> [= Hcon]. by exists sim, h1, s', t', h2.
Qed.

(** The success probability of a returned strategy: 0.95 when the simulated
    total reaches the target, which it does within the hands available, and
    min(0.8, total / target) when it does not. The branch that reports 0.0
    for too many hands is never taken. *)
Lemma calculate_strategy_success_probability self h s :
  valid_state h self →
  current_score (snapshot h self) < target_score (blind (snapshot h self)) →
  (calculate_strategy self h).1 = Some (Ok s) →
  (target_score (blind (snapshot h self)) ≤ total_expected_score s →
   success_probability s = 0.95%Q
   ∧ hands_needed s ≤ hands_remaining (snapshot h self))
  ∧ (total_expected_score s < target_score (blind (snapshot h self)) →
     success_probability s
     = py_min 0.8 (inject_Z (total_expected_score s)
                   / inject_Z (target_score (blind (snapshot h self))))).
Proof.
  intros Hv Hlt Hok.
  destruct (calculate_strategy_ok self h s Hv Hlt Hok)
    as (sim & h1 & s' & t' & h2 & _ & Hs & Hl & Hcon).
  destruct (strategy_loop_result _ _ _ _ _ _ _ _ _ Hl) as (I1 & I2 & I3).
  rewrite Hs in I1, I2, I3. change (hands_needed Strategy_default) with 0 in I1.
  revert Hcon. unfold conclude. cbn [hands_needed set_total set_probability].
  destruct (Z.leb_spec (target_score (blind (snapshot h self))) t') as [Hge|Hlt'].
  - assert (hands_needed s' ≤ hands_remaining (snapshot h self)) as Hn.
    { destruct (Z.le_gt_cases (hands_remaining (snapshot h self)) 0) as [Hz|Hp].
      - destruct (I3 Hz) as [_ ->]. lia.
      - specialize (I2 ltac:(lia)). lia. }
    destruct (Z.leb_spec (hands_needed s') (hands_remaining (snapshot h self)));
      [|lia].
    intros [= <-].
    cbn [total_expected_score success_probability hands_needed add_note
         set_probability set_total].
    split; [done | lia].
  - unfold py_div.
    destruct (Z.eqb_spec (target_score (blind (snapshot h self))) 0); [done|].
    cbn [mbind result_bind]. intros [= <-].
    cbn [total_expected_score success_probability hands_needed add_note
         set_probability set_total].
    split; [lia | done].
Qed.

(** On the last hand the simulation plays the best play and stops. *)
Lemma calculate_strategy_last_hand self h a :
  valid_state h self →
  hands_remaining (snapshot h self) = 1 →
  current_score (snapshot h self) < target_score (blind (snapshot h self)) →
  find_best_play (snapshot h self) = Some a →
  (calculate_strategy self h).1
  = Some (conclude (snapshot h self) (target_score (blind (snapshot h self)))
            (inc_hands_needed (add_action a Strategy_default))
            (current_score (snapshot h self) + expected_score a)).
Proof.
  intros Hv Hh Hlt Hbest.
  pose proof (snapshot_preserved _ _ self (calculate_strategy_preserved self h) Hv)
    as Hsnap.
  revert Hsnap. unfold calculate_strategy.
  destruct (Z.leb_spec (target_score (blind (snapshot h self))
                        - current_score (snapshot h self)) 0); [lia|].
  pose proof (copy_spec self h) as Hc.
  destruct (copy self h) as [sim h1]. destruct Hc as (_ & _ & _ & Hs).
  rewrite Hs. unfold loop_bound. rewrite Hh.
  change (Z.to_nat 1) with 1%nat. cbn [Nat.add].
  rewrite strategy_loop_unfold, Hs, Hh, Hbest.
  destruct (Z.ltb_spec (current_score (snapshot h self))
              (target_score (blind (snapshot h self)))); [|lia].
  cbn [andb Z.ltb Z.compare].
  assert (should_discard (snapshot h self) a = false) as ->.
  { unfold should_discard. rewrite Hh. apply andb_false_r. }
  pose proof (play_branch_counts sim a Strategy_default
                (current_score (snapshot h self)) h1) as Hp.
  destruct (play_branch sim a Strategy_default (current_score (snapshot h self)) h1)
    as [[s1 t1] h2] eqn:Hpb.
  destruct Hp as (Hhr & _ & _ & -> & _). rewrite Hs, Hh in Hhr.
  assert (s1 = inc_hands_needed (add_action a Strategy_default)) as ->.
  { unfold play_branch in Hpb. by injection Hpb as <- _. }
  cbv zeta.
  assert (∀ fuel, strategy_loop fuel sim (target_score (blind (snapshot h self)))
                    (inc_hands_needed (add_action a Strategy_default))
                    (current_score (snapshot h self) + expected_score a) h2
                  = (Some (Ok (inc_hands_needed (add_action a Strategy_default),
                               current_score (snapshot h self) + expected_score a)), h2))
    as ->.
  { intros [|fuel]; [rewrite strategy_loop_zero | rewrite strategy_loop_unfold];
      rewrite Hhr; cbn; by rewrite andb_false_r. }
  cbn. by intros ->.
Qed.

(** The two scenarios of a single hand against a target of 800. *)
Lemma calculate_strategy_last_hand_850 self h a :
  valid_state h self →
  hands_remaining (snapshot h self) = 1 →
  current_score (snapshot h self) = 0 →
  target_score (blind (snapshot h self)) = 800 →
  find_best_play (snapshot h self) = Some a →
  expected_score a = 850 →
  ∃ s, (calculate_strategy self h).1 = Some (Ok s)
       ∧ success_probability s = 0.95%Q ∧ actions s = [a] ∧ hands_needed s = 1.
Proof.
  intros Hv Hh Hc Ht Hbest Ha.
  rewrite (calculate_strategy_last_hand self h a Hv Hh ltac:(lia) Hbest).
  unfold conclude. rewrite Ht, Hc, Ha, Hh. cbn. eexists. split_and!; done.
Qed.

Lemma calculate_strategy_last_hand_400 self h a :
  valid_state h self →
  hands_remaining (snapshot h self) = 1 →
  current_score (snapshot h self) = 0 →
  target_score (blind (snapshot h self)) = 800 →
  find_best_play (snapshot h self) = Some a →
  expected_score a = 400 →
  ∃ s, (calculate_strategy self h).1 = Some (Ok s)
       ∧ (success_probability s == 0.5)%Q ∧ actions s = [a].
Proof.
  intros Hv Hh Hc Ht Hbest Ha.
  rewrite (calculate_strategy_last_hand self h a Hv Hh ltac:(lia) Hbest).
  unfold conclude. rewrite Ht, Hc, Ha. cbn. eexists. split_and!; done.
Qed.

(** The play of [find_best_play] is a PLAY action. *)
Lemma find_best_play_is_play st a :
  find_best_play st = Some a → action_type a = PLAY.
Proof.
  unfold find_best_play, find_best_play_ids. case_match.
  { by intros [= <-]. }
  unfold best_scan.
  assert (∀ l best,
            (∀ x, snd best = Some x → action_type (snd x) = PLAY) →
            ∀ x, snd (fold_left (best_step st) l best) = Some x →
                 action_type (snd x) = PLAY) as Hfold.
  { induction l as [|c l IH]; intros best Hb; [done|].
    cbn. apply IH. unfold best_step. case_match; [|done].
    cbn. intros x [= <-]. cbn. unfold play_action.
    by destruct (HandEvaluator.calculate_score _ _) as [[[? ?] ?] ?]. }
  specialize (Hfold (enumerate_plays (indexed (hand st))) (-1, None)).
  destruct (snd (fold_left _ _ _)) as [[ids b]|] eqn:E; [|done].
  cbn. intros [= <-]. by apply (Hfold ltac:(done) (ids, b)).
Qed.

(** C3. On a hand of four hearts and a king of spades, with the joker
    "Joker" held, 4 hands, 3 discards and a target of 300, the simulation
    chooses to discard, and the analysis of the discard raises
    [AttributeError] out of [calculate_strategy]: no strategy and no success
    probability is returned. Without the joker the same call returns a
    strategy. *)
Theorem calculate_strategy_raises_with_joker :
  (calculate_strategy 1%positive
     (heap_with (four_hearts ++ [card 13 SPADES]) [create_joker "Joker" ED_NONE]
        4 3 300 0)).1
  = Some (Raise AttributeError)
  ∧ find_best_play
      (state_with (four_hearts ++ [card 13 SPADES]) [create_joker "Joker" ED_NONE]
         4 3 300 0)
    = Some (mkAction PLAY [card 13 SPADES] 75 (Some HIGH_CARD) (R_chips_mult 15 5) 1 [])
  ∧ _estimate_discard_value
      (state_with (four_hearts ++ [card 13 SPADES]) [create_joker "Joker" ED_NONE]
         4 3 300 0)
    = 200
  ∧ should_discard
      (state_with (four_hearts ++ [card 13 SPADES]) [create_joker "Joker" ED_NONE]
         4 3 300 0)
      (play_action [card 13 SPADES]
         (state_with (four_hearts ++ [card 13 SPADES])
            [create_joker "Joker" ED_NONE] 4 3 300 0))
    = true
  ∧ find_best_discard
      (state_with (four_hearts ++ [card 13 SPADES]) [create_joker "Joker" ED_NONE]
         4 3 300 0)
    = Raise AttributeError
  ∧ ∃ s, (calculate_strategy 1%positive
            (heap_with (four_hearts ++ [card 13 SPADES]) [] 4 3 300 0)).1
         = Some (Ok s).
Proof.
  split_and!; [vm_compute; reflexivity..|].
  eexists. vm_compute. reflexivity.
Qed.

End StrategyFacts.

(** * Further properties of the code *)

(** ** Reading cards and hands *)

Module ReadingFacts.

Import Parse Scenarios.

Lemma rank_map_range s r : rank_map s = Some r → 10 ≤ r ≤ 14.
Proof. unfold rank_map. repeat case_decide; intros [= <-]; lia. Qed.

(** X1. Whatever string [parse_card] accepts, the card it returns has a
    rank from 2 to 14 and no enhancement, edition or seal. *)
Theorem parse_card_yields_plain_card (s : string) (c : Card) :
  parse_card s = Ok c → 2 ≤ rank c ≤ 14 ∧ c = card (rank c) (suit c).
Proof.
  unfold parse_card. destruct (last _) as [suit_char|]; [|done].
  destruct (suit_map suit_char) as [su|]; [|done].
  destruct (rank_map _) as [r|] eqn:Hr.
  - intros [= <-]. apply rank_map_range in Hr. cbn. split; [lia | done].
  - case_match eqn:Hg; [|done]. intros [= <-]. cbn.
    apply andb_true_iff in Hg as [Hg H10]. apply andb_true_iff in Hg as [_ H2].
    split; [lia | done].
Qed.

Lemma parse_card_yields_plain_card_witness :
  2 ≤ rank (card 13 DIAMONDS) ≤ 14.
Proof.
  apply (parse_card_yields_plain_card "kd" (card 13 DIAMONDS)). reflexivity.
Defined.

(** *** Case and blanks *)

Lemma upper_char_idemp c : upper_char (upper_char c) = upper_char c.
Proof. by destruct c as [[] [] [] [] [] [] [] []]. Qed.

Lemma upper_idemp s : upper (upper s) = upper s.
Proof.
  unfold upper. rewrite map_map. apply map_ext. intros c. apply upper_char_idemp.
Qed.

Lemma upper_char_space c : is_space c = true → upper_char c = c.
Proof. by destruct c as [[] [] [] [] [] [] [] []]. Qed.

Lemma upper_spaces s : Forall (λ c, is_space c = true) s → upper s = s.
Proof.
  induction 1 as [|c s Hc _ IH]; [done|].
  unfold upper in *. cbn [map]. by rewrite IH, upper_char_space.
Qed.

Lemma lstrip_spaces pre s :
  Forall (λ c, is_space c = true) pre → lstrip (pre ++ s) = lstrip s.
Proof. induction 1 as [|c pre Hc _ IH]; [done|]. cbn. by rewrite Hc. Qed.

Lemma lstrip_app_or s x : lstrip s = [] ∨ lstrip (s ++ x) = lstrip s ++ x.
Proof.
  induction s as [|c s IH]; [by left|]. cbn. destruct (is_space c); [done|by right].
Qed.

Lemma lstrip_all_spaces s : lstrip s = [] → Forall (λ c, is_space c = true) s.
Proof.
  induction s as [|c s IH]; [constructor|]. cbn.
  destruct (is_space c) eqn:E; [|done]. intros H. constructor; [done | by apply IH].
Qed.

Lemma strip_blank s : Forall (λ c, is_space c = true) s → strip s = [].
Proof.
  intros H. unfold strip.
  rewrite <- (app_nil_r s), lstrip_spaces by done. done.
Qed.

Lemma strip_padded pre s post :
  Forall (λ c, is_space c = true) pre → Forall (λ c, is_space c = true) post →
  strip (pre ++ s ++ post) = strip s.
Proof.
  intros Hpre Hpost. unfold strip. rewrite lstrip_spaces by done.
  destruct (lstrip_app_or s post) as [Hs | ->].
  - rewrite Hs. cbn.
    rewrite <- (app_nil_r (s ++ post)), lstrip_spaces; [done|].
    apply Forall_app. split; [by apply lstrip_all_spaces | done].
  - rewrite rev_app_distr, lstrip_spaces; [done|]. by apply Forall_rev.
Qed.

Lemma parse_card_of_upper s :
  parse_card (string_of_list_ascii (upper s)) = parse_card (string_of_list_ascii s).
Proof.
  unfold parse_card. by rewrite !list_ascii_of_string_of_list_ascii, upper_idemp.
Qed.

(** X3. [parse_card] does not see the case of its argument nor the blanks
    around it, and raises [IndexError] on an argument made of blanks only
    (the empty string included). *)
Theorem parse_card_ignores_case_and_blanks (pre s post : list ascii) :
  Forall (λ c, is_space c = true) pre → Forall (λ c, is_space c = true) post →
  parse_card (string_of_list_ascii (pre ++ s ++ post))
  = parse_card (string_of_list_ascii s)
  ∧ parse_card (string_of_list_ascii (upper s)) = parse_card (string_of_list_ascii s)
  ∧ parse_card (string_of_list_ascii (pre ++ post)) = Raise IndexError.
Proof.
  intros Hpre Hpost. split_and!.
  - unfold parse_card. rewrite !list_ascii_of_string_of_list_ascii.
    unfold upper. rewrite !map_app. fold (upper pre) (upper s) (upper post).
    rewrite (upper_spaces pre), (upper_spaces post) by done.
    by rewrite strip_padded.
  - apply parse_card_of_upper.
  - unfold parse_card. rewrite !list_ascii_of_string_of_list_ascii.
    rewrite upper_spaces, strip_blank; [done | |]; by apply Forall_app.
Qed.

Lemma parse_card_ignores_case_and_blanks_witness :
  parse_card "  as " = parse_card "as" ∧ parse_card "AS" = parse_card "as"
  ∧ parse_card "   " = Raise IndexError.
Proof.
  apply (parse_card_ignores_case_and_blanks
           (list_ascii_of_string "  ") (list_ascii_of_string "as")
           (list_ascii_of_string " "));
    repeat constructor.
Defined.

(** *** Hands *)

Lemma split_on_clean sep t :
  Forall (λ c, c ≠ sep) t → split_on sep t = [t].
Proof.
  induction 1 as [|c t Hc _ IH]; [done|]. cbn. rewrite decide_False by done.
  by rewrite IH.
Qed.

Lemma split_on_app sep t rest :
  Forall (λ c, c ≠ sep) t →
  split_on sep (t ++ sep :: rest) = t :: split_on sep rest.
Proof.
  induction 1 as [|c t Hc _ IH]; cbn.
  - by rewrite decide_True.
  - rewrite decide_False by done. by rewrite IH.
Qed.

Lemma split_on_join sep ts :
  ts ≠ [] → Forall (Forall (λ c, c ≠ sep)) ts →
  split_on sep (join_with sep ts) = ts.
Proof.
  intros Hne H. induction H as [|t ts Ht Hts IH]; [done|].
  destruct ts as [|t' ts]; [by apply split_on_clean|].
  cbn [join_with]. rewrite split_on_app by done. f_equal. by apply IH.
Qed.

Lemma bar_separators_clean t :
  Forall (λ c, c ≠ ","%char ∧ c ≠ "|"%char ∧ is_space c = false) t →
  bar_separators t = t.
Proof.
  induction 1 as [|c t (Hc & Hb & Hs) _ IH]; [done|].
  unfold bar_separators, replace_char in *. cbn. rewrite IH.
  rewrite (decide_False (P := c = ","%char)) by done.
  rewrite decide_False; [done|]. intros ->. done.
Qed.

Lemma bar_separators_join sep ts :
  sep = ","%char ∨ sep = " "%char → Forall clean_token ts →
  bar_separators (join_with sep ts) = join_with "|"%char ts.
Proof.
  intros Hsep H. induction H as [|t ts [_ Ht] Hts IH]; [done|].
  destruct ts as [|t' ts]; [by apply bar_separators_clean|].
  cbn [join_with]. unfold bar_separators, replace_char in *.
  rewrite !map_app, !map_cons.
  fold (replace_char ","%char "|"%char t).
  fold (replace_char " "%char "|"%char (replace_char ","%char "|"%char t)).
  fold (bar_separators t). rewrite (bar_separators_clean t Ht).
  f_equal. f_equal; [by destruct Hsep as [-> | ->]|]. apply IH.
Qed.

Lemma strip_clean t : clean_token t → strip t = t.
Proof.
  intros [Hne H]. unfold strip.
  assert (∀ u, u ≠ [] → Forall (λ c, is_space c = false) u → lstrip u = u) as Hl.
  { intros [|c u] Hu Hc; [done|]. cbn. apply Forall_cons in Hc as [-> _]. done. }
  assert (Forall (λ c, is_space c = false) t) as Ht.
  { eapply Forall_impl; [exact H|]. by intros c (_ & _ & ?). }
  rewrite (Hl t Hne Ht), Hl, rev_involutive; [done | | by apply Forall_rev].
  intros E. apply (f_equal (@rev _)) in E. rewrite rev_involutive in E. done.
Qed.

(** X4. A hand written as card tokens joined by commas, or by spaces, is
    parsed token by token in order, [parse_hand] raising what [parse_card]
    raises on the first token it rejects; the empty string is the empty
    hand. *)
Theorem parse_hand_joined (sep : ascii) (ts : list (list ascii)) :
  sep = ","%char ∨ sep = " "%char → Forall clean_token ts →
  parse_hand (string_of_list_ascii (join_with sep ts))
  = mapM (λ t, parse_card (string_of_list_ascii t)) ts.
Proof.
  intros Hsep Hts. unfold parse_hand.
  rewrite list_ascii_of_string_of_list_ascii. cbn [fold_left].
  fold (bar_separators (join_with sep ts)).
  rewrite (bar_separators_join sep ts Hsep Hts).
  destruct ts as [|t ts]; [done|].
  rewrite split_on_join; [|done|].
  - f_equal.
    assert (∀ l, Forall clean_token l →
                 map strip (filter (λ t, strip t ≠ []) l) = l) as Hf; [|by apply Hf].
    induction 1 as [|u l Hu _ IH]; [done|].
    rewrite filter_cons_True; [|rewrite (strip_clean u Hu); by destruct Hu].
    cbn. by rewrite IH, strip_clean.
  - eapply Forall_impl; [exact Hts|]. intros u [_ Hu].
    eapply Forall_impl; [exact Hu|]. by intros c (_ & ? & _).
Qed.

Lemma parse_hand_joined_witness :
  parse_hand "AS,KH,10D" = Ok [card 14 SPADES; card 13 HEARTS; card 10 DIAMONDS].
Proof.
  refine (eq_trans (parse_hand_joined ","%char
                      (map list_ascii_of_string ["AS"; "KH"; "10D"]) _ _) _).
  - by left.
  - repeat constructor; done.
  - reflexivity.
Defined.

End ReadingFacts.

(** ** The standard deck *)

Module DeckFacts.

(** X5. [create_standard_deck] holds 52 cards, no card twice, and they are
    exactly the plain cards of rank 2 to 14: one for each rank and suit. No
    two cards of the deck are equal for [Card.__eq__]. *)
Theorem create_standard_deck_spec :
  length create_standard_deck = 52%nat
  ∧ NoDup create_standard_deck
  ∧ (∀ c, c ∈ create_standard_deck ↔ 2 ≤ rank c ≤ 14 ∧ c = card (rank c) (suit c))
  ∧ (∀ c1 c2, c1 ∈ create_standard_deck → c2 ∈ create_standard_deck →
       Card_eq c1 c2 = true → c1 = c2).
Proof.
  assert (∀ c, c ∈ create_standard_deck
               ↔ 2 ≤ rank c ≤ 14 ∧ c = card (rank c) (suit c)) as Hspec.
  { intros c. unfold create_standard_deck.
    rewrite list_elem_of_In, in_flat_map. split.
    - intros (r & Hr & Hc). apply in_map_iff in Hr as (n & <- & Hn).
      apply in_seq in Hn. apply in_map_iff in Hc as (s & <- & _). cbn.
      split; [lia | done].
    - intros [Hr Hc]. exists (rank c). split.
      + apply in_map_iff. exists (Z.to_nat (rank c)). split; [lia|].
        apply in_seq. lia.
      + rewrite Hc. cbn [rank suit card]. destruct (suit c); cbn; tauto. }
  split_and!.
  - reflexivity.
  - apply (bool_decide_unpack _). vm_compute. exact I.
  - exact Hspec.
  - intros c1 c2 [_ H1]%Hspec [_ H2]%Hspec Heq.
    apply Card_eq_spec in Heq as (Hr & Hs & _). rewrite H1, H2. congruence.
Qed.

End DeckFacts.

(** ** Straights *)

Module StraightFacts.

Import HandEvaluator.

Lemma stable_sort_ext {A} (f g : A → A → bool) l :
  (∀ a b, f a b = g a b) → stable_sort f l = stable_sort g l.
Proof.
  intros Hfg. unfold stable_sort. induction l as [|x l IH]; [done|].
  cbn [foldr]. rewrite IH.
  generalize (foldr (sort_insert g) [] l). intros k.
  induction k as [|y k IHk]; [done|]. cbn. by rewrite Hfg, IHk.
Qed.

Lemma StronglySorted_weaken {A} (R S : A → A → Prop) l :
  (∀ a b, R a b → S a b) → StronglySorted R l → StronglySorted S l.
Proof.
  intros HRS. induction 1 as [|x l Hl IH Hx]; constructor; [done|].
  eapply Forall_impl; [exact Hx | apply HRS].
Qed.

Lemma sorted_asc_sorted l : StronglySorted Z.le (sorted_asc l).
Proof.
  unfold sorted_asc.
  rewrite (stable_sort_ext Z.ltb (by_key_desc Z.opp)).
  - eapply StronglySorted_weaken; [|apply (stable_sort_sorted Z.opp)].
    cbn. intros a b. lia.
  - intros a b. unfold by_key_desc.
    destruct (Z.ltb_spec a b), (Z.gtb_spec (- a) (- b)); lia.
Qed.

Lemma sorted_set_elem l x : x ∈ sorted_set l ↔ x ∈ l.
Proof.
  unfold sorted_set, sorted_asc. by rewrite stable_sort_perm, elem_of_remove_dups.
Qed.

Lemma sorted_set_NoDup l : NoDup (sorted_set l).
Proof.
  unfold sorted_set, sorted_asc. rewrite stable_sort_perm. apply NoDup_remove_dups.
Qed.

Lemma StronglySorted_strict l :
  StronglySorted Z.le l → NoDup l → StronglySorted Z.lt l.
Proof.
  induction 1 as [|x l Hl IH Hx]; [constructor|].
  intros [Hnx Hnd]%NoDup_cons. constructor; [by apply IH|].
  rewrite Forall_forall in Hx |- *. intros y Hy. specialize (Hx y Hy).
  assert (x ≠ y) by (intros ->; done). lia.
Qed.

Lemma sorted_set_strict l : StronglySorted Z.lt (sorted_set l).
Proof.
  apply StronglySorted_strict; [apply sorted_asc_sorted | apply sorted_set_NoDup].
Qed.

(** In a strictly increasing list of integers, later means greater, and
    [k] places later means greater by [k] at least. *)
Lemma strict_lookup_lt (u : list Z) i j a b :
  StronglySorted Z.lt u → u !! i = Some a → u !! j = Some b → (i < j)%nat → a < b.
Proof.
  intros Hu. revert i j. induction Hu as [|x u Hu IH Hx]; intros i j Hi Hj Hij.
  { done. }
  destruct j as [|j]; [lia|]. destruct i as [|i]; cbn in *.
  - injection Hi as ->. rewrite Forall_forall in Hx. apply Hx.
    by eapply list_elem_of_lookup_2.
  - eapply IH; [exact Hi | exact Hj | lia].
Qed.

Lemma strict_lookup_gap (u : list Z) i k a b :
  StronglySorted Z.lt u → u !! i = Some a → u !! (i + k)%nat = Some b →
  a + Z.of_nat k ≤ b.
Proof.
  intros Hu Hi. revert b. induction k as [|k IH]; intros b Hb.
  - rewrite Nat.add_0_r in Hb. assert (a = b) by congruence. lia.
  - assert (is_Some (u !! (i + k)%nat)) as [c Hc].
    { apply lookup_lt_is_Some. apply lookup_lt_Some in Hb. lia. }
    specialize (IH c Hc).
    pose proof (strict_lookup_lt u (i + k) (i + S k) c b Hu Hc Hb ltac:(lia)).
    lia.
Qed.

Lemma strict_lookup_inj_lt (u : list Z) i j a b :
  StronglySorted Z.lt u → u !! i = Some a → u !! j = Some b → a < b → (i < j)%nat.
Proof.
  intros Hu Hi Hj Hab. destruct (Nat.lt_ge_cases i j) as [|Hge]; [done|].
  destruct (decide (i = j)) as [->|Hne].
  - assert (a = b) by congruence. lia.
  - pose proof (strict_lookup_lt u j i b a Hu Hj Hi ltac:(lia)). lia.
Qed.

(** The successor of an element, when present, is at the next place. *)
Lemma strict_lookup_next (u : list Z) i a :
  StronglySorted Z.lt u → u !! i = Some a → a + 1 ∈ u → u !! S i = Some (a + 1).
Proof.
  intros Hu Hi [j Hj]%list_elem_of_lookup_1.
  pose proof (strict_lookup_inj_lt u i j a (a + 1) Hu Hi Hj ltac:(lia)) as Hij.
  destruct (decide (j = S i)) as [->|Hne]; [done|].
  assert (is_Some (u !! S i)) as [c Hc].
  { apply lookup_lt_is_Some. apply lookup_lt_Some in Hj. lia. }
  pose proof (strict_lookup_lt u i (S i) a c Hu Hi Hc ltac:(lia)).
  pose proof (strict_lookup_lt u (S i) j c (a + 1) Hu Hc Hj ltac:(lia)).
  lia.
Qed.

Lemma nth_lookup_Z (u : list Z) i a : u !! i = Some a → nth i u 0 = a.
Proof. intros H. by rewrite nth_lookup, H. Qed.

(** A window of the sorted distinct ranks spans 4 exactly when it holds
    five consecutive ranks. *)
Lemma window_iff_run (u : list Z) :
  StronglySorted Z.lt u →
  existsb (λ i, nth (i + 4) u 0 - nth i u 0 =? 4) (seq 0 (length u - 4)) = true
  ∧ (5 ≤ length u)%nat
  ↔ ∃ r, ∀ k, 0 ≤ k ≤ 4 → r + k ∈ u.
Proof.
  intros Hu. split.
  - intros [(i & Hi & Hw)%existsb_exists Hlen]. apply in_seq in Hi.
    apply Z.eqb_eq in Hw.
    assert (∀ k, (k ≤ 4)%nat → is_Some (u !! (i + k)%nat)) as Hsome.
    { intros k Hk. apply lookup_lt_is_Some. lia. }
    destruct (Hsome 0%nat ltac:(lia)) as [a Ha].
    destruct (Hsome 4%nat ltac:(lia)) as [e He].
    rewrite Nat.add_0_r in Ha.
    rewrite (nth_lookup_Z u (i + 4) e He), (nth_lookup_Z u i a Ha) in Hw.
    exists a. intros k Hk.
    destruct (Hsome (Z.to_nat k) ltac:(lia)) as [b Hb].
    pose proof (strict_lookup_gap u i (Z.to_nat k) a b Hu Ha Hb).
    assert (u !! (i + Z.to_nat k + (4 - Z.to_nat k))%nat = Some e) as He'.
    { rewrite <- He. f_equal. lia. }
    pose proof (strict_lookup_gap u (i + Z.to_nat k) (4 - Z.to_nat k) b e Hu Hb He').
    assert (b = a + k) as -> by lia.
    by eapply list_elem_of_lookup_2.
  - intros [r Hr].
    destruct (list_elem_of_lookup_1 u r) as [i H0].
    { specialize (Hr 0 ltac:(lia)). by rewrite Z.add_0_r in Hr. }
    assert (u !! S i = Some (r + 1)) as H1.
    { apply strict_lookup_next; [done..|]. apply Hr. lia. }
    assert (u !! S (S i) = Some (r + 1 + 1)) as H2.
    { apply strict_lookup_next; [done..|].
      replace (r + 1 + 1) with (r + 2) by lia. apply Hr. lia. }
    assert (u !! S (S (S i)) = Some (r + 1 + 1 + 1)) as H3.
    { apply strict_lookup_next; [done..|].
      replace (r + 1 + 1 + 1) with (r + 3) by lia. apply Hr. lia. }
    assert (u !! S (S (S (S i))) = Some (r + 1 + 1 + 1 + 1)) as H4.
    { apply strict_lookup_next; [done..|].
      replace (r + 1 + 1 + 1 + 1) with (r + 4) by lia. apply Hr. lia. }
    pose proof (lookup_lt_Some _ _ _ H4) as Hlen.
    split; [|lia]. apply existsb_exists. exists i. split; [apply in_seq; lia|].
    replace (i + 4)%nat with (S (S (S (S i)))) by lia.
    rewrite (nth_lookup_Z _ _ _ H4), (nth_lookup_Z _ _ _ H0). lia.
Qed.

(** X6. [_is_straight] answers True exactly when the ranks hold five
    consecutive values, or hold 2, 3, 4, 5 and 14 (the wheel); duplicates
    and the order of the ranks do not matter. *)
Theorem _is_straight_iff (ranks : list Z) :
  _is_straight ranks = true
  ↔ (∃ r, ∀ k, 0 ≤ k ≤ 4 → r + k ∈ ranks)
    ∨ (∀ r, r ∈ [2; 3; 4; 5; 14] → r ∈ ranks).
Proof.
  pose proof (sorted_set_strict ranks) as Hu.
  pose proof (window_iff_run (sorted_set ranks) Hu) as Hw.
  unfold _is_straight. unfold len.
  destruct (Z.ltb_spec (Z.of_nat (length (sorted_set ranks))) 5) as [Hlt|Hge].
  - split; [done|]. intros [Hrun|Hwheel].
    + assert (∃ r, ∀ k, 0 ≤ k ≤ 4 → r + k ∈ sorted_set ranks) as Hrun'.
      { destruct Hrun as [r Hr]. exists r. intros k Hk. apply sorted_set_elem. by apply Hr. }
      apply Hw in Hrun' as [_ ?]. lia.
    + assert ([2; 3; 4; 5; 14] ⊆+ sorted_set ranks) as Hsub.
      { apply NoDup_submseteq.
        - apply (bool_decide_unpack _). vm_compute. exact I.
        - intros x Hx. apply sorted_set_elem. by apply Hwheel. }
      apply submseteq_length in Hsub. cbn in Hsub. lia.
  - rewrite orb_true_iff. split.
    + intros [Hex|Hall].
      * left. destruct (proj1 Hw) as [r Hr]; [split; [done | lia]|].
        exists r. intros k Hk. apply sorted_set_elem. by apply Hr.
      * right. intros r Hr. rewrite forallb_forall in Hall.
        apply sorted_set_elem.
        apply list_elem_of_In in Hr. specialize (Hall r Hr).
        by apply bool_decide_eq_true in Hall.
    + intros [[r Hr]|Hwheel].
      * left. apply Hw. exists r. intros k Hk. apply sorted_set_elem. by apply Hr.
      * right. apply forallb_forall. intros r Hr. apply bool_decide_eq_true.
        apply sorted_set_elem. apply Hwheel. by apply list_elem_of_In.
Qed.

End StraightFacts.

(** ** The scoring cards of a classification *)

Module ScoringCardsFacts.

Import HandEvaluator.

(** [Counter]: its keys are the elements of the list, each once. *)
Lemma counter_add_keys {K} `{EqDecision K} (k : K) (m : list (K * Z)) :
  map fst (counter_add k m)
  = if decide (k ∈ map fst m) then map fst m else map fst m ++ [k].
Proof.
  induction m as [|[k' n] m IH]; [done|]. cbn.
  destruct (decide (k = k')) as [->|Hne]; cbn.
  - rewrite decide_True; [done | by left].
  - rewrite IH. destruct (decide (k ∈ map fst m)) as [Hin|Hnin].
    + rewrite decide_True; [done | by right].
    + rewrite decide_False; [done|]. intros [?|?]%elem_of_cons; done.
Qed.

Lemma Counter_keys {K} `{EqDecision K} (l : list K) :
  NoDup (map fst (Counter l)) ∧ ∀ k, k ∈ map fst (Counter l) ↔ k ∈ l.
Proof.
  unfold Counter.
  assert (∀ (m : list (K * Z)),
            NoDup (map fst m) →
            NoDup (map fst (fold_left (λ m k, counter_add k m) l m))
            ∧ ∀ k, k ∈ map fst (fold_left (λ m k, counter_add k m) l m)
                   ↔ k ∈ map fst m ∨ k ∈ l) as Hgen.
  { induction l as [|x l IH]; intros m Hm; cbn.
    - split; [done|]. intros k. rewrite elem_of_nil. tauto.
    - destruct (IH (counter_add x m)) as [Hnd Hel].
      + rewrite counter_add_keys. case_decide; [done|].
        apply NoDup_app. split_and!; [done | | apply NoDup_singleton].
        intros y Hy ->%list_elem_of_singleton. done.
      + split; [done|]. intros k. rewrite Hel, counter_add_keys, elem_of_cons.
        case_decide as Hx.
        * split; [tauto|]. intros [?|[->|?]]; tauto.
        * rewrite elem_of_app, list_elem_of_singleton. tauto. }
  destruct (Hgen [] (NoDup_nil_2)) as [Hnd Hel]. split; [done|].
  intros k. rewrite Hel. cbn. rewrite elem_of_nil. tauto.
Qed.

Lemma assoc_get_lookup {K V} `{EqDecision K} (k : K) (v d : V) (m : list (K * V)) :
  NoDup (map fst m) → (k, v) ∈ m → assoc_get k m d = v.
Proof.
  induction m as [|[k' v'] m IH]; [by intros _ ?%elem_of_nil|].
  cbn. intros [Hk' Hnd]%NoDup_cons [[= -> ->]|Hin]%elem_of_cons.
  - by rewrite decide_True.
  - rewrite decide_False; [by apply IH|]. intros ->. apply Hk'.
    apply list_elem_of_fmap. by exists (k', v).
Qed.

(** A count that is the greatest of the counts belongs to some rank. *)
Lemma top_count_entry (rank_counts : list (Z * Z)) n :
  n ≤ hd 0 (sorted_desc (map snd rank_counts)) → 0 < n →
  ∃ r v, (r, v) ∈ rank_counts ∧ n ≤ v.
Proof.
  intros Hn Hpos.
  destruct (sorted_desc (map snd rank_counts)) as [|v vs] eqn:E; [cbn in Hn; lia|].
  assert (v ∈ map snd rank_counts) as Hv.
  { unfold sorted_desc in E. rewrite <- (stable_sort_perm Z.gtb), E. by left. }
  apply list_elem_of_fmap in Hv as ([r v'] & -> & Hin). by exists r, v'.
Qed.

Lemma ranks_with_hd (rank_counts : list (Z * Z)) n :
  n ≤ hd 0 (sorted_desc (map snd rank_counts)) → 0 < n →
  hd 0 (ranks_with n rank_counts) ∈ map fst rank_counts.
Proof.
  intros Hn Hpos. destruct (top_count_entry _ _ Hn Hpos) as (r & v & Hin & Hv).
  unfold ranks_with.
  assert ((r, v) ∈ filter (λ rc, n ≤ rc.2) rank_counts) as Hf.
  { apply list_elem_of_filter. by split. }
  destruct (filter (λ rc, n ≤ rc.2) rank_counts) as [|[r' v'] f] eqn:E.
  { by apply elem_of_nil in Hf. }
  cbn. assert ((r', v') ∈ rank_counts) as Hin'.
  { eapply (list_elem_of_filter (λ rc, n ≤ rc.2)). rewrite E. by left. }
  apply list_elem_of_fmap. by exists (r', v').
Qed.

Lemma of_rank_nonempty r cards : r ∈ ranks_of cards → of_rank r cards ≠ [].
Proof.
  intros (c & -> & Hc)%list_elem_of_fmap Hnil.
  assert (c ∈ of_rank (rank c) cards) as Hin by by apply list_elem_of_filter.
  rewrite Hnil in Hin. by apply elem_of_nil in Hin.
Qed.

Lemma take_nonempty {A} n (l : list A) : l ≠ [] → (0 < n)%nat → take n l ≠ [].
Proof. destruct l, n; try done. lia. Qed.

Lemma max_by_elem {A} (key : A → Z) (l : list A) :
  l ≠ [] → ∃ x, max_by key l = Some x ∧ x ∈ l.
Proof.
  unfold max_by.
  set (f := λ (best : option A) (x : A),
              match best with
              | None => Some x
              | Some b => if key b <? key x then Some x else Some b
              end).
  assert (∀ l0 b, ∃ x, fold_left f l0 (Some b) = Some x ∧ (x ∈ l0 ∨ x = b)) as Hgen.
  { induction l0 as [|y l0 IH]; intros b; cbn.
    - exists b. by split; [|right].
    - destruct (key b <? key y).
      + destruct (IH y) as (x & Hx & [Hin|E]); exists x; (split; [done|]);
          left; [by right | rewrite E; by left].
      + destruct (IH b) as (x & Hx & [Hin|E]); exists x; (split; [done|]);
          [left; by right | by right]. }
  intros Hne. destruct l as [|y l]; [done|]. cbn.
  destruct (Hgen l y) as (x & Hx & [Hin|E]); exists x; (split; [done|]);
    [by right | rewrite E; by left].
Qed.

Lemma scoring_cards_length (cards : list Card) :
  (length (get_hand_type cards).2 ≤ 5)%nat.
Proof.
  unfold get_hand_type.
  repeat case_match; cbn [snd];
    rewrite ?length_app, ?length_take; try lia.
  + cbn. lia.
  + assert (∀ rs, (length (flat_map (λ r, take 2 (of_rank r cards)) rs)
                   ≤ 2 * length rs)%nat) as Hfm.
    { induction rs as [|r rs IH]; [done|]. cbn [flat_map].
      rewrite length_app, length_take. cbn [length]. lia. }
    etrans; [apply Hfm|]. rewrite length_take. lia.
  + destruct (max_by rank cards); cbn; lia.
Qed.

Lemma scoring_cards_subset (cards : list Card) :
  ∀ c, c ∈ (get_hand_type cards).2 → c ∈ cards.
Proof.
  assert (∀ n (P : Card → Prop) `{!∀ c, Decision (P c)},
            take n (filter P cards) ⊆ cards) as Htf.
  { intros n P ? c Hc%subseteq_take. by apply list_elem_of_filter in Hc as [_ ?]. }
  assert (∀ l1 l2 : list Card, l1 ⊆ cards → l2 ⊆ cards → l1 ++ l2 ⊆ cards) as Happ.
  { intros l1 l2 H1 H2 c [?|?]%elem_of_app; auto. }
  enough ((get_hand_type cards).2 ⊆ cards) as Hsub by (intros c; apply Hsub).
  unfold get_hand_type.
  repeat case_match; cbn [snd];
    try apply Htf; try apply subseteq_take; try (apply Happ; apply Htf).
  + by intros c ?%elem_of_nil.
  + intros c Hc. apply list_elem_of_In, in_flat_map in Hc as (r & _ & Hc).
    by apply list_elem_of_In, Htf in Hc.
  + destruct (max_by rank cards) as [x|] eqn:Hx; [|by intros c ?%elem_of_nil].
    destruct (max_by_elem rank cards) as (x' & Hx' & Hin).
    { intros ->. done. }
    intros c ->%list_elem_of_singleton. congruence.
Qed.

Lemma scoring_cards_nonempty (cards : list Card) :
  cards ≠ [] → (get_hand_type cards).2 ≠ [].
Proof.
  intros Hne. unfold get_hand_type.
  destruct (Counter_keys (ranks_of cards)) as [Hnd Hkeys].
  assert ((len cards =? 0) = false) as ->.
  { destruct cards; [done|]. apply Z.eqb_neq. unfold len. cbn [length]. lia. }
  set (rank_counts := Counter (ranks_of cards)) in *.
  set (count0 := hd 0 (sorted_desc (map snd rank_counts))).
  assert (∀ n, 0 < n → n ≤ count0 →
            of_rank (hd 0 (ranks_with n rank_counts)) cards ≠ []) as Hrank.
  { intros n Hpos Hn. apply of_rank_nonempty, Hkeys.
    by apply ranks_with_hd. }
  assert (take 5 cards ≠ []) as H5 by (apply take_nonempty; [done | lia]).
  repeat match goal with
         | |- context [if ?b then _ else _] => destruct b eqn:?
         end; cbn [snd]; try done.
  + (* flush five *)
    apply take_nonempty; [|lia].
    match goal with H : _ && (5 <=? count0) = true |- _ =>
      apply andb_true_iff in H as [_ Hc%Z.leb_le] end.
    destruct (top_count_entry rank_counts 5 Hc ltac:(lia)) as (r & v & Hin & Hv).
    assert (r ∈ ranks_of cards) as (c & -> & Hcin)%list_elem_of_fmap.
    { apply Hkeys. apply list_elem_of_fmap. by exists (r, v). }
    intros Hnil.
    assert (c ∈ filter (λ c, 5 ≤ assoc_get (rank c) rank_counts 0) cards) as Hf.
    { apply list_elem_of_filter. split; [|done].
      by rewrite (assoc_get_lookup _ v 0 rank_counts Hnd Hin). }
    rewrite Hnil in Hf. by apply elem_of_nil in Hf.
  + apply take_nonempty; [|lia]. apply Hrank; [lia|].
    match goal with H : _ && (5 <=? count0) = true |- _ =>
      apply andb_true_iff in H as [_ Hc%Z.leb_le] end. done.
  + apply take_nonempty; [|lia]. apply Hrank; [lia|]. by apply Z.leb_le.
  + intros [Hnil _]%app_eq_nil. revert Hnil. apply take_nonempty; [|lia].
    apply Hrank; [lia|].
    match goal with H : _ && (3 <=? count0) && _ = true |- _ =>
      apply andb_true_iff in H as [[_ Hc%Z.leb_le]%andb_true_iff _] end. done.
  + apply take_nonempty; [|lia]. apply Hrank; [lia|]. by apply Z.leb_le.
  + (* two pair *)
    match goal with H : (2 <=? len ?p) = true |- _ =>
      apply Z.leb_le in H; set (pairs := p) in * end.
    assert (sorted_desc pairs ≡ₚ pairs) as Hperm by apply stable_sort_perm.
    destruct (sorted_desc pairs) as [|r rs] eqn:E.
    { apply Permutation_length in Hperm. unfold len in *. cbn in Hperm. lia. }
    cbn. intros [Hnil _]%app_eq_nil. revert Hnil. apply take_nonempty; [|lia].
    apply of_rank_nonempty, Hkeys.
    assert (r ∈ pairs) as Hr by (rewrite <- Hperm; by left).
    unfold pairs, ranks_with in Hr.
    apply list_elem_of_fmap in Hr as ([r' v] & -> & Hr%list_elem_of_filter).
    apply list_elem_of_fmap. exists (r', v). by destruct Hr.
  + (* pair or high card *)
    case_match eqn:Ep.
    * destruct (max_by_elem rank cards Hne) as (x & -> & _). done.
    * cbn. apply take_nonempty; [|lia]. apply of_rank_nonempty, Hkeys.
      match goal with |- ?z ∈ _ => assert (z ∈ ranks_with 2 rank_counts) as Hr
        by (rewrite Ep; by left) end.
      unfold ranks_with in Hr.
      apply list_elem_of_fmap in Hr as ([r' v] & -> & Hr%list_elem_of_filter).
      apply list_elem_of_fmap. exists (r', v). by destruct Hr.
Qed.

(** X7. The scoring cards that [get_hand_type] returns are at most five,
    are all among the cards given, and are at least one as soon as one
    card is given; no card gives High Card with no scoring card. *)
Theorem get_hand_type_scoring_cards (cards : list Card) :
  (length (get_hand_type cards).2 ≤ 5)%nat
  ∧ (∀ c, c ∈ (get_hand_type cards).2 → c ∈ cards)
  ∧ (cards ≠ [] → (get_hand_type cards).2 ≠ [])
  ∧ get_hand_type [] = (HIGH_CARD, []).
Proof.
  split_and!.
  - apply scoring_cards_length.
  - apply scoring_cards_subset.
  - apply scoring_cards_nonempty.
  - done.
Qed.

End ScoringCardsFacts.

(** ** Classification and card equality *)

Module EqualCardsFacts.

Import HandEvaluator.

#[local] Abbreviation same_card := (λ c c' : Card, Card_eq c c' = true).

Lemma same_card_rank c c' : Card_eq c c' = true → rank c = rank c'.
Proof. by intros (? & _)%Card_eq_spec. Qed.

Lemma same_cards_ranks l l' : Forall2 same_card l l' → ranks_of l = ranks_of l'.
Proof.
  induction 1 as [|c c' l l' Hc _ IH]; [done|]. unfold ranks_of in *. cbn.
  by rewrite IH, (same_card_rank c c').
Qed.

Lemma same_cards_suits l l' : Forall2 same_card l l' → suits_of l = suits_of l'.
Proof.
  induction 1 as [|c c' l l' Hc _ IH]; [done|]. unfold suits_of in *. cbn.
  apply Card_eq_spec in Hc as (_ & -> & ->). by rewrite IH.
Qed.

Lemma same_cards_flush l l' : Forall2 same_card l l' → is_flush_of l = is_flush_of l'.
Proof.
  intros H. unfold is_flush_of, suit_counts_of, wild_count_of, len.
  by rewrite (same_cards_suits l l' H), (Forall2_length _ _ _ H).
Qed.

Lemma same_cards_filter (P : Z → Prop) `{!∀ r, Decision (P r)} l l' :
  Forall2 same_card l l' →
  Forall2 same_card (filter (λ c, P (rank c)) l) (filter (λ c, P (rank c)) l').
Proof.
  intros Hl. apply Forall2_filter; [|done].
  intros c c' Hc. by rewrite (same_card_rank c c' Hc).
Qed.

Lemma same_cards_of_rank r l l' :
  Forall2 same_card l l' → Forall2 same_card (of_rank r l) (of_rank r l').
Proof. intros Hl. unfold of_rank. exact (same_cards_filter (λ r', r' = r) l l' Hl). Qed.

Lemma same_cards_max_by l l' :
  Forall2 same_card l l' →
  Forall2 same_card (option_list (max_by rank l)) (option_list (max_by rank l')).
Proof.
  intros H. unfold max_by.
  set (f := λ (best : option Card) (x : Card),
              match best with
              | None => Some x
              | Some b => if rank b <? rank x then Some x else Some b
              end).
  assert (∀ acc acc', option_Forall2 same_card acc acc' →
            option_Forall2 same_card (fold_left f l acc) (fold_left f l' acc')) as Hgen.
  { induction H as [|c c' l l' Hc _ IH]; intros acc acc' Hacc; [done|].
    cbn. apply IH. destruct Hacc as [b b' Hb|]; cbn; [|by constructor].
    rewrite (same_card_rank b b' Hb), (same_card_rank c c' Hc).
    case_match; by constructor. }
  destruct (Hgen None None) as [x y Hxy|]; [constructor|..]; cbn.
  - by constructor.
  - constructor.
Qed.

(** X8. [get_hand_type] sees of a card what [Card.__eq__] compares: two
    lists of cards that are equal card by card (same rank, suit and
    enhancement, whatever the editions and seals) get the same hand type,
    and their scoring cards are equal card by card. *)
Theorem get_hand_type_respects_card_eq (cards cards' : list Card) :
  Forall2 (λ c c', Card_eq c c' = true) cards cards' →
  (get_hand_type cards).1 = (get_hand_type cards').1
  ∧ Forall2 (λ c c', Card_eq c c' = true)
      (get_hand_type cards).2 (get_hand_type cards').2.
Proof.
  intros H. unfold get_hand_type.
  rewrite <- (same_cards_ranks _ _ H), <- (same_cards_flush _ _ H).
  replace (len cards') with (len cards)
    by (unfold len; by rewrite (Forall2_length _ _ _ H)).
  repeat case_match; cbn [fst snd]; (split; [done|]);
    repeat first
      [ apply Forall2_take
      | apply Forall2_app
      | apply Forall2_nil_2
      | by apply same_cards_of_rank
      | by apply same_cards_max_by
      | done ].
  - apply Forall2_filter; [|done].
    intros c c' Hc. by rewrite (same_card_rank c c' Hc).
  - generalize (take 2 (sorted_desc (ranks_with 2 (Counter (ranks_of cards))))).
    intros rs. induction rs as [|r rs IH]; [constructor|]. cbn [flat_map].
    apply Forall2_app; [|done]. by apply Forall2_take, same_cards_of_rank.
Qed.

Lemma get_hand_type_respects_card_eq_witness :
  (get_hand_type [mkCard 14 SPADES ENH_NONE FOIL SEAL_RED; card 14 HEARTS]).1
  = (get_hand_type [card 14 SPADES; mkCard 14 HEARTS ENH_NONE HOLOGRAPHIC SEAL_NONE]).1.
Proof.
  apply (get_hand_type_respects_card_eq
           [mkCard 14 SPADES ENH_NONE FOIL SEAL_RED; card 14 HEARTS]
           [card 14 SPADES; mkCard 14 HEARTS ENH_NONE HOLOGRAPHIC SEAL_NONE]).
  repeat constructor.
Defined.

End EqualCardsFacts.

(** ** Jokers and the score *)

Module JokerFacts.

Import HandEvaluator Scenarios.

Lemma assoc_get_missing {K V} `{EqDecision K} (k : K) (d : list (K * V)) (v : V) :
  k ∉ map fst d → assoc_get k d v = v.
Proof.
  induction d as [|[k' v'] d IH]; [done|]. cbn. intros Hk.
  rewrite decide_False.
  - apply IH. intros ?. apply Hk. by right.
  - intros ->. apply Hk. by left.
Qed.

(** A joker with the default effect and no scoring edition leaves the
    accumulators as they are. *)
Lemma score_joker_default cards ht sc gs a j :
  effect j = JokerEffect_default →
  joker_edition j = ED_NONE ∨ joker_edition j = NEGATIVE →
  PyFloat.in_range a.2 →
  score_joker cards ht sc gs a j = a.
Proof.
  intros He Hed Hr. destruct a as [[c m] x]. unfold score_joker, _apply_joker.
  rewrite He. cbn [conditional JokerEffect_default flat_chips flat_mult x_mult].
  change (PyFloat.eqb PyFloat.one PyFloat.one) with true. cbn [negb].
  cbn in Hr. destruct Hed as [-> | ->];
    (f_equal; [f_equal; lia | by apply FloatFacts.mul_one]).
Qed.

Lemma score_totals_with_jokers cards gs js :
  score_totals cards (with_jokers js gs)
  = fold_left (score_joker cards (get_hand_type cards).1 (get_hand_type cards).2 gs) js
      (fold_left score_card (get_hand_type cards).2
         (HandLevel_chips (get_hand_level gs (get_hand_type cards).1),
          HandLevel_mult (get_hand_level gs (get_hand_type cards).1), PyFloat.one)).
Proof.
  unfold score_totals. destruct (get_hand_type cards) as [ht sc]. reflexivity.
Qed.

Lemma calculate_score_of_totals cards gs gs' :
  score_totals cards gs = score_totals cards gs' →
  calculate_score cards gs = calculate_score cards gs'.
Proof. unfold calculate_score. by intros ->. Qed.

(** X9. A joker created under a name that is not in the catalog has the
    default effect, and holding it (in any position, without a Foil,
    Holographic or Polychrome edition) changes no score. *)
Theorem unknown_joker_changes_no_score (name : string) (ed : Edition)
    (cards : list Card) (gs : GameState) (js1 js2 : list Joker) :
  name ∉ map fst JOKER_DATABASE → ed = ED_NONE ∨ ed = NEGATIVE →
  effect (create_joker name ed) = JokerEffect_default
  ∧ calculate_score cards (with_jokers (js1 ++ create_joker name ed :: js2) gs)
    = calculate_score cards (with_jokers (js1 ++ js2) gs).
Proof.
  intros Hname Hed.
  assert (effect (create_joker name ed) = JokerEffect_default) as He.
  { unfold create_joker. cbn [effect]. by apply assoc_get_missing. }
  split; [done|]. apply calculate_score_of_totals.
  rewrite !score_totals_with_jokers, !fold_left_app. cbn [fold_left].
  rewrite score_joker_default; [done..|].
  apply ScoreFacts.fold_score_joker_in_range, ScoreFacts.fold_score_card_in_range,
    FloatFacts.one_in_range.
Qed.

Lemma unknown_joker_changes_no_score_witness :
  calculate_score two_pair_cards
    (with_jokers [create_joker "Joker" ED_NONE; create_joker "Mime" ED_NONE]
       scenario_state)
  = calculate_score two_pair_cards
      (with_jokers [create_joker "Joker" ED_NONE] scenario_state).
Proof.
  apply (unknown_joker_changes_no_score "Mime" ED_NONE two_pair_cards
           scenario_state [create_joker "Joker" ED_NONE] []).
  - apply (bool_decide_unpack _). vm_compute. exact I.
  - by left.
Defined.

Lemma default_levels_nonneg hand js hr dr tgt cur :
  (∀ j, j ∈ js →
     0 ≤ flat_chips (effect j) ∧ 0 ≤ flat_mult (effect j)
     ∧ (0 <= PyFloat.value (x_mult (effect j)))%Q) →
  nonneg_state (state_with hand js hr dr tgt cur).
Proof.
  intros Hjs. split; [|done]. intros ht l. cbn.
  destruct ht; vm_compute; intros [= <-]; done.
Qed.

(** X10. In a state whose hand levels are at least 1 and whose jokers have
    no negative chips, mult or multiplier, [calculate_score] never returns
    a negative score, negative chips or a negative total mult. *)
Theorem calculate_score_nonneg (cards : list Card) (gs : GameState) :
  nonneg_state gs →
  0 ≤ (calculate_score cards gs).1.1.1
  ∧ 0 ≤ (calculate_score cards gs).1.2
  ∧ 0 ≤ (calculate_score cards gs).2.
Proof.
  intros Hgs. pose proof (ScoreFacts.score_totals_nonneg cards gs Hgs) as Hn.
  unfold calculate_score.
  destruct (score_totals cards gs) as [[chips mult] x].
  destruct Hn as (Hc & Hm & Hx); cbn in *.
  split_and!.
  - by apply ScoreFacts.final_score_nonneg.
  - done.
  - apply FloatFacts.to_int_nonneg, FloatFacts.mul_nonneg; [|done].
    by apply FloatFacts.of_int_nonneg.
Qed.

Lemma calculate_score_nonneg_witness :
  0 ≤ (calculate_score two_pair_cards
         (state_with scenario_hand [create_joker "Joker" ED_NONE] 4 3 300 0)).1.1.1.
Proof.
  apply (calculate_score_nonneg two_pair_cards
           (state_with scenario_hand [create_joker "Joker" ED_NONE] 4 3 300 0)).
  apply default_levels_nonneg.
  intros j ->%list_elem_of_singleton. vm_compute. split_and!; discriminate.
Defined.

End JokerFacts.

(** ** The best play *)

Module BestPlayFacts.

Import HandEvaluator Optimizer Scenarios AllPlaysFacts.




End BestPlayFacts.

(** ** The accounts of a strategy *)

Module AccountFacts.

Import Optimizer Strategist Scenarios HeapFacts StrategyFacts.

Lemma find_best_discard_is_discard st a :
  find_best_discard st = Ok a → action_type a = DISCARD.
Proof.
  unfold find_best_discard, _analyze_discards.
  destruct (can_discard st); cbn; [|by intros [= <-]].
  destruct (find_best_play_ids st) as [[ids best]|]; [|done].
  destruct (map snd _); [by intros [= <-]|].
  destruct (analyze_potential_hands st) as [ps|]; cbn; [|done].
  destruct ps as [|p ps]; [by intros [= <-]|].
  case_match; by intros [= <-].
Qed.

Lemma plays_of_play a l : action_type a = PLAY → plays_of (a :: l) = a :: plays_of l.
Proof. intros H. unfold plays_of. by rewrite filter_cons_True. Qed.

Lemma plays_of_discard a l : action_type a = DISCARD → plays_of (a :: l) = plays_of l.
Proof. intros H. unfold plays_of. rewrite filter_cons_False; [done|]. by rewrite H. Qed.

Lemma discards_of_play a l : action_type a = PLAY → discards_of (a :: l) = discards_of l.
Proof. intros H. unfold discards_of. rewrite filter_cons_False; [done|]. by rewrite H. Qed.

Lemma discards_of_discard a l :
  action_type a = DISCARD → discards_of (a :: l) = a :: discards_of l.
Proof. intros H. unfold discards_of. by rewrite filter_cons_True. Qed.

Lemma strategy_loop_accounts fuel sim target s t h s' t' h' :
  strategy_loop fuel sim target s t h = (Some (Ok (s', t')), h') →
  loop_accounts sim target s t h s' t' h'.
Proof.
  assert (∀ s t h, ¬ (t < target ∧ 0 < hands_remaining (snapshot h sim)) →
                   loop_accounts sim target s t h s t h) as Hstop.
  { intros s0 t0 h0 Hc. exists []. rewrite app_nil_r.
    change (plays_of []) with (@nil Action). change (discards_of []) with (@nil Action).
    unfold total_score_of, len. cbn [map foldr length].
    repeat apply conj; try done; try lia. }
  revert s t h. induction fuel as [|fuel IH]; intros s t h.
  - rewrite strategy_loop_zero.
    destruct (Z.ltb_spec t target); cbn [andb];
      [|intros [= <- <- <-]; apply Hstop; lia].
    destruct (Z.ltb_spec 0 (hands_remaining (snapshot h sim))); [done|].
    intros [= <- <- <-]; apply Hstop; lia.
  - rewrite strategy_loop_unfold.
    destruct (Z.ltb_spec t target); cbn [andb];
      [|intros [= <- <- <-]; apply Hstop; lia].
    destruct (Z.ltb_spec 0 (hands_remaining (snapshot h sim))) as [Hh|];
      [|intros [= <- <- <-]; apply Hstop; lia].
    destruct (find_best_play (snapshot h sim)) as [best|] eqn:Hbest; [|done].
    apply find_best_play_is_play in Hbest.
    assert ((let '(s1, t1, h1) := play_branch sim best s t h in
             strategy_loop fuel sim target s1 t1 h1) = (Some (Ok (s', t')), h') →
            loop_accounts sim target s t h s' t' h') as Hplay.
    { pose proof (play_branch_counts sim best s t h) as Hp.
      destruct (play_branch sim best s t h) as [[s1 t1] h1] eqn:Hpb.
      destruct Hp as (_ & Hdr & Hn & -> & Ha). intros Hl.
      assert (discards_used s1 = discards_used s) as Hdu.
      { unfold play_branch in Hpb. by injection Hpb as <- _. }
      destruct (IH _ _ _ Hl) as (more & A1 & A2 & A3 & A4 & A5 & A6 & A7 & A8).
      exists (best :: more).
      rewrite plays_of_play, discards_of_play by done.
      unfold total_score_of in *. unfold len in *. cbn [map foldr length].
      repeat apply conj; try lia.
      rewrite A1, Ha, <- app_assoc. done. }
    cbv zeta.
    destruct (should_discard (snapshot h sim) best) eqn:Hsd; [|exact Hplay].
    apply should_discard_discards in Hsd.
    destruct (find_best_discard (snapshot h sim)) as [d|e] eqn:Hd; [|done].
    apply find_best_discard_is_discard in Hd.
    destruct (cards d); [exact Hplay|].
    pose proof (discard_branch_counts sim d s h) as Hc.
    destruct (discard_branch sim d s h) as [s1 h1] eqn:Hdb.
    destruct Hc as (_ & Hdr & Hn). intros Hl.
    assert (actions s1 = actions s ++ [d] ∧ discards_used s1 = discards_used s + 1)
      as [Ha Hdu].
    { unfold discard_branch in Hdb. by injection Hdb as <- _. }
    destruct (IH _ _ _ Hl) as (more & A1 & A2 & A3 & A4 & A5 & A6 & A7 & A8).
    exists (d :: more).
    rewrite plays_of_discard, discards_of_discard by done.
    unfold len in *. cbn [length].
    repeat apply conj; try lia.
    rewrite A1, Ha, <- app_assoc. done.
Qed.

(** X12. The strategy that [calculate_strategy] returns keeps its own
    accounts: [hands_needed] counts its PLAY actions and [discards_used] its
    DISCARD actions, and it uses no more hands and no more discards than
    the state has. When the current score is below the target, the total
    is the current score plus the scores of the plays, and if that total
    stays below the target then every hand was used. When the current
    score has reached the target already, the strategy has no action and
    its total is 0, not the current score. *)
Theorem calculate_strategy_accounts (self : loc) (h : Heap) (s : Strategy) :
  valid_state h self →
  (calculate_strategy self h).1 = Some (Ok s) →
  hands_needed s = len (plays_of (actions s))
  ∧ discards_used s = len (discards_of (actions s))
  ∧ hands_needed s ≤ Z.max 0 (hands_remaining (snapshot h self))
  ∧ discards_used s ≤ Z.max 0 (discards_remaining (snapshot h self))
  ∧ (current_score (snapshot h self) < target_score (blind (snapshot h self)) →
     total_expected_score s
     = current_score (snapshot h self) + total_score_of (plays_of (actions s))
     ∧ (total_expected_score s < target_score (blind (snapshot h self)) →
        hands_needed s = Z.max 0 (hands_remaining (snapshot h self))))
  ∧ (target_score (blind (snapshot h self)) ≤ current_score (snapshot h self) →
     actions s = [] ∧ total_expected_score s = 0).
Proof.
  intros Hv Hok.
  destruct (Z.lt_ge_cases (current_score (snapshot h self))
              (target_score (blind (snapshot h self)))) as [Hlt|Hge].
  - destruct (calculate_strategy_ok self h s Hv Hlt Hok)
      as (sim & h1 & s' & t' & h2 & _ & Hs & Hl & Hcon).
    destruct (strategy_loop_result _ _ _ _ _ _ _ _ _ Hl) as (I1 & I2 & I3).
    destruct (strategy_loop_accounts _ _ _ _ _ _ _ _ _ Hl)
      as (more & A1 & A2 & A3 & A4 & A5 & A6 & A7 & A8).
    rewrite Hs in *.
    change (hands_needed Strategy_default) with 0 in *.
    change (discards_used Strategy_default) with 0 in *.
    change (actions Strategy_default) with (@nil Action) in *. cbn [app] in A1.
    assert (actions s = actions s' ∧ hands_needed s = hands_needed s'
            ∧ discards_used s = discards_used s' ∧ total_expected_score s = t')
      as (-> & -> & -> & ->).
    { revert Hcon. unfold conclude, py_div.
      repeat case_match; cbn; try done; by intros [= <-]. }
    assert (hands_remaining (snapshot h self) ≤ 0 → hands_needed s' = 0) as I4.
    { intros Hle. by destruct (I3 Hle) as [-> _]. }
    rewrite A1. repeat apply conj; lia.
  - revert Hok. unfold calculate_strategy.
    destruct (Z.leb_spec (target_score (blind (snapshot h self))
                          - current_score (snapshot h self)) 0) as [_|Hn]; [|lia].
    cbn [fst]. intros [= <-].
    change (plays_of _) with (@nil Action). change (discards_of _) with (@nil Action).
    cbn -[snapshot Z.max]. repeat apply conj; try done; lia.
Qed.

Lemma calculate_strategy_accounts_witness :
  ∃ s, (calculate_strategy 1%positive (heap_with scenario_hand [] 4 3 300 0)).1
       = Some (Ok s)
       ∧ hands_needed s = len (plays_of (actions s))
       ∧ discards_used s = len (discards_of (actions s))
       ∧ hands_needed s ≤ 4 ∧ discards_used s ≤ 3.
Proof.
  destruct (calculate_strategy 1%positive (heap_with scenario_hand [] 4 3 300 0)).1
    as [[s|]|] eqn:E; [|vm_compute in E; discriminate..].
  exists s.
  destruct (calculate_strategy_accounts 1%positive
              (heap_with scenario_hand [] 4 3 300 0) s
              (heap_with_valid _ _ _ _ _ _) E)
    as (H1 & H2 & H4 & H5 & _).
  repeat apply conj; [reflexivity | exact H1 | exact H2 | exact H4 | exact H5].
Defined.

(** X13. [calculate_strategy] always comes to an end: its loop stops within
    as many passes as the state has hands and discards. *)
Theorem calculate_strategy_terminates (self : loc) (h : Heap) :
  (calculate_strategy self h).1 ≠ None
  ∧ ∀ sim target s t h0,
      (strategy_loop (loop_bound (snapshot h0 sim)) sim target s t h0).1 ≠ None.
Proof.
  split; [apply calculate_strategy_ends|].
  intros sim target s t h0. by apply strategy_loop_enough_fuel.
Qed.

(** X14. On the last hand [calculate_strategy] never discards: it plays
    the best play at once and concludes on the score of that play. *)
Theorem last_hand_is_played (self : loc) (h : Heap) (a : Action) :
  valid_state h self →
  hands_remaining (snapshot h self) = 1 →
  current_score (snapshot h self) < target_score (blind (snapshot h self)) →
  find_best_play (snapshot h self) = Some a →
  should_discard (snapshot h self) a = false
  ∧ (calculate_strategy self h).1
    = Some (conclude (snapshot h self) (target_score (blind (snapshot h self)))
              (inc_hands_needed (add_action a Strategy_default))
              (current_score (snapshot h self) + expected_score a)).
Proof.
  intros Hv Hh Hlt Ha. split; [|by apply calculate_strategy_last_hand].
  unfold should_discard. rewrite Hh. apply andb_false_r.
Qed.

Lemma last_hand_is_played_witness :
  (calculate_strategy 1%positive (heap_with scenario_hand [] 1 3 300 0)).1
  = Some (conclude (state_with scenario_hand [] 1 3 300 0) 300
            (inc_hands_needed
               (add_action
                  (mkAction PLAY two_pair_cards 124 (Some TWO_PAIR) (R_chips_mult 62 2) 1 [])
                  Strategy_default))
            (0 + 124)).
Proof.
  apply (last_hand_is_played 1%positive (heap_with scenario_hand [] 1 3 300 0)
           (mkAction PLAY two_pair_cards 124 (Some TWO_PAIR) (R_chips_mult 62 2) 1 [])).
  - apply heap_with_valid.
  - reflexivity.
  - reflexivity.
  - vm_compute. reflexivity.
Defined.

End AccountFacts.

(** ** Estimates *)

Module EstimateFacts.

Import HandEvaluator Optimizer Strategist Scenarios.

Lemma unit_fraction (a b : Z) :
  0 ≤ a ≤ b → 0 < b → (0 <= inject_Z a / inject_Z b)%Q ∧ (inject_Z a / inject_Z b <= 1)%Q.
Proof.
  intros Ha Hb.
  assert (0 < inject_Z b)%Q as Hb' by (unfold Qlt; cbn; lia).
  split.
  - apply Qle_shift_div_l; [done|]. unfold Qle; cbn; lia.
  - apply Qle_shift_div_r; [done|]. unfold Qle; cbn; lia.
Qed.

Lemma fraction_complement (a b : Z) :
  b ≠ 0 → (inject_Z (b - a) / inject_Z b == 1 - inject_Z a / inject_Z b)%Q.
Proof.
  intros Hb. unfold Z.sub. rewrite inject_Z_plus, inject_Z_opp. field.
  intros E. apply Hb. unfold Qeq in E. cbn in E. lia.
Qed.

(** X15. With one or two cards to draw, a deck of at least two cards and a
    number of favourable cards between none and the whole deck,
    [_calculate_draw_probability] returns a probability: a number between 0
    and 1, for two cards no smaller than for one. With an empty deck it
    raises [ZeroDivisionError] for every number of cards but 0. *)
Theorem _calculate_draw_probability_range (cards_needed favorable_cards deck_size : Z) :
  (0 ≤ cards_needed ≤ 2 → 0 ≤ favorable_cards ≤ deck_size → 2 ≤ deck_size →
   ∃ p, _calculate_draw_probability cards_needed favorable_cards deck_size = Ok p
        ∧ (0 <= p)%Q ∧ (p <= 1)%Q
        ∧ (cards_needed = 2 →
           (inject_Z favorable_cards / inject_Z deck_size <= p)%Q))
  ∧ (cards_needed ≠ 0 →
     _calculate_draw_probability cards_needed favorable_cards 0
     = Raise ZeroDivisionError).
Proof.
  split.
  - intros Hn Hf Hd. unfold _calculate_draw_probability, py_div.
    assert (cards_needed = 0 ∨ cards_needed = 1 ∨ cards_needed = 2) as [-> | [-> | ->]]
      by lia; cbn [Z.eqb Pos.eqb].
    + exists 1%Q. repeat apply conj; [done|done|apply Qle_refl|done].
    + destruct (Z.eqb_spec deck_size 0); [lia|].
      eexists. split; [done|].
      destruct (unit_fraction favorable_cards deck_size) as [H0 H1]; [lia..|].
      repeat apply conj; [done|done|done].
    + destruct (Z.eqb_spec deck_size 0); [lia|].
      destruct (Z.eqb_spec (deck_size - 1) 0); [lia|].
      cbn [mbind result_bind]. eexists. split; [done|].
      pose proof (fraction_complement favorable_cards deck_size ltac:(lia)) as Hc.
      destruct (unit_fraction favorable_cards deck_size) as [Hf0 Hf1]; [lia..|].
      destruct (unit_fraction (deck_size - favorable_cards) deck_size)
        as [Ha0 Ha1]; [lia..|].
      destruct (Z.eq_dec favorable_cards deck_size) as [-> | Hne].
      * assert (inject_Z deck_size / inject_Z deck_size == 1)%Q as Hq.
        { field. intros E. unfold Qeq in E. cbn in E. lia. }
        rewrite Hq in Hc. rewrite Hc, Hq.
        repeat apply conj; [lra|lra|intros _; lra].
      * destruct (unit_fraction (deck_size - favorable_cards - 1) (deck_size - 1))
          as [Hb0 Hb1]; [lia..|].
        revert Hc Hf0 Hf1 Ha0 Ha1 Hb0 Hb1.
        generalize (inject_Z (deck_size - favorable_cards - 1)
                    / inject_Z (deck_size - 1))%Q.
        generalize (inject_Z (deck_size - favorable_cards) / inject_Z deck_size)%Q.
        generalize (inject_Z favorable_cards / inject_Z deck_size)%Q.
        intros q a b Hc Hq0 Hq1 Ha0 Ha1 Hb0 Hb1.
        repeat apply conj; [nra|nra|intros _; nra].
  - intros Hn. unfold _calculate_draw_probability, py_div.
    destruct (Z.eqb_spec cards_needed 0); [done|].
    destruct (cards_needed =? 1); [done|].
    destruct (cards_needed =? 2); done.
Qed.

Lemma _calculate_draw_probability_range_witness :
  ∃ p, _calculate_draw_probability 2 8 44 = Ok p ∧ (0 <= p)%Q ∧ (p <= 1)%Q.
Proof.
  destruct (_calculate_draw_probability_range 2 8 44) as [H _].
  destruct H as (p & Hp & H0 & H1 & _); [lia..|].
  exists p. repeat apply conj; assumption.
Defined.

Lemma _estimate_discard_value_values st :
  0 ≤ _estimate_discard_value st ≤ 450
  ∧ (_estimate_discard_value st = 0 ∨ 30 ≤ _estimate_discard_value st).
Proof.
  unfold _estimate_discard_value. cbv zeta.
  repeat case_match; lia.
Qed.

(** X16. [calculate_strategy] weighs a discard exactly when a discard is
    left, more than one hand is left, and ten times the value that
    [_estimate_discard_value] gives the hand is more than three times the
    score of the best play. That value is at most 450, so a best play of
    1500 or more is always played; and a best play that scores at least 0
    is passed over only for a hand whose value is 30 or more. *)
Theorem should_discard_spec (st : GameState) (best_play : Action) :
  (should_discard st best_play = true ↔
   0 < discards_remaining st ∧ 1 < hands_remaining st
   ∧ 3 * expected_score best_play < 10 * _estimate_discard_value st)
  ∧ (should_discard st best_play = true →
     expected_score best_play < 1500
     ∧ (0 ≤ expected_score best_play → 30 ≤ _estimate_discard_value st)).
Proof.
  assert (should_discard st best_play = true ↔
          0 < discards_remaining st ∧ 1 < hands_remaining st
          ∧ 3 * expected_score best_play < 10 * _estimate_discard_value st) as Hiff.
  { unfold should_discard. rewrite !andb_true_iff, negb_true_iff, !Z.ltb_lt.
    rewrite <- not_true_iff_false, Qle_bool_iff.
    unfold Qle. cbn. lia. }
  split; [exact Hiff|].
  intros (_ & _ & H)%Hiff.
  pose proof (_estimate_discard_value_values st). lia.
Qed.

Lemma should_discard_spec_witness :
  should_discard scenario_state
    (mkAction PLAY two_pair_cards 124 (Some TWO_PAIR) (R_chips_mult 62 2) 1 []) = true
  ∧ 30 ≤ _estimate_discard_value scenario_state.
Proof.
  assert (should_discard scenario_state
            (mkAction PLAY two_pair_cards 124 (Some TWO_PAIR) (R_chips_mult 62 2) 1 [])
          = true) as H by reflexivity.
  split; [exact H|].
  destruct (should_discard_spec scenario_state
              (mkAction PLAY two_pair_cards 124 (Some TWO_PAIR) (R_chips_mult 62 2) 1 []))
    as [_ Hb].
  destruct (Hb H) as [_ Hv]. apply Hv. cbn. lia.
Defined.

Lemma fold_score_card_plain cs chips mult x :
  Forall (λ c, enhancement c = ENH_NONE ∧ edition c = ED_NONE) cs →
  fold_left score_card cs (chips, mult, x)
  = (chips + foldr Z.add 0 (map chip_value cs), mult, x).
Proof.
  intros H. revert chips. induction H as [|c cs [He Hd] _ IH]; intros chips.
  - cbn. f_equal. f_equal. lia.
  - cbn [fold_left map foldr]. unfold score_card at 2. rewrite He, Hd.
    rewrite !decide_False by done. rewrite IH. f_equal. f_equal. lia.
Qed.

Lemma fold_estimate_card_chips cs chips :
  fold_left (λ acc card, acc + estimate_card_chips card) cs chips
  = chips + foldr Z.add 0 (map estimate_card_chips cs).
Proof.
  revert chips. induction cs as [|c cs IH]; intros chips; cbn; [lia|].
  rewrite IH. lia.
Qed.

Lemma estimate_card_chips_plain c :
  2 ≤ rank c ≤ 14 → enhancement c = ENH_NONE → edition c = ED_NONE →
  estimate_card_chips c = chip_value c.
Proof.
  intros Hr He Hd. unfold estimate_card_chips, chip_value. rewrite He, Hd.
  rewrite !decide_False by done. cbv zeta.
  repeat case_match; lia.
Qed.

Lemma sum_chip_value_nonneg cs : 0 ≤ foldr Z.add 0 (map chip_value cs).
Proof.
  induction cs as [|c cs IH]; cbn; [lia|].
  pose proof (ScoreFacts.chip_value_nonneg c). lia.
Qed.

Lemma sum_chip_value_plain cs :
  Forall (λ c, 2 ≤ rank c ≤ 14 ∧ enhancement c = ENH_NONE ∧ edition c = ED_NONE) cs →
  foldr Z.add 0 (map chip_value cs) ≤ 11 * Z.of_nat (length cs).
Proof.
  induction 1 as [|c cs (Hr & He & Hd) _ IH]; [done|].
  cbn [map foldr length].
  assert (chip_value c ≤ 11); [|lia].
  unfold chip_value. rewrite He, Hd. rewrite !decide_False by done. cbv zeta.
  repeat case_match; lia.
Qed.

(** X17. The estimate and the score. Without jokers, for cards of ranks 2
    to 14 with no enhancement and no edition, whose hand type is one of the
    ten the estimator has a table entry for and is at a level from 1 to
    10000000 (where the float product of chips and mult needs no
    rounding), [_estimate_hand_score] given the scoring cards never
    exceeds the score of [calculate_score]; the two are equal at level 1,
    and for High Card at every such level. *)
Theorem estimate_at_most_score (st : GameState) (cards : list Card) :
  jokers st = [] →
  Forall (λ c, 2 ≤ rank c ≤ 14 ∧ enhancement c = ENH_NONE ∧ edition c = ED_NONE) cards →
  cards ≠ [] →
  (get_hand_type cards).1 ∉ [FIVE_OF_A_KIND; FLUSH_HOUSE; FLUSH_FIVE] →
  1 ≤ level (get_hand_level st (get_hand_type cards).1) ≤ 10000000 →
  ∃ e, _estimate_hand_score st (get_hand_type cards).1 (Some (get_hand_type cards).2)
       = Ok e
       ∧ e ≤ (calculate_score cards st).1.1.1
       ∧ (level (get_hand_level st (get_hand_type cards).1) = 1
          ∨ (get_hand_type cards).1 = HIGH_CARD →
          e = (calculate_score cards st).1.1.1).
Proof.
  intros Hj Hplain Hne Hht Hlevel.
  pose proof (ScoringCardsFacts.scoring_cards_subset cards) as Hsub.
  pose proof (ScoringCardsFacts.scoring_cards_nonempty cards Hne) as Hsc.
  pose proof (ScoringCardsFacts.scoring_cards_length cards) as Hlen.
  unfold calculate_score, score_totals, _estimate_hand_score, estimate_chips,
    estimate_mult.
  destruct (get_hand_type cards) as [ht sc] eqn:Eht. cbn [fst snd] in *.
  rewrite Hj. cbn [fold_left estimate_jokers mbind result_bind].
  assert (Forall (λ c, 2 ≤ rank c ≤ 14 ∧ enhancement c = ENH_NONE ∧ edition c = ED_NONE)
            sc) as Hsc_plain.
  { rewrite Forall_forall. intros c Hc. rewrite Forall_forall in Hplain.
    apply Hplain, Hsub, Hc. }
  rewrite fold_score_card_plain
    by (eapply Forall_impl; [exact Hsc_plain | by intros c (_ & ? & ?)]).
  assert (foldr Z.add 0 (map estimate_card_chips sc)
          = foldr Z.add 0 (map chip_value sc)) as Hsum.
  { clear -Hsc_plain. induction Hsc_plain as [|c cs (? & ? & ?) _ IH]; [done|].
    cbn. rewrite IH, estimate_card_chips_plain; done. }
  destruct sc as [|c0 sc0]; [done|].
  rewrite fold_estimate_card_chips.
  replace (estimate_base_chips ht + estimate_card_chips c0
           + foldr Z.add 0 (map estimate_card_chips sc0))
    with (estimate_base_chips ht + foldr Z.add 0 (map chip_value (c0 :: sc0)))
    by (cbn [map foldr] in *; lia).
  assert (0 ≤ foldr Z.add 0 (map chip_value (c0 :: sc0)) ≤ 55) as Hs.
  { split; [apply sum_chip_value_nonneg|].
    etrans; [by apply sum_chip_value_plain|]. lia. }
  revert Hs. generalize (foldr Z.add 0 (map chip_value (c0 :: sc0))). intros sum Hs.
  unfold HandLevel_chips, HandLevel_mult, get_hand_level in *.
  cbn [hl_hand_type level] in *.
  revert Hlevel. generalize (default 1 (hand_levels st !! ht)). intros l Hl.
  cbn [fst snd].
  eexists. split; [done|].
  assert (0 ≤ estimate_base_chips ht ≤ 100 ∧ estimate_base_chips ht = base_chips ht
          ∧ 1 ≤ estimate_base_mult ht ≤ 8 ∧ estimate_base_mult ht = base_mult ht
          ∧ 10 ≤ level_bonus ht ≤ 40 ∧ (ht = HIGH_CARD → level_bonus ht = 10))
    as (Hc0 & Hc & Hm0 & Hm & Hb & Hh).
  { clear -Hht.
    destruct ht; cbn; repeat apply conj; try lia; try done;
      exfalso; apply Hht; rewrite !elem_of_cons; auto. }
  rewrite Hc, Hm in *.
  assert (0 ≤ (l - 1) * level_bonus ht ≤ 400000000) as Hlb by nia.
  rewrite ScoreFacts.exact_score_no_multiplier;
    rewrite ?FloatFacts.two53; [|lia|lia|nia].
  assert (0 ≤ (l - 1) * (level_bonus ht - 10)) as Hd by nia.
  assert (0 ≤ (l - 1) * (level_bonus ht - 10) * (base_mult ht + (l - 1))) as Hp by nia.
  split; [nia|].
  intros [-> | Hhc]; [lia|]. rewrite (Hh Hhc). lia.
Qed.

Lemma estimate_at_most_score_witness :
  _estimate_hand_score scenario_state TWO_PAIR (Some two_pair_cards) = Ok 124
  ∧ (calculate_score two_pair_cards scenario_state).1.1.1 = 124.
Proof.
  destruct (estimate_at_most_score scenario_state two_pair_cards)
    as (e & He & _ & Heq).
  - reflexivity.
  - unfold two_pair_cards, card. repeat constructor; cbn; lia.
  - discriminate.
  - intros H%list_elem_of_In. vm_compute in H. intuition discriminate.
  - vm_compute. split; discriminate.
  - split; [reflexivity|]. reflexivity.
Defined.

End EstimateFacts.

(** ** The recommender *)

Module AdvisorFacts.

Import HandEvaluator Optimizer Strategist Advisor Scenarios HeapFacts StrategyFacts.

(** What [find_best_play] returns scores at least 0, and has a hand type
    unless the hand is empty. *)
Lemma find_best_play_score st a :
  find_best_play st = Some a →
  0 ≤ expected_score a ∧ (hand_type a = None → hand st = []).
Proof.
  unfold find_best_play, find_best_play_ids.
  destruct (Z.eqb_spec (len (hand st)) 0) as [Hz|Hz].
  { intros [= <-]. cbn. split; [lia|]. intros _.
    destruct (hand st); [done|]. unfold len in Hz. cbn in Hz. lia. }
  unfold best_scan.
  assert (∀ l best,
            (-1 ≤ fst best ∧
             ∀ x, snd best = Some x →
                  0 ≤ expected_score (snd x) ∧ hand_type (snd x) ≠ None) →
            ∀ x, snd (fold_left (best_step st) l best) = Some x →
                 0 ≤ expected_score (snd x) ∧ hand_type (snd x) ≠ None) as Hfold.
  { induction l as [|c l IH]; intros best [Hb1 Hb2].
    - cbn. intros x Hx. by apply Hb2.
    - cbn. apply IH. unfold best_step.
      destruct (Z.ltb_spec (fst best) (expected_score (play_action (map snd c) st)));
        [|done].
      cbn. split; [lia|]. intros x [= <-]. cbn. split; [lia|].
      unfold play_action. by destruct (calculate_score _ _) as [[[? ?] ?] ?]. }
  specialize (Hfold (enumerate_plays (indexed (hand st))) (-1, None)).
  destruct (snd (fold_left _ _ _)) as [[ids b]|] eqn:E; [|done].
  cbn. intros [= <-].
  destruct (Hfold ltac:(cbn; split; [lia|done]) (ids, b) eq_refl) as [H1 H2].
  split; [done|]. intros Hn. by destruct H2.
Qed.

(** X18. [get_quick_tips] raises when [find_best_play] finds no play, and
    when the hand is empty with the target already reached; the exception
    is [AttributeError]. In every other case it returns between one and
    four tips: the tip on the last hand exactly when one hand is left, the
    tip on discards exactly when none is left, and a points-per-hand tip
    only when at least two hands are left, its figure between 0 and the
    score of the best play. Without a state it returns no tip. *)
Theorem get_quick_tips_spec (st : GameState) :
  (find_best_play st = None ∨ (hand st = [] ∧ score_needed st = 0) →
   get_quick_tips (Some st) = Raise AttributeError)
  ∧ (¬ (find_best_play st = None ∨ (hand st = [] ∧ score_needed st = 0)) →
     ∃ tips best,
       get_quick_tips (Some st) = Ok tips
       ∧ find_best_play st = Some best
       ∧ (1 ≤ length tips ≤ 4)%nat
       ∧ (T_last_hand ∈ tips ↔ hands_remaining st = 1)
       ∧ (T_no_discards ∈ tips ↔ discards_remaining st = 0)
       ∧ (∀ q, T_per_hand q ∈ tips →
               2 ≤ hands_remaining st ∧ 0 ≤ q ≤ expected_score best
               ∧ expected_score best < score_needed st))
  ∧ get_quick_tips None = Ok [].
Proof.
  split; [|split; [|done]].
  - intros [Hn | [Hh Hs]]; unfold get_quick_tips.
    + by rewrite Hn.
    + unfold find_best_play, find_best_play_ids. rewrite Hh. cbn.
      rewrite Hs. done.
  - intros Hnot. unfold get_quick_tips.
    destruct (find_best_play st) as [best|] eqn:Hbest; [|destruct Hnot; by left].
    destruct (find_best_play_score st best Hbest) as [H0 Hty].
    set (t1 := if hands_remaining st =? 1 then [] ++ [T_last_hand] else []).
    set (t2 := if discards_remaining st =? 0 then t1 ++ [T_no_discards] else t1).
    assert ((length t2 ≤ 2)%nat
            ∧ (T_last_hand ∈ t2 ↔ hands_remaining st = 1)
            ∧ (T_no_discards ∈ t2 ↔ discards_remaining st = 0)
            ∧ ∀ q, T_per_hand q ∉ t2) as (L2 & A2 & B2 & C2).
    { subst t1 t2.
      destruct (Z.eqb_spec (hands_remaining st) 1);
        destruct (Z.eqb_spec (discards_remaining st) 0); cbn;
        repeat apply conj; try lia; intros;
        try match goal with H : _ ∈ _ |- _ => rewrite ?elem_of_cons, ?elem_of_nil in H end;
        rewrite ?elem_of_cons, ?elem_of_nil; intuition (try discriminate; try lia). }
    clearbody t2. clear t1.
    assert (∃ t3, (if score_needed st <=? expected_score best
                   then match hand_type best with
                        | None => Raise AttributeError
                        | Some ht => Ok (t2 ++ [T_can_win ht])
                        end
                   else if score_needed st <=? expected_score best * hands_remaining st
                        then q ← py_floordiv (score_needed st) (hands_remaining st);
                             Ok (t2 ++ [T_per_hand q])
                        else Ok (t2 ++ [T_hard])) = Ok (t2 ++ [t3])
                  ∧ t3 ≠ T_last_hand ∧ t3 ≠ T_no_discards
                  ∧ (∀ names, t3 ≠ T_jokers names)
                  ∧ ∀ q, t3 = T_per_hand q →
                         2 ≤ hands_remaining st ∧ 0 ≤ q ≤ expected_score best
                         ∧ expected_score best < score_needed st)
      as (t3 & -> & N1 & N2 & N3 & N4).
    { destruct (Z.leb_spec (score_needed st) (expected_score best)) as [Hle|Hgt].
      - destruct (hand_type best) as [ht|] eqn:Eht.
        + exists (T_can_win ht). repeat apply conj; done.
        + destruct Hnot. right. split; [by apply Hty|].
          unfold score_needed in *. 
          assert (hand st = []) as Hh by by apply Hty.
          revert Hbest. unfold find_best_play, find_best_play_ids. rewrite Hh. cbn.
          intros [= <-]. cbn in Hle. lia.
      - destruct (Z.leb_spec (score_needed st)
                    (expected_score best * hands_remaining st)) as [Hle2|Hgt2].
        + assert (2 ≤ hands_remaining st) as Hhr by nia.
          unfold py_floordiv. destruct (Z.eqb_spec (hands_remaining st) 0); [lia|].
          cbn [mbind result_bind].
          exists (T_per_hand (score_needed st / hands_remaining st)).
          repeat apply conj; try done.
          intros q [= <-]. repeat apply conj; try lia.
          * apply Z.div_pos; lia.
          * apply Z.div_le_upper_bound; lia.
        + exists T_hard. repeat apply conj; done. }
    cbn [mbind result_bind].
    assert (∀ t, t ∈ t2 ++ [t3] ↔ t ∈ t2 ∨ t = t3) as Hin.
    { intros t. rewrite elem_of_app, list_elem_of_singleton. done. }
    destruct (jokers st) as [|j js].
    + exists (t2 ++ [t3]), best. repeat apply conj; try done.
      * rewrite length_app. cbn. lia.
      * rewrite length_app. cbn. lia.
      * intros [H|H]%Hin; [by apply A2 | done].
      * intros H. apply Hin. left. by apply A2.
      * intros [H|H]%Hin; [by apply B2 | done].
      * intros H. apply Hin. left. by apply B2.
      * intros q [H|H]%Hin; [by destruct (C2 q) | by apply N4].
    + exists ((t2 ++ [t3]) ++ [T_jokers (map name (take 3 (j :: js)))]), best.
      assert (∀ t, t ∈ (t2 ++ [t3]) ++ [T_jokers (map name (take 3 (j :: js)))]
                   ↔ t ∈ t2 ∨ t = t3 ∨ t = T_jokers (map name (take 3 (j :: js))))
        as Hin'.
      { intros t. rewrite elem_of_app, Hin, list_elem_of_singleton. tauto. }
      repeat apply conj; try done.
      * rewrite !length_app. cbn. lia.
      * rewrite !length_app. cbn. lia.
      * intros [H|[H|H]]%Hin'; [by apply A2 | done | done].
      * intros H. apply Hin'. left. by apply A2.
      * intros [H|[H|H]]%Hin'; [by apply B2 | done | done].
      * intros H. apply Hin'. left. by apply B2.
      * intros q [H|[H|H]]%Hin'; [by destruct (C2 q) | by apply N4 | done].
Qed.

Lemma get_quick_tips_spec_witness :
  get_quick_tips (Some (state_with [] [] 4 3 300 300)) = Raise AttributeError.
Proof.
  apply (proj1 (get_quick_tips_spec (state_with [] [] 4 3 300 300))).
  right. split; reflexivity.
Defined.

(** X19. [get_recommendation] raises [ValueError] without a state. With a
    state it always comes to an end and, returning or raising, leaves that
    state as it was. What it returns is the strategy of [calculate_strategy]
    with the first action of that strategy, or, when the strategy has no
    action, with the best play of the state as it was before the call. *)
Theorem get_recommendation_spec (self : Recommender) (h : Heap) :
  (current_state self = None →
   get_recommendation self h = (Some (Raise ValueError), h))
  ∧ (get_recommendation self h).1 ≠ None
  ∧ (∀ st, current_state self = Some st → valid_state h st →
       snapshot (get_recommendation self h).2 st = snapshot h st
       ∧ ∀ a s, (get_recommendation self h).1 = Some (Ok (a, s)) →
           (calculate_strategy st h).1 = Some (Ok s)
           ∧ a = match actions s with
                 | first :: _ => Some first
                 | [] => find_best_play (snapshot h st)
                 end).
Proof.
  unfold get_recommendation. split_and!.
  - by intros ->.
  - destruct (current_state self) as [st|]; [|done].
    pose proof (calculate_strategy_ends st h) as He.
    destruct (calculate_strategy st h) as [[[s|e]|] h']; cbn in *; [|done..].
    by destruct (actions s).
  - intros st -> Hv.
    pose proof (snapshot_preserved _ _ st (calculate_strategy_preserved st h) Hv)
      as Hsnap.
    destruct (calculate_strategy st h) as [[[s|e]|] h']; cbn in *; [|done..].
    destruct (actions s) as [|first rest] eqn:Ea; cbn.
    + split; [done|]. intros a s' [= <- <-]. by rewrite Ea, Hsnap.
    + split; [done|]. intros a s' [= <- <-]. by rewrite Ea.
Qed.

Lemma get_recommendation_spec_witness :
  get_recommendation Recommender_new (heap_with scenario_hand [] 4 3 300 0)
  = (Some (Raise ValueError), heap_with scenario_hand [] 4 3 300 0).
Proof.
  apply (proj1 (get_recommendation_spec Recommender_new
                  (heap_with scenario_hand [] 4 3 300 0))).
  reflexivity.
Defined.

End AdvisorFacts.

(** ** Copies of a state *)

Module CopyFacts.

Import Scenarios HeapFacts.

Lemma copy_then_touch_preserved self h h2 :
  touches_only (copy self h).1 (copy self h).2 h2 → preserved h h2.
Proof.
  pose proof (copy_spec self h) as Hs. destruct (copy self h) as [sim h1].
  destruct Hs as ([L1 O1] & Hsim & Hhand & _). cbn.
  intros (L2 & O2 & _).
  split; intros l Hl.
  - rewrite L2, L1; [done..|]. intros ->. rewrite Hhand in Hl. by destruct Hl.
  - rewrite O2, O1; [done..|]. intros ->. rewrite Hsim in Hl. by destruct Hl.
Qed.

(** X20. [GameState.copy] is a deep copy: the copy is another object than
    the original, with another list object for its hand, and reads as the
    original did; the original still reads the same, also after the copy
    has lost a hand, a discard and any cards of its hand. *)
Theorem copy_is_deep (self : loc) (h : Heap) (cs : list Card) :
  valid_state h self →
  (copy self h).1 ≠ self
  ∧ o_hand (read_obj (copy self h).2 (copy self h).1) ≠ o_hand (read_obj h self)
  ∧ snapshot (copy self h).2 (copy self h).1 = snapshot h self
  ∧ snapshot (copy self h).2 self = snapshot h self
  ∧ snapshot
      (hand_remove_all (copy self h).1 cs
         (dec_discards_remaining (copy self h).1
            (dec_hands_remaining (copy self h).1 (copy self h).2))) self
    = snapshot h self.
Proof.
  intros Hv.
  pose proof (copy_then_touch_preserved self h) as Ht.
  pose proof (copy_spec self h) as Hs.
  destruct (copy self h) as [sim h1]. cbn [fst snd] in *.
  destruct Hs as (Hp & Hsim & Hhand & Hsnap).
  destruct Hv as (o & Ho & [x Hx] & Hd & Hc).
  split_and!.
  - intros ->. congruence.
  - intros E. rewrite E in Hhand.
    assert (read_obj h self = o) as Hr by by apply lookup_total_correct.
    rewrite Hr in Hhand. congruence.
  - done.
  - apply snapshot_preserved; [done|]. by exists o.
  - apply snapshot_preserved; [|by exists o]. apply Ht.
    eapply touches_only_trans; [apply dec_hands_remaining_touches|].
    eapply touches_only_trans; [apply dec_discards_remaining_touches|].
    apply hand_remove_all_touches.
Qed.

Lemma copy_is_deep_witness :
  (copy 1%positive (heap_with scenario_hand [] 4 3 300 0)).1 ≠ 1%positive
  ∧ snapshot
      (hand_remove_all (copy 1%positive (heap_with scenario_hand [] 4 3 300 0)).1
         two_pair_cards
         (dec_discards_remaining (copy 1%positive (heap_with scenario_hand [] 4 3 300 0)).1
            (dec_hands_remaining (copy 1%positive (heap_with scenario_hand [] 4 3 300 0)).1
               (copy 1%positive (heap_with scenario_hand [] 4 3 300 0)).2))) 1%positive
    = snapshot (heap_with scenario_hand [] 4 3 300 0) 1%positive.
Proof.
  destruct (copy_is_deep 1%positive (heap_with scenario_hand [] 4 3 300 0)
              two_pair_cards (heap_with_valid _ _ _ _ _ _)) as (H1 & _ & _ & _ & H5).
  split; [exact H1 | exact H5].
Defined.

End CopyFacts.

(** ** Discards *)

Module DiscardFacts.

Import HandEvaluator Optimizer Scenarios AccountFacts.

Lemma collect_elem {A B} (f : A → result (list B)) l ys y :
  collect f l = Ok ys → y ∈ ys → ∃ x zs, x ∈ l ∧ f x = Ok zs ∧ y ∈ zs.
Proof.
  revert ys. induction l as [|x l IH]; intros ys; cbn.
  - intros [= <-] H. by apply elem_of_nil in H.
  - destruct (f x) as [zs|] eqn:Ef; [|done]. cbn.
    destruct (collect f l) as [ws|]; [|done]. cbn.
    intros [= <-] [H|H]%elem_of_app.
    + exists x, zs. split_and!; [by left|done|done].
    + destruct (IH ws eq_refl H) as (x' & zs' & ? & ? & ?).
      exists x', zs'. split_and!; [by right|done|done].
Qed.

Lemma sublist_filter {A} (P : A → Prop) `{!∀ x, Decision (P x)} (l : list A) :
  sublist (filter P l) l.
Proof.
  induction l as [|x l IH]; [done|].
  destruct (decide (P x)).
  - rewrite filter_cons_True by done. by constructor.
  - rewrite filter_cons_False by done. by constructor.
Qed.

Lemma sublist_take_of {A} n (l k : list A) : sublist l k → sublist (take n l) k.
Proof. intros H. etrans; [apply sublist_take|done]. Qed.

Lemma sublist_slice_to {A} n (l k : list A) : sublist l k → sublist (slice_to n l) k.
Proof. intros H. unfold slice_to. case_match; by apply sublist_take_of. Qed.

Lemma not_in_sublist keep hand : sublist (not_in keep hand) hand.
Proof. apply sublist_filter. Qed.

Lemma not_in_apart keep hand c k :
  c ∈ not_in keep hand → k ∈ keep → Card_eq c k = false.
Proof.
  unfold not_in. intros [Hc _]%list_elem_of_filter Hk.
  destruct (Card_eq c k) eqn:E; [|done].
  assert (existsb (Card_eq c) keep = true) as Hx.
  { apply existsb_exists. exists k. split; [by apply list_elem_of_In|done]. }
  congruence.
Qed.

Lemma of_rank_subseteq r hand : of_rank r hand ⊆ hand.
Proof. intros c [_ ?]%list_elem_of_filter. done. Qed.

Lemma one_of_each_subseteq window hand : one_of_each window hand ⊆ hand.
Proof.
  intros c Hc. unfold one_of_each in Hc.
  apply list_elem_of_In, in_flat_map in Hc as (r & _ & Hc).
  apply list_elem_of_In in Hc. apply of_rank_subseteq with r.
  eapply subseteq_take, Hc.
Qed.

Lemma sublist_elem {A} (l k : list A) x : sublist l k → x ∈ l → x ∈ k.
Proof. intros H Hx. by eapply (sublist_subseteq l k). Qed.

Lemma straight_loop4_sound st ranks idxs p :
  straight_loop4 st ranks idxs = Ok (Some p) → sound_potential st p.
Proof.
  induction idxs as [|i idxs IH]; [done|]. cbn [straight_loop4]. cbv zeta.
  case_match; [|done].
  match goal with |- context [match ?n with Some _ => _ | None => _ end] =>
    destruct n as [needed|] end; [|done].
  case_match; [done|].
  destruct (_calculate_draw_probability _ _ _) as [prob|]; [|done]. cbn.
  destruct (_estimate_hand_score _ _ _) as [est|] eqn:Eest; [|done]. cbn.
  intros [= <-]. unfold sound_potential. cbn. split_and!.
  - apply sublist_take_of, not_in_sublist.
  - apply one_of_each_subseteq.
  - intros c k Hc%subseteq_take Hk. by eapply not_in_apart.
  - by eexists.
Qed.

Lemma straight_loop3_sound st ranks idxs p :
  straight_loop3 st ranks idxs = Ok (Some p) → sound_potential st p.
Proof.
  induction idxs as [|i idxs IH]; [done|]. cbn [straight_loop3]. cbv zeta.
  case_match; [|done].
  destruct (_calculate_draw_probability _ _ _) as [prob|]; [|done]. cbn.
  case_match; [|done].
  destruct (_estimate_hand_score _ _ _) as [est|] eqn:Eest; [|done]. cbn.
  intros [= <-]. unfold sound_potential. cbn. split_and!.
  - apply sublist_take_of, not_in_sublist.
  - apply one_of_each_subseteq.
  - intros c k Hc%subseteq_take Hk. by eapply not_in_apart.
  - by eexists.
Qed.

Lemma flush_potential_sound st sc ps p :
  flush_potential st sc = Ok ps → p ∈ ps → sound_potential st p.
Proof.
  unfold flush_potential. destruct sc as [s count].
  case_match; [|intros [= <-] Hnil; by apply elem_of_nil in Hnil].
  destruct (_calculate_draw_probability _ _ _) as [prob|]; [|done]. cbn.
  case_match; [|intros [= <-] Hnil; by apply elem_of_nil in Hnil].
  destruct (_estimate_hand_score _ _ _) as [est|] eqn:Eest; [|done]. cbn.
  intros [= <-] ->%list_elem_of_singleton. unfold sound_potential. cbn. split_and!.
  - apply sublist_slice_to, sublist_take_of, sublist_filter.
  - intros c [_ ?]%list_elem_of_filter. done.
  - intros c k Hc Hk.
    assert (c ∈ filter (λ c, suit c ≠ s) (hand st)) as Hc'.
    { eapply sublist_elem; [|exact Hc]. apply sublist_slice_to, sublist_take. }
    apply list_elem_of_filter in Hc' as [Hs _].
    apply list_elem_of_filter in Hk as [Hk _].
    destruct (Card_eq c k) eqn:E; [|done].
    apply Card_eq_spec in E as (_ & E & _). congruence.
  - by eexists.
Qed.

Lemma rank_potential_sound st r n hand_type cards_needed prob est reasoning :
  _estimate_hand_score st hand_type (Some (of_rank r (hand st))) = Ok est →
  sound_potential st
    (mkPotentialHand hand_type cards_needed
       (take n (filter (λ c, rank c ≠ r) (hand st))) (of_rank r (hand st))
       prob est reasoning).
Proof.
  intros Eest. unfold sound_potential. cbn. split_and!.
  - apply sublist_take_of, sublist_filter.
  - apply of_rank_subseteq.
  - intros c k Hc%subseteq_take Hk.
    apply list_elem_of_filter in Hc as [Hc _].
    apply list_elem_of_filter in Hk as [Hk _].
    destruct (Card_eq c k) eqn:E; [|done].
    apply Card_eq_spec in E as (E & _). congruence.
  - by eexists.
Qed.

Lemma quads_potential_sound st rc ps p :
  quads_potential st rc = Ok ps → p ∈ ps → sound_potential st p.
Proof.
  unfold quads_potential. destruct rc as [r count].
  case_match; [|intros [= <-] Hnil; by apply elem_of_nil in Hnil].
  destruct (_calculate_draw_probability _ _ _) as [prob|]; [|done]. cbn.
  destruct (_estimate_hand_score _ _ _) as [est|] eqn:Eest; [|done]. cbn.
  intros [= <-] ->%list_elem_of_singleton. by apply rank_potential_sound.
Qed.

Lemma trips_potential_sound st rc ps p :
  trips_potential st rc = Ok ps → p ∈ ps → sound_potential st p.
Proof.
  unfold trips_potential. destruct rc as [r count].
  case_match; [|intros [= <-] Hnil; by apply elem_of_nil in Hnil].
  destruct (_calculate_draw_probability _ _ _) as [prob|]; [|done]. cbn.
  destruct (_estimate_hand_score _ _ _) as [est|] eqn:Eest; [|done]. cbn.
  intros [= <-] ->%list_elem_of_singleton. by apply rank_potential_sound.
Qed.

Lemma full_house_potential_sound st rcs ps p :
  full_house_potential st rcs = Ok ps → p ∈ ps → sound_potential st p.
Proof.
  unfold full_house_potential. cbv zeta.
  case_match; [|intros [= <-] Hnil; by apply elem_of_nil in Hnil].
  assert (∀ est sc, _estimate_hand_score st FULL_HOUSE (Some sc) = Ok est →
            sound_potential st
              (mkPotentialHand FULL_HOUSE 0 [] (hand st) 1 est R_full_house_made))
    as Hmade.
  { intros est sc Eest. unfold sound_potential. cbn. split_and!.
    - apply sublist_nil_l.
    - done.
    - intros c k Hc. by apply elem_of_nil in Hc.
    - by eexists. }
  set (twos := filter (λ p, snd p = 2) (filter (λ rc, 2 ≤ snd rc) rcs)).
  assert ((if 2 <=? len twos
           then
             prob ← _calculate_draw_probability 1 4 (52 - 8);
             est ← _estimate_hand_score st FULL_HOUSE
                     (Some (of_rank (default 0 (fst <$> max_by fst twos)) (hand st)
                            ++ of_rank (default 0 (fst <$> min_by fst twos)) (hand st)));
             Ok [mkPotentialHand FULL_HOUSE 1
                   (take (length (not_in
                            (of_rank (default 0 (fst <$> max_by fst twos)) (hand st)
                             ++ of_rank (default 0 (fst <$> min_by fst twos)) (hand st))
                            (hand st)))
                      (not_in
                         (of_rank (default 0 (fst <$> max_by fst twos)) (hand st)
                          ++ of_rank (default 0 (fst <$> min_by fst twos)) (hand st))
                         (hand st)))
                   (of_rank (default 0 (fst <$> max_by fst twos)) (hand st)
                    ++ of_rank (default 0 (fst <$> min_by fst twos)) (hand st))
                   prob est
                   (R_two_pairs (default 0 (fst <$> max_by fst twos))
                      (default 0 (fst <$> min_by fst twos)))]
           else Ok []) = Ok ps → p ∈ ps → sound_potential st p) as Htwo.
  { case_match; [|intros [= <-] Hnil; by apply elem_of_nil in Hnil].
    destruct (_calculate_draw_probability _ _ _) as [prob|]; [|done]. cbn.
    destruct (_estimate_hand_score _ _ _) as [est|] eqn:Eest; [|done]. cbn.
    intros [= <-] ->%list_elem_of_singleton. unfold sound_potential. cbn. split_and!.
    - apply sublist_take_of, not_in_sublist.
    - intros c [Hc|Hc]%elem_of_app; by eapply of_rank_subseteq.
    - intros c k Hc%subseteq_take Hk. exact (not_in_apart _ _ c k Hc Hk).
    - by eexists. }
  destruct (filter (λ p, 3 ≤ snd p) (filter (λ rc, 2 ≤ snd rc) rcs)) as [|t ts];
    [exact Htwo|].
  fold twos. destruct twos as [|w ws] eqn:Etwos; [exact Htwo|]. clear Htwo.
  destruct (_estimate_hand_score st FULL_HOUSE (Some (take 5 (hand st)))) as [est|]
    eqn:Eest; [|done]. cbn.
  intros [= <-] ->%list_elem_of_singleton. by eapply Hmade.
Qed.

Lemma analyze_potential_hands_sound st ps p :
  analyze_potential_hands st = Ok ps → p ∈ ps → sound_potential st p.
Proof.
  unfold analyze_potential_hands. cbv zeta.
  destruct (collect (flush_potential st) _) as [p1|] eqn:E1; [|done]. cbn.
  destruct (_find_straight_potential st _) as [sp|] eqn:E2; [|done]. cbn.
  destruct (collect (quads_potential st) _) as [p3|] eqn:E3; [|done]. cbn.
  destruct (full_house_potential st _) as [p4|] eqn:E4; [|done]. cbn.
  destruct (collect (trips_potential st) _) as [p5|] eqn:E5; [|done]. cbn.
  intros [= <-] Hp. rewrite stable_sort_perm in Hp.
  rewrite !elem_of_app in Hp. destruct Hp as [Hp|[Hp|[Hp|[Hp|Hp]]]].
  - destruct (collect_elem _ _ _ _ E1 Hp) as (x & zs & _ & Hx & Hz).
    by eapply flush_potential_sound.
  - destruct sp as [q|]; [|by apply elem_of_nil in Hp].
    apply list_elem_of_singleton in Hp as ->.
    revert E2. unfold _find_straight_potential.
    destruct (straight_loop4 st _ _) as [[q4|]|] eqn:E4'; cbn; [| |done].
    + intros [= <-]. by eapply straight_loop4_sound.
    + intros E. by eapply straight_loop3_sound.
  - destruct (collect_elem _ _ _ _ E3 Hp) as (x & zs & _ & Hx & Hz).
    by eapply quads_potential_sound.
  - by eapply full_house_potential_sound.
  - destruct (collect_elem _ _ _ _ E5 Hp) as (x & zs & _ & Hx & Hz).
    by eapply trips_potential_sound.
Qed.

Lemma sort_insert_sorted_Q {A} (v : A → Q) x l :
  StronglySorted (λ a b, v b <= v a)%Q l →
  StronglySorted (λ a b, v b <= v a)%Q
    (sort_insert (λ a b, negb (Qle_bool (v a) (v b))) x l).
Proof.
  induction 1 as [|y l Hl IH Hy]; cbn.
  - repeat constructor.
  - destruct (Qle_bool (v y) (v x)) eqn:E; cbn.
    + apply Qle_bool_iff in E.
      constructor; [by constructor|].
      constructor; [done|]. eapply Forall_impl; [exact Hy|]. cbn.
      intros z Hz. by eapply Qle_trans.
    + assert (v x <= v y)%Q as Hxy.
      { apply Qlt_le_weak, Qnot_le_lt. rewrite <- Qle_bool_iff. congruence. }
      constructor; [done|]. rewrite sort_insert_perm. by constructor.
Qed.

Lemma stable_sort_sorted_Q {A} (v : A → Q) l :
  StronglySorted (λ a b, v b <= v a)%Q
    (stable_sort (λ a b, negb (Qle_bool (v a) (v b))) l).
Proof.
  induction l as [|x l IH]; cbn; [constructor | by apply sort_insert_sorted_Q].
Qed.

(** X21. Every potential hand that [analyze_potential_hands] returns
    discards cards of the hand, in the order they have in the hand, keeps
    cards of the hand, and discards no card equal to one it keeps; the
    list is in descending order of expected score times probability; and
    a potential hand is only ever returned when no joker is held. *)
Theorem analyze_potential_hands_spec (st : GameState) (ps : list PotentialHand) :
  analyze_potential_hands st = Ok ps →
  (∀ p, p ∈ ps → sound_potential st p)
  ∧ StronglySorted (λ a b, potential_value b <= potential_value a)%Q ps
  ∧ (ps ≠ [] → jokers st = []).
Proof.
  intros Hps. split_and!.
  - intros p Hp. by eapply analyze_potential_hands_sound.
  - revert Hps. unfold analyze_potential_hands. cbv zeta.
    destruct (collect (flush_potential st) _) as [p1|]; [|done]. cbn.
    destruct (_find_straight_potential st _) as [sp|]; [|done]. cbn.
    destruct (collect (quads_potential st) _) as [p3|]; [|done]. cbn.
    destruct (full_house_potential st _) as [p4|]; [|done]. cbn.
    destruct (collect (trips_potential st) _) as [p5|]; [|done]. cbn.
    intros [= <-]. apply stable_sort_sorted_Q.
  - intros Hne. destruct ps as [|p ps']; [done|].
    destruct (analyze_potential_hands_sound st (p :: ps') p Hps ltac:(by left))
      as (_ & _ & _ & sc & Hsc).
    destruct (jokers st) as [|j js] eqn:Ej; [done|].
    rewrite EstimatorFacts._estimate_hand_score_jokers in Hsc; [done|].
    by rewrite Ej.
Qed.

Lemma analyze_potential_hands_spec_witness :
  ∃ p ps, analyze_potential_hands scenario_state = Ok (p :: ps)
          ∧ sound_potential scenario_state p.
Proof.
  destruct (analyze_potential_hands scenario_state) as [[|p ps]|] eqn:E;
    [vm_compute in E; discriminate | | vm_compute in E; discriminate].
  exists p, ps. split; [reflexivity|].
  destruct (analyze_potential_hands_spec scenario_state (p :: ps) E) as (H & _).
  apply H. by left.
Defined.

(** X22. [find_best_discard] returns a DISCARD of at most five cards, all
    of them cards of the hand, and of no card at all when the state has no
    discard left or no card in hand. *)
Theorem find_best_discard_spec (st : GameState) (a : Action) :
  find_best_discard st = Ok a →
  action_type a = DISCARD
  ∧ (length (cards a) ≤ 5)%nat
  ∧ cards a ⊆ hand st
  ∧ (discards_remaining st ≤ 0 ∨ hand st = [] → cards a = []).
Proof.
  intros Ha. split; [by eapply find_best_discard_is_discard|].
  revert Ha. unfold find_best_discard.
  destruct (can_discard st) eqn:Ecd; cbn.
  2:{ intros [= <-]. cbn. split_and!; [lia | by intros c ?%elem_of_nil | done]. }
  assert (¬ (discards_remaining st ≤ 0 ∨ hand st = [])) as Hcan.
  { unfold can_discard in Ecd. apply andb_true_iff in Ecd as [H1 H2].
    intros [H|H]; [lia|]. rewrite H in H2. done. }
  destruct (find_best_play_ids st) as [[ids best]|]; [|done].
  set (candidates := map snd (filter (λ ic, ic.1 ∉ ids) (indexed (hand st)))).
  assert (candidates ⊆ hand st) as Hcand.
  { intros c Hc. subst candidates.
    apply list_elem_of_fmap in Hc as ([i c'] & -> & [_ Hc]%list_elem_of_filter).
    rewrite <- (AllPlaysFacts.snd_indexed (hand st)).
    apply list_elem_of_fmap. by exists (i, c'). }
  intros Ha.
  assert (_analyze_discards st (hand st) candidates = Ok a
          ∨ a = mkAction DISCARD [] 0 None R_all_useful 1 []) as [Han | ->].
  { destruct candidates; [right; by injection Ha | by left]. }
  2:{ cbn. split_and!; [lia | by intros c ?%elem_of_nil | done]. }
  clear Ha. revert Han. unfold _analyze_discards.
  destruct (analyze_potential_hands st) as [ps|] eqn:Eps; [|done]. cbn.
  cbv zeta.
  set (fallback := mkAction DISCARD _ 0 None _ 1 (take 3 ps)).
  assert ((length (cards fallback) ≤ 5)%nat ∧ cards fallback ⊆ hand st) as [F1 F2].
  { subst fallback. cbn [cards]. split.
    - rewrite length_map, length_take. etrans; [apply Nat.le_min_l|].
      exact (Nat.le_min_l 5 _).
    - intros c Hc. apply Hcand.
      apply list_elem_of_fmap in Hc as ([v c'] & -> & Hc%subseteq_take).
      rewrite stable_sort_perm in Hc.
      apply list_elem_of_fmap in Hc as (c'' & [= _ ->] & Hc). done. }
  clearbody fallback.
  destruct ps as [|p ps'].
  { intros [= <-]. split_and!; [done | done | by intros ?]. }
  case_match.
  - intros [= <-]. cbn [cards]. split_and!.
    + rewrite length_take. lia.
    + destruct (analyze_potential_hands_sound st (p :: ps') p Eps ltac:(by left))
        as (Hsub & _).
      intros c Hc%subseteq_take. by eapply sublist_elem.
    + by intros ?.
  - intros [= <-]. split_and!; [done | done | by intros ?].
Qed.

Lemma find_best_discard_spec_witness :
  ∃ a, find_best_discard scenario_state = Ok a
       ∧ action_type a = DISCARD ∧ cards a ⊆ scenario_hand.
Proof.
  destruct (find_best_discard scenario_state) as [a|] eqn:E;
    [|vm_compute in E; discriminate].
  exists a.
  destruct (find_best_discard_spec scenario_state a E) as (H1 & _ & H3 & _).
  split_and!; [reflexivity | exact H1 | exact H3].
Defined.

End DiscardFacts.

(** ** Hands made of cards of one rank *)

Module RankGroupFacts.

Import HandEvaluator Scenarios ScoringCardsFacts.

Lemma counter_add_get {K} `{EqDecision K} (k k' : K) (m : list (K * Z)) :
  assoc_get k' (counter_add k m) 0
  = assoc_get k' m 0 + (if decide (k = k') then 1 else 0).
Proof.
  induction m as [|[k0 n] m IH]; cbn.
  - destruct (decide (k' = k)) as [->|Hne].
    + by rewrite decide_True.
    + rewrite decide_False by done. done.
  - destruct (decide (k = k0)) as [->|Hne]; cbn.
    + destruct (decide (k' = k0)) as [->|Hne'].
      * by rewrite decide_True.
      * rewrite decide_False by done. lia.
    + destruct (decide (k' = k0)) as [->|Hne'].
      * rewrite decide_False by done. lia.
      * apply IH.
Qed.

Lemma Counter_get {K} `{EqDecision K} (l : list K) (k : K) :
  assoc_get k (Counter l) 0 = len (filter (λ x, x = k) l).
Proof.
  unfold Counter.
  assert (∀ m, assoc_get k (fold_left (λ m k, counter_add k m) l m) 0
               = assoc_get k m 0 + len (filter (λ x, x = k) l)) as Hgen.
  { induction l as [|x l IH]; intros m; [cbn; unfold len; cbn; lia|].
    cbn [fold_left]. rewrite IH, counter_add_get. unfold len.
    destruct (decide (x = k)) as [->|Hne].
    - rewrite filter_cons_True by done. cbn. lia.
    - rewrite filter_cons_False by done. lia. }
  rewrite Hgen. done.
Qed.

Lemma Counter_entry {K} `{EqDecision K} (l : list K) (k : K) (v : Z) :
  (k, v) ∈ Counter l → v = len (filter (λ x, x = k) l).
Proof.
  intros Hin. rewrite <- Counter_get.
  symmetry. apply assoc_get_lookup; [|done]. apply Counter_keys.
Qed.

Lemma of_rank_count r cards :
  len (of_rank r cards) = len (filter (λ x, x = r) (ranks_of cards)).
Proof.
  unfold of_rank, ranks_of, len. f_equal.
  induction cards as [|c cards IH]; [done|]. cbn [map].
  destruct (decide (rank c = r)).
  - rewrite !filter_cons_True by done. cbn. lia.
  - rewrite !filter_cons_False by done. done.
Qed.

(** [n] cards of rank [r] taken from [cards]. *)
Lemma group_of_entry n r v cards :
  (r, v) ∈ Counter (ranks_of cards) → Z.of_nat n ≤ v →
  of_a_kind n r cards (take n (of_rank r cards)).
Proof.
  intros Hin Hv. apply Counter_entry in Hin. rewrite <- of_rank_count in Hin.
  unfold of_a_kind. split_and!.
  - rewrite length_take. unfold len in Hin. lia.
  - etrans; [apply sublist_take|]. apply DiscardFacts.sublist_filter.
  - apply Forall_forall. intros c Hc%subseteq_take.
    by apply list_elem_of_filter in Hc as [? _].
Qed.

Lemma ranks_with_entry n rank_counts r :
  r ∈ ranks_with n rank_counts → ∃ v, (r, v) ∈ rank_counts ∧ n ≤ v.
Proof.
  unfold ranks_with. intros ([r' v] & -> & [Hv Hin]%list_elem_of_filter)%list_elem_of_fmap.
  by exists v.
Qed.

Lemma hd_ranks_with n rank_counts :
  n ≤ hd 0 (sorted_desc (map snd rank_counts)) → 0 < n →
  hd 0 (ranks_with n rank_counts) ∈ ranks_with n rank_counts.
Proof.
  intros Hn Hpos. destruct (top_count_entry _ _ Hn Hpos) as (r & v & Hin & Hv).
  assert (r ∈ ranks_with n rank_counts) as Hr.
  { unfold ranks_with. apply list_elem_of_fmap. exists (r, v). split; [done|].
    apply list_elem_of_filter. by split. }
  destruct (ranks_with n rank_counts); [by apply elem_of_nil in Hr | by left].
Qed.

Lemma max_by_max {A} (key : A → Z) (l : list A) x :
  max_by key l = Some x → x ∈ l ∧ ∀ y, y ∈ l → key y ≤ key x.
Proof.
  unfold max_by.
  set (f := λ (best : option A) (x : A),
              match best with
              | None => Some x
              | Some b => if key b <? key x then Some x else Some b
              end).
  assert (∀ l0 b x, fold_left f l0 (Some b) = Some x →
                    (x ∈ l0 ∨ x = b) ∧ key b ≤ key x
                    ∧ ∀ y, y ∈ l0 → key y ≤ key x) as Hgen.
  { induction l0 as [|y l0 IH]; intros b x0; cbn.
    - intros [= <-]. split_and!; [by right | lia | by intros ? ?%elem_of_nil].
    - destruct (Z.ltb_spec (key b) (key y)) as [Hlt|Hge]; intros Hf;
        destruct (IH _ _ Hf) as (Hin & Hb & Hall).
      + split_and!.
        * left. destruct Hin as [?| ->]; [by right | by left].
        * lia.
        * intros z [->|Hz]%elem_of_cons; [done | by apply Hall].
      + split_and!.
        * destruct Hin as [?| ->]; [left; by right | by right].
        * done.
        * intros z [->|Hz]%elem_of_cons; [lia | by apply Hall]. }
  destruct l as [|y l]; [done|]. cbn. intros Hf.
  destruct (Hgen _ _ _ Hf) as (Hin & Hb & Hall). split.
  - destruct Hin as [?| ->]; [by right | by left].
  - intros z [->|Hz]%elem_of_cons; [done | by apply Hall].
Qed.

Lemma NoDup_of_counts (l : list Z) :
  (∀ k, len (filter (λ x, x = k) l) ≤ 1) → NoDup l.
Proof.
  induction l as [|x l IH]; intros H; [constructor|].
  constructor.
  - intros Hin. specialize (H x). rewrite filter_cons_True in H by done.
    assert (x ∈ filter (λ y, y = x) l) as Hx by by apply list_elem_of_filter.
    destruct (filter (λ y, y = x) l); [by apply elem_of_nil in Hx|].
    unfold len in H. cbn in H. lia.
  - apply IH. intros k. specialize (H k). unfold len in *.
    destruct (decide (x = k)).
    + rewrite filter_cons_True in H by done. cbn in H. lia.
    + by rewrite filter_cons_False in H.
Qed.

Lemma ranks_with_NoDup n l : NoDup (ranks_with n (Counter l)).
Proof.
  unfold ranks_with.
  pose proof (proj1 (Counter_keys l)) as Hnd. revert Hnd.
  generalize (Counter l). intros m.
  induction m as [|[r v] m IH]; [constructor|].
  cbn [map]. intros [Hr Hm]%NoDup_cons.
  destruct (decide (n ≤ v)).
  - rewrite filter_cons_True by done. cbn [map fst]. constructor; [|by apply IH].
    intros (x & E & [_ Hx]%list_elem_of_filter)%list_elem_of_fmap.
    apply Hr. apply list_elem_of_fmap. by exists x.
  - rewrite filter_cons_False by done. by apply IH.
Qed.

Lemma ranks_with_group n k r cards :
  r ∈ ranks_with n (Counter (ranks_of cards)) → Z.of_nat k ≤ n →
  of_a_kind k r cards (take k (of_rank r cards)).
Proof.
  intros (v & Hin & Hv)%ranks_with_entry Hk.
  eapply group_of_entry; [done | lia].
Qed.

Lemma second_count (rank_counts : list (Z * Z)) :
  2 ≤ len (sorted_desc (map snd rank_counts)) →
  2 ≤ hd 0 (sorted_desc (map snd rank_counts)) →
  2 ≤ nth 1 (sorted_desc (map snd rank_counts)) 0 →
  (2 ≤ length (ranks_with 2 rank_counts))%nat.
Proof.
  intros Hlen H0 H1. unfold ranks_with. rewrite length_map.
  assert (length (filter (λ rc, 2 ≤ rc.2) rank_counts)
          = length (filter (λ v, 2 ≤ v) (map snd rank_counts))) as ->.
  { clear. induction rank_counts as [|[r v] m IH]; [done|]. cbn [map snd].
    destruct (decide (2 ≤ v)).
    - rewrite !filter_cons_True by done. cbn. by rewrite IH.
    - rewrite !filter_cons_False by done. done. }
  rewrite <- (stable_sort_perm Z.gtb (map snd rank_counts)).
  fold (sorted_desc (map snd rank_counts)).
  destruct (sorted_desc (map snd rank_counts)) as [|v0 [|v1 vs]];
    [unfold len in Hlen; cbn in Hlen; lia..|].
  cbn in H0, H1. rewrite !filter_cons_True by done. cbn. lia.
Qed.

(** X23. The scoring cards of the hand types named after groups of equal
    rank are such groups: a Pair is two cards of one rank, Three, Four and
    Five of a Kind are three, four and five, Two Pair is two cards of a rank
    followed by two of a lower rank, a Full House three cards of a rank
    followed by two of another; each group is made of cards of the hand in
    the order of the hand. High Card is given to no cards at all, or to
    cards of pairwise different ranks, with a card of the highest rank as
    the one scoring card. *)
Theorem get_hand_type_rank_groups (cards : list Card) :
  rank_groups cards (get_hand_type cards).1 (get_hand_type cards).2.
Proof.
  assert (∀ ht sc, get_hand_type cards = (ht, sc) → rank_groups cards ht sc) as H.
  2:{ apply H. by destruct (get_hand_type cards). }
  intros ht sc. unfold get_hand_type.
  destruct (Z.eqb_spec (len cards) 0) as [Hz|Hnz].
  { intros [= <- <-]. left. split; [|done].
    destruct cards; [done|]. unfold len in Hz. cbn in Hz. lia. }
  cbv zeta.
  set (rc := Counter (ranks_of cards)).
  set (counts := sorted_desc (map snd rc)).
  assert (∀ n k, n ≤ hd 0 counts → 0 < n → Z.of_nat k ≤ n →
                 of_a_kind k (hd 0 (ranks_with n rc)) cards
                   (take k (of_rank (hd 0 (ranks_with n rc)) cards))) as Hgroup.
  { intros n k Hn Hpos Hk. eapply ranks_with_group; [|done].
    by apply hd_ranks_with. }
  destruct (_ && _ && (5 <=? hd 0 counts)); [by intros [= <- <-]|].
  destruct (_ && _ && bool_decide _); [by intros [= <- <-]|].
  destruct ((5 <=? len cards) && (5 <=? hd 0 counts)) eqn:E5.
  { intros [= <- <-]. apply andb_true_iff in E5 as [_ E5].
    eexists. apply (Hgroup 5 5%nat); lia. }
  destruct (_ && _ && _is_straight _).
  { case_match; by intros [= <- <-]. }
  destruct (Z.leb_spec 4 (hd 0 counts)) as [E4|E4].
  { intros [= <- <-]. eexists. apply (Hgroup 4 4%nat); lia. }
  destruct ((2 <=? len counts) && (3 <=? hd 0 counts) && (2 <=? nth 1 counts 0))
    eqn:Efh.
  { intros [= <- <-]. apply andb_true_iff in Efh as [[F1 F2]%andb_true_iff F3].
    pose proof (second_count rc ltac:(fold counts; lia) ltac:(fold counts; lia)
                  ltac:(fold counts; lia)) as Hsec.
    pose proof (ranks_with_NoDup 2 (ranks_of cards)) as Hnd. fold rc in Hnd.
    set (three := hd 0 (ranks_with 3 rc)).
    assert (hd 0 (filter (λ r, r ≠ three) (ranks_with 2 rc))
            ∈ filter (λ r, r ≠ three) (ranks_with 2 rc)) as Hpair.
    { destruct (ranks_with 2 rc) as [|x [|y l]]; [cbn in Hsec; lia..|].
      apply NoDup_cons in Hnd as [Hx _].
      destruct (decide (x = three)) as [->|Hne].
      - rewrite filter_cons_False by (intros ?; done).
        rewrite filter_cons_True; [by left|].
        intros ->. apply Hx. by left.
      - rewrite filter_cons_True by done. by left. }
    apply list_elem_of_filter in Hpair as [Hne Hpair].
    exists three, (hd 0 (filter (λ r, r ≠ three) (ranks_with 2 rc))).
    eexists _, _. split_and!; [done | done | |].
    - apply (Hgroup 3 3%nat); lia.
    - by eapply ranks_with_group. }
  destruct (is_flush_of cards); [by intros [= <- <-]|].
  destruct (_is_straight _); [by intros [= <- <-]|].
  destruct (Z.leb_spec 3 (hd 0 counts)) as [E3|E3].
  { intros [= <- <-]. eexists. apply (Hgroup 3 3%nat); lia. }
  pose proof (ranks_with_NoDup 2 (ranks_of cards)) as Hnd. fold rc in Hnd.
  destruct (Z.leb_spec 2 (len (ranks_with 2 rc))) as [E2|E2].
  { intros [= <- <-].
    pose proof (stable_sort_perm Z.gtb (ranks_with 2 rc)) as Hperm.
    pose proof (stable_sort_sorted (λ x : Z, x) (ranks_with 2 rc)) as Hsorted.
    change (stable_sort (by_key_desc (λ x : Z, x)) (ranks_with 2 rc))
      with (sorted_desc (ranks_with 2 rc)) in Hsorted.
    fold (sorted_desc (ranks_with 2 rc)) in Hperm.
    rewrite <- Hperm in Hnd.
    assert (∀ r, r ∈ sorted_desc (ranks_with 2 rc) → r ∈ ranks_with 2 rc) as Hin.
    { intros r. by rewrite Hperm. }
    assert (length (sorted_desc (ranks_with 2 rc)) = length (ranks_with 2 rc)) as Hl
      by by rewrite Hperm.
    destruct (sorted_desc (ranks_with 2 rc)) as [|r1 [|r2 rs]];
      [unfold len in E2; cbn in Hl; lia..|].
    cbn [take flat_map]. rewrite app_nil_r.
    exists r1, r2. eexists _, _.
    apply StronglySorted_inv in Hsorted as [_ Hle].
    apply Forall_cons in Hle as [Hle _].
    apply NoDup_cons in Hnd as [Hne _].
    split_and!; [|done| |].
    - assert (r1 ≠ r2) by (intros ->; apply Hne; by left). lia.
    - eapply ranks_with_group; [apply Hin; by left | done].
    - eapply ranks_with_group; [apply Hin; right; by left | done]. }
  destruct (ranks_with 2 rc) as [|r rs] eqn:Epairs.
  - intros [= <- <-]. right.
    destruct (max_by_elem rank cards) as (c & Hc & _).
    { intros ->. by apply Hnz. }
    rewrite Hc. cbn. exists c.
    destruct (max_by_max rank cards c Hc) as [Hin Hmax].
    split_and!; [done | done | done |].
    apply NoDup_of_counts. intros k.
    destruct (decide (k ∈ ranks_of cards)) as [Hk|Hk].
    + apply (proj2 (Counter_keys (ranks_of cards))) in Hk.
      apply list_elem_of_fmap in Hk as ([k' v] & -> & Hkv).
      cbn [fst]. change (map rank cards) with (ranks_of cards).
      rewrite <- (Counter_entry _ _ _ Hkv).
      destruct (Z.le_gt_cases 2 v) as [Hv|Hv]; [|lia].
      assert (k' ∈ ranks_with 2 rc) as Hr.
      { unfold ranks_with. apply list_elem_of_fmap. exists (k', v).
        split; [done|]. apply list_elem_of_filter. by split. }
      rewrite Epairs in Hr. by apply elem_of_nil in Hr.
    + change (map rank cards) with (ranks_of cards).
      assert (∀ l : list Z, k ∉ l → filter (λ x, x = k) l = []) as Hnil.
      { induction l as [|x l IH]; [done|]. intros Hx. rewrite filter_cons_False.
        - apply IH. intros ?. apply Hx. by right.
        - intros ->. apply Hx. by left. }
      by rewrite Hnil.
  - intros [= <- <-]. exists r. eapply ranks_with_group; [|done].
    change (r ∈ ranks_with 2 rc). rewrite Epairs. by left.
Qed.

End RankGroupFacts.

(** ** The verdict of a strategy *)

Module VerdictFacts.

Import Optimizer Strategist Scenarios HeapFacts StrategyFacts AccountFacts.

Lemma strategy_loop_notes fuel sim target s t h s' t' h' :
  strategy_loop fuel sim target s t h = (Some (Ok (s', t')), h') →
  discards_used s ≤ discards_used s'
  ∧ notes s' = notes s ++ replicate (Z.to_nat (discards_used s' - discards_used s)) N_discard.
Proof.
  assert (∀ s : Strategy,
            discards_used s ≤ discards_used s
            ∧ notes s = notes s
                        ++ replicate (Z.to_nat (discards_used s - discards_used s)) N_discard)
    as Hstop.
  { intros s0. rewrite Z.sub_diag. cbn. by rewrite app_nil_r. }
  revert s t h. induction fuel as [|fuel IH]; intros s t h.
  - rewrite strategy_loop_zero. case_match; [done|]. intros [= <- <- <-]. apply Hstop.
  - rewrite strategy_loop_unfold. case_match; [|intros [= <- <- <-]; apply Hstop].
    destruct (find_best_play (snapshot h sim)) as [best|]; [|done].
    assert ((let '(s1, t1, h1) := play_branch sim best s t h in
             strategy_loop fuel sim target s1 t1 h1) = (Some (Ok (s', t')), h') →
            discards_used s ≤ discards_used s'
            ∧ notes s' = notes s ++ replicate (Z.to_nat (discards_used s' - discards_used s))
                                      N_discard) as Hplay.
    { unfold play_branch. intros Hl. apply IH in Hl. exact Hl. }
    cbv zeta.
    destruct (should_discard (snapshot h sim) best); [|exact Hplay].
    destruct (find_best_discard (snapshot h sim)) as [d|e]; [|done].
    destruct (cards d); [exact Hplay|].
    unfold discard_branch. intros Hl. apply IH in Hl as [Hle Hn]. cbn in Hle, Hn.
    split; [lia|]. rewrite Hn, <- app_assoc. f_equal.
    replace (Z.to_nat (discards_used s' - discards_used s))
      with (S (Z.to_nat (discards_used s' - (discards_used s + 1)))) by lia.
    done.
Qed.

(** X24. The notes and the success probability of the strategy that
    [calculate_strategy] returns. With the target already reached it is the
    empty strategy with probability 1 and the note that the blind is won.
    Otherwise the notes are one note per discard used, followed by one
    verdict: enough hands, with probability 0.95, when the total reaches
    the target, and else the expected total against the target, with
    probability min(0.8, total / target). The verdict that there are not
    enough hands, with probability 0.0, is never given. *)
Theorem calculate_strategy_verdict (self : loc) (h : Heap) (s : Strategy) :
  valid_state h self →
  (calculate_strategy self h).1 = Some (Ok s) →
  (N_not_enough_hands ∉ notes s)
  ∧ (target_score (blind (snapshot h self)) ≤ current_score (snapshot h self) →
     s = add_note N_already_won (set_probability 1 Strategy_default))
  ∧ (current_score (snapshot h self) < target_score (blind (snapshot h self)) →
     notes s
     = replicate (Z.to_nat (discards_used s)) N_discard
       ++ [if target_score (blind (snapshot h self)) <=? total_expected_score s
           then N_enough_hands
           else N_below_target (total_expected_score s)
                  (target_score (blind (snapshot h self)))]
     ∧ success_probability s
       = if target_score (blind (snapshot h self)) <=? total_expected_score s
         then 0.95%Q
         else py_min 0.8 (inject_Z (total_expected_score s)
                          / inject_Z (target_score (blind (snapshot h self))))).
Proof.
  intros Hv Hok.
  destruct (Z.le_gt_cases (target_score (blind (snapshot h self)))
              (current_score (snapshot h self))) as [Hwon|Hlt].
  - assert (s = add_note N_already_won (set_probability 1 Strategy_default)) as ->.
    { revert Hok. unfold calculate_strategy.
      destruct (Z.leb_spec (target_score (blind (snapshot h self))
                            - current_score (snapshot h self)) 0); [|lia].
      by intros [= <-]. }
    split_and!; [|done|lia]. cbn.
    intros [?|?%elem_of_nil]%elem_of_cons; done.
  - destruct (calculate_strategy_ok self h s Hv Hlt Hok)
      as (sim & h1 & s' & t' & h2 & _ & Hs & Hl & Hcon).
    destruct (strategy_loop_result _ _ _ _ _ _ _ _ _ Hl) as (I1 & I2 & I3).
    destruct (strategy_loop_notes _ _ _ _ _ _ _ _ _ Hl) as (D1 & D2).
    rewrite Hs in I1, I2, I3. change (hands_needed Strategy_default) with 0 in I1.
    change (discards_used Strategy_default) with 0 in D1, D2.
    change (notes Strategy_default) with (@nil Note) in D2. cbn [app] in D2.
    rewrite Z.sub_0_r in D2.
    assert (hands_needed s' ≤ hands_remaining (snapshot h self)
            ∨ t' < target_score (blind (snapshot h self))) as Hn.
    { destruct (Z.le_gt_cases (hands_remaining (snapshot h self)) 0) as [Hz|Hp].
      - destruct (I3 Hz) as [_ ->]. lia.
      - specialize (I2 ltac:(lia)). lia. }
    revert Hcon. unfold conclude. cbn [hands_needed set_total set_probability].
    destruct (Z.leb_spec (target_score (blind (snapshot h self))) t') as [Hge|Hlt'].
    + destruct (Z.leb_spec (hands_needed s') (hands_remaining (snapshot h self)));
        [|lia].
      intros [= <-].
      cbn [total_expected_score success_probability hands_needed add_note
           set_probability set_total notes discards_used].
      destruct (Z.leb_spec (target_score (blind (snapshot h self))) t'); [|lia].
      rewrite D2. split_and!; [|lia|done].
      rewrite elem_of_app, list_elem_of_singleton.
      intros [[? _]%elem_of_replicate|?]; done.
    + unfold py_div.
      destruct (Z.eqb_spec (target_score (blind (snapshot h self))) 0); [done|].
      cbn [mbind result_bind]. intros [= <-].
      cbn [total_expected_score success_probability hands_needed add_note
           set_probability set_total notes discards_used].
      destruct (Z.leb_spec (target_score (blind (snapshot h self))) t'); [lia|].
      rewrite D2. split_and!; [|lia|done].
      rewrite elem_of_app, list_elem_of_singleton.
      intros [[? _]%elem_of_replicate|?]; done.
Qed.

Lemma calculate_strategy_verdict_witness :
  ∃ s, (calculate_strategy 1%positive (heap_with scenario_hand [] 4 3 300 0)).1
       = Some (Ok s)
       ∧ (N_not_enough_hands ∉ notes s).
Proof.
  destruct (calculate_strategy 1%positive (heap_with scenario_hand [] 4 3 300 0)).1
    as [[s|]|] eqn:E; [|vm_compute in E; discriminate..].
  exists s. split; [reflexivity|].
  destruct (calculate_strategy_verdict 1%positive
              (heap_with scenario_hand [] 4 3 300 0) s
              (heap_with_valid _ _ _ _ _ _) E) as [H _].
  exact H.
Defined.

End VerdictFacts.

(** ** Jokers and the Royal Flush *)

Module RoyalFacts.

Import HandEvaluator Scenarios JokerFacts.

(** X25. The table of [_check_condition] names the Straight and the
    Straight Flush under "straight", and the Flush, the Straight Flush, the
    Flush House and the Flush Five under "flush", but not the Royal Flush:
    on cards that [get_hand_type] calls a Royal Flush, a joker whose
    condition is "straight" or "flush" (and that has no Foil, Holographic
    or Polychrome edition) changes no result of [calculate_score]. *)
Theorem royal_flush_fires_no_joker (cards : list Card) (gs : GameState)
    (j : Joker) (js1 js2 : list Joker) :
  (get_hand_type cards).1 = ROYAL_FLUSH →
  conditional (effect j) = Some "straight" ∨ conditional (effect j) = Some "flush" →
  joker_edition j = ED_NONE ∨ joker_edition j = NEGATIVE →
  calculate_score cards (with_jokers (js1 ++ j :: js2) gs)
  = calculate_score cards (with_jokers (js1 ++ js2) gs).
Proof.
  intros Hrf Hcond Hed. apply calculate_score_of_totals.
  rewrite !score_totals_with_jokers, !fold_left_app. cbn [fold_left].
  f_equal. rewrite Hrf.
  assert (PyFloat.in_range
            (fold_left (score_joker cards ROYAL_FLUSH (get_hand_type cards).2 gs) js1
               (fold_left score_card (get_hand_type cards).2
                  (HandLevel_chips (get_hand_level gs ROYAL_FLUSH),
                   HandLevel_mult (get_hand_level gs ROYAL_FLUSH), PyFloat.one))).2)
    as Hr.
  { apply ScoreFacts.fold_score_joker_in_range, ScoreFacts.fold_score_card_in_range,
      FloatFacts.one_in_range. }
  revert Hr.
  generalize (fold_left (score_joker cards ROYAL_FLUSH (get_hand_type cards).2 gs) js1
                (fold_left score_card (get_hand_type cards).2
                   (HandLevel_chips (get_hand_level gs ROYAL_FLUSH),
                    HandLevel_mult (get_hand_level gs ROYAL_FLUSH), PyFloat.one))).
  intros [[c m] x] Hr. cbn in Hr. unfold score_joker, _apply_joker.
  assert (match conditional (effect j) with
          | Some c => if decide (c = "") then true
                      else _check_condition c cards ROYAL_FLUSH (get_hand_type cards).2 gs
          | None => true
          end = false) as ->.
  { destruct Hcond as [-> | ->]; reflexivity. }
  destruct Hed as [-> | ->];
    (f_equal; [f_equal; lia | by apply FloatFacts.mul_one]).
Qed.

Lemma royal_flush_fires_no_joker_witness :
  calculate_score royal_hearts
    (with_jokers [create_joker "Droll Joker" ED_NONE] scenario_state)
  = calculate_score royal_hearts (with_jokers [] scenario_state).
Proof.
  apply (royal_flush_fires_no_joker royal_hearts scenario_state
           (create_joker "Droll Joker" ED_NONE) [] []).
  - reflexivity.
  - right. reflexivity.
  - left. reflexivity.
Defined.

End RoyalFacts.

(** ** Consecutive ranks *)

Module ConsecutiveFacts.

Import Optimizer StraightFacts.

Lemma stretch_shorter u j c c' : stretch u j c → 1 ≤ c' ≤ c → stretch u j c'.
Proof.
  intros (Hc & a & Ha & Hrun) Hc'. split; [lia|]. exists a. split; [done|].
  intros i Hi. apply Hrun. lia.
Qed.

Lemma stretch_one u j : (j < length u)%nat → stretch u j 1.
Proof.
  intros Hj. destruct (lookup_lt_is_Some_2 u j Hj) as [a Ha].
  split; [lia|]. exists a. split; [done|]. intros i Hi.
  assert (i = 0%nat) as -> by lia. rewrite Nat.sub_0_r, Z.sub_0_r. done.
Qed.

(** A stretch ending at the next place of one ending here, and back. *)
Lemma stretch_next u j c a b :
  u !! j = Some a → u !! S j = Some b → 1 ≤ c →
  stretch u (S j) (c + 1) ↔ b = a + 1 ∧ stretch u j c.
Proof.
  intros Ha Hb Hc. split.
  - intros (Hr & b' & Hb' & Hrun). assert (b' = b) as -> by congruence.
    pose proof (Hrun 1%nat ltac:(lia)) as H1.
    replace (S j - 1)%nat with j in H1 by lia. change (Z.of_nat 1) with 1 in H1.
    assert (a = b - 1) as Hab by congruence.
    split; [lia|]. split; [lia|]. exists a. split; [done|].
    intros i Hi. specialize (Hrun (S i) ltac:(lia)).
    replace (S j - S i)%nat with (j - i)%nat in Hrun by lia.
    rewrite Hrun. f_equal. lia.
  - intros (-> & Hr & a' & Ha' & Hrun). assert (a' = a) as -> by congruence.
    split; [lia|]. exists (a + 1). split; [done|].
    intros [|i] Hi.
    + rewrite Nat.sub_0_r, Hb. f_equal. lia.
    + replace (S j - S i)%nat with (j - i)%nat by lia.
      rewrite Hrun by lia. f_equal. lia.
Qed.

Lemma count_step_inv u j acc :
  (S j < length u)%nat → count_inv u j acc →
  count_inv u (S j) (count_step u acc (S j)).
Proof.
  intros Hj (Hcur & Hmax & (j0 & Hj0 & Hbest) & Hall).
  destruct acc as [best cur]. cbn [fst snd] in *.
  destruct (lookup_lt_is_Some_2 u j ltac:(lia)) as [a Ha].
  destruct (lookup_lt_is_Some_2 u (S j) Hj) as [b Hb].
  assert (cur ≤ best) as Hcb by (apply (Hall j); [lia | done]).
  assert (1 ≤ cur) as Hc1 by (destruct Hcur; lia).
  unfold count_step. replace (S j - 1)%nat with j by lia.
  rewrite (nth_lookup_Z u (S j) b Hb), (nth_lookup_Z u j a Ha).
  destruct (Z.eqb_spec b (a + 1)) as [->|Hne]; unfold count_inv; cbn [fst snd].
  - split_and!.
    + by apply (stretch_next u j cur a (a + 1)).
    + intros H. apply (stretch_next u j (cur + 1) a (a + 1)) in H as [_ H];
        [done.. | lia].
    + destruct (Z.max_spec best (cur + 1)) as [[_ ->]|[_ ->]].
      * exists (S j). split; [lia|]. by apply (stretch_next u j cur a (a + 1)).
      * exists j0. split; [lia | done].
    + intros j' c Hj' Hc.
      destruct (decide (j' = S j)) as [->|Hne].
      * destruct (Z.le_gt_cases c 1) as [|Hgt]; [lia|].
        replace c with ((c - 1) + 1) in Hc by lia.
        apply (stretch_next u j (c - 1) a (a + 1)) in Hc as [_ Hc]; [|done..|lia].
        destruct (Z.le_gt_cases (c - 1) cur) as [|Hgt']; [lia|].
        destruct Hmax. apply (stretch_shorter u j (c - 1)); [done | lia].
      * specialize (Hall j' c ltac:(lia) Hc). lia.
  - split_and!.
    + apply stretch_one. lia.
    + intros H. apply (stretch_next u j 1 a b) in H as [? _]; [done.. | lia].
    + exists j0. split; [lia | done].
    + intros j' c Hj' Hc.
      destruct (decide (j' = S j)) as [->|Hne'].
      * destruct (Z.le_gt_cases c 1) as [|Hgt]; [lia|].
        replace c with ((c - 1) + 1) in Hc by lia.
        apply (stretch_next u j (c - 1) a b) in Hc as [? _]; [done.. | lia].
      * apply (Hall j' c); [lia | done].
Qed.

Lemma count_fold_inv u n j acc :
  (j + n < length u)%nat → count_inv u j acc →
  count_inv u (j + n) (fold_left (count_step u) (seq (S j) n) acc).
Proof.
  revert j acc. induction n as [|n IH]; intros j acc Hj Hinv.
  - by rewrite Nat.add_0_r.
  - cbn [seq fold_left]. replace (j + S n)%nat with (S j + n)%nat by lia.
    apply IH; [lia|]. apply count_step_inv; [lia | done].
Qed.

Lemma count_inv_start u : (0 < length u)%nat → count_inv u 0 (1, 1).
Proof.
  intros Hu. unfold count_inv. cbn [fst snd]. split_and!.
  - by apply stretch_one.
  - intros [? _]. lia.
  - exists 0%nat. split; [lia|]. by apply stretch_one.
  - intros j' c Hj' [? _]. lia.
Qed.

(** Consecutive values of a strictly increasing list sit at consecutive
    places. *)
Lemma run_is_stretch u r k :
  StronglySorted Z.lt u → 1 ≤ k → (∀ i, 0 ≤ i < k → r + i ∈ u) →
  ∃ j, (j < length u)%nat ∧ stretch u j k.
Proof.
  intros Hu Hk Hrun.
  destruct (list_elem_of_lookup_1 u r) as [i0 H0].
  { specialize (Hrun 0 ltac:(lia)). by rewrite Z.add_0_r in Hrun. }
  assert (∀ t : nat, Z.of_nat t < k → u !! (i0 + t)%nat = Some (r + Z.of_nat t)) as Hat.
  { induction t as [|t IH]; intros Ht.
    - rewrite Nat.add_0_r, Z.add_0_r. done.
    - replace (i0 + S t)%nat with (S (i0 + t)) by lia.
      replace (r + Z.of_nat (S t)) with (r + Z.of_nat t + 1) by lia.
      apply strict_lookup_next; [done | apply IH; lia |].
      replace (r + Z.of_nat t + 1) with (r + Z.of_nat (S t)) by lia.
      apply Hrun. lia. }
  exists (i0 + Z.to_nat (k - 1))%nat.
  pose proof (Hat (Z.to_nat (k - 1)) ltac:(lia)) as Hlast.
  split; [by eapply lookup_lt_Some|].
  split; [lia|]. eexists. split; [exact Hlast|].
  intros i Hi.
  replace (i0 + Z.to_nat (k - 1) - i)%nat with (i0 + (Z.to_nat (k - 1) - i))%nat by lia.
  rewrite Hat by lia. f_equal. lia.
Qed.

Lemma stretch_is_run u j c :
  stretch u j c → ∃ r, ∀ i, 0 ≤ i < c → r + i ∈ u.
Proof.
  intros (Hc & a & Ha & Hrun). exists (a - (c - 1)). intros i Hi.
  specialize (Hrun (Z.to_nat (c - 1 - i)) ltac:(lia)).
  apply list_elem_of_lookup_2 in Hrun.
  by replace (a - Z.of_nat (Z.to_nat (c - 1 - i))) with (a - (c - 1) + i) in Hrun by lia.
Qed.

(** X26. On a strictly increasing list of ranks, as [sorted(set(...))]
    gives it, [_count_consecutive] returns at least the length of every
    run of consecutive ranks in the list, and what it returns is the
    length of such a run, or, when the list holds both 14 and 2, one more
    than the number of the ranks 2, 3, 4, 5 in the list, whether or not
    these are consecutive. On the empty list it returns 0. *)
Theorem _count_consecutive_spec (sorted_ranks : list Z) :
  StronglySorted Z.lt sorted_ranks →
  (∀ k r, 1 ≤ k → (∀ i, 0 ≤ i < k → r + i ∈ sorted_ranks) →
          k ≤ _count_consecutive sorted_ranks)
  ∧ ((∃ r, ∀ i, 0 ≤ i < _count_consecutive sorted_ranks → r + i ∈ sorted_ranks)
     ∨ (14 ∈ sorted_ranks ∧ 2 ∈ sorted_ranks
        ∧ _count_consecutive sorted_ranks
          = 1 + len (filter (λ r, r ∈ sorted_ranks) [2; 3; 4; 5])))
  ∧ (sorted_ranks = [] → _count_consecutive sorted_ranks = 0).
Proof.
  intros Hu.
  assert (∀ m, (∀ k r, 1 ≤ k → (∀ i, 0 ≤ i < k → r + i ∈ sorted_ranks) → k ≤ m) →
               (∃ r, ∀ i, 0 ≤ i < m → r + i ∈ sorted_ranks) →
               (∀ k r, 1 ≤ k → (∀ i, 0 ≤ i < k → r + i ∈ sorted_ranks) →
                       k ≤ (if bool_decide (14 ∈ sorted_ranks)
                               && bool_decide (2 ∈ sorted_ranks)
                            then Z.max m (1 + len (filter (λ r, r ∈ sorted_ranks)
                                                     [2; 3; 4; 5]))
                            else m))
               ∧ ((∃ r, ∀ i, 0 ≤ i < (if bool_decide (14 ∈ sorted_ranks)
                                         && bool_decide (2 ∈ sorted_ranks)
                                      then Z.max m (1 + len (filter (λ r, r ∈ sorted_ranks)
                                                               [2; 3; 4; 5]))
                                      else m) → r + i ∈ sorted_ranks)
                  ∨ (14 ∈ sorted_ranks ∧ 2 ∈ sorted_ranks
                     ∧ (if bool_decide (14 ∈ sorted_ranks)
                           && bool_decide (2 ∈ sorted_ranks)
                        then Z.max m (1 + len (filter (λ r, r ∈ sorted_ranks)
                                                 [2; 3; 4; 5]))
                        else m)
                       = 1 + len (filter (λ r, r ∈ sorted_ranks) [2; 3; 4; 5]))))
    as Hwheel.
  { intros m Hub Hrun.
    destruct (bool_decide (14 ∈ sorted_ranks) && bool_decide (2 ∈ sorted_ranks))
      eqn:Ew; [|split; [done | by left]].
    apply andb_true_iff in Ew as [E14%bool_decide_eq_true E2%bool_decide_eq_true].
    destruct (Z.max_spec m (1 + len (filter (λ r, r ∈ sorted_ranks) [2; 3; 4; 5])))
      as [[Hlt ->]|[Hge ->]].
    - split; [|by right]. intros k r Hk Hr. specialize (Hub k r Hk Hr). lia.
    - split; [done | by left]. }
  unfold _count_consecutive.
  destruct (Z.ltb_spec (len sorted_ranks) 2) as [Hshort|Hlong].
  - destruct sorted_ranks as [|a [|b l]]; [| |unfold len in Hshort; cbn in Hshort; lia].
    + split_and!; [|left; exists 0; intros i Hi; unfold len in Hi; cbn in Hi; lia | done].
      intros k r Hk Hr. specialize (Hr 0 ltac:(lia)). by apply elem_of_nil in Hr.
    + split_and!; [| |done].
      * intros k r Hk Hr. change (len [a]) with 1.
        destruct (Z.le_gt_cases k 1) as [|Hgt]; [done|].
        pose proof (Hr 0 ltac:(lia)) as H0%list_elem_of_singleton.
        pose proof (Hr 1 ltac:(lia)) as H1%list_elem_of_singleton. lia.
      * left. exists a. change (len [a]) with 1. intros i Hi.
        assert (i = 0) as -> by lia. rewrite Z.add_0_r. by left.
  - assert (count_inv sorted_ranks (0 + (length sorted_ranks - 1))
              (fold_left (count_step sorted_ranks)
                 (seq 1 (length sorted_ranks - 1)) (1, 1))) as Hinv.
    { unfold len in Hlong. apply count_fold_inv; [lia|].
      apply count_inv_start. lia. }
    destruct (fold_left _ _ _) as [best cur].
    destruct Hinv as (_ & _ & (j0 & Hj0 & Hbest) & Hall). cbn [fst snd] in *.
    destruct (Hwheel best) as [W1 W2].
    + intros k r Hk Hr.
      destruct (run_is_stretch sorted_ranks r k Hu Hk Hr) as (j & Hj & Hs).
      apply (Hall j); [lia | done].
    + by eapply stretch_is_run.
    + split_and!; [done | done |].
      intros ->. unfold len in Hlong. cbn in Hlong. lia.
Qed.

Lemma _count_consecutive_spec_witness :
  3 ≤ _count_consecutive [2; 3; 4; 7].
Proof.
  assert (StronglySorted Z.lt [2; 3; 4; 7]) as Hs.
  { repeat constructor; lia. }
  destruct (_count_consecutive_spec [2; 3; 4; 7] Hs) as [H _].
  apply (H 3 2); [lia|]. intros i Hi.
  assert (i = 0 ∨ i = 1 ∨ i = 2) as [-> | [-> | ->]] by lia; cbn;
    rewrite !elem_of_cons; tauto.
Defined.

End ConsecutiveFacts.

(** ** What the score does not depend on *)

Module InvarianceFacts.

Import HandEvaluator Scenarios JokerFacts.

Lemma sealed_ranks l l' : Forall2 same_but_seal l l' → ranks_of l = ranks_of l'.
Proof.
  induction 1 as [|c c' l l' (Hr & _) _ IH]; [done|]. unfold ranks_of in *. cbn.
  by rewrite IH, Hr.
Qed.

Lemma sealed_suits l l' : Forall2 same_but_seal l l' → suits_of l = suits_of l'.
Proof.
  induction 1 as [|c c' l l' (_ & Hs & He & _) _ IH]; [done|].
  unfold suits_of in *. cbn. by rewrite Hs, He, IH.
Qed.

Lemma sealed_flush l l' : Forall2 same_but_seal l l' → is_flush_of l = is_flush_of l'.
Proof.
  intros H. unfold is_flush_of, suit_counts_of, wild_count_of, len.
  by rewrite (sealed_suits l l' H), (Forall2_length _ _ _ H).
Qed.

Lemma sealed_filter (P : Z → Prop) `{!∀ r, Decision (P r)} l l' :
  Forall2 same_but_seal l l' →
  Forall2 same_but_seal (filter (λ c, P (rank c)) l) (filter (λ c, P (rank c)) l').
Proof.
  intros Hl. apply Forall2_filter; [|done].
  intros c c' (Hr & _). by rewrite Hr.
Qed.

Lemma sealed_of_rank r l l' :
  Forall2 same_but_seal l l' → Forall2 same_but_seal (of_rank r l) (of_rank r l').
Proof. intros Hl. unfold of_rank. exact (sealed_filter (λ r', r' = r) l l' Hl). Qed.

Lemma sealed_max_by l l' :
  Forall2 same_but_seal l l' →
  Forall2 same_but_seal (option_list (max_by rank l)) (option_list (max_by rank l')).
Proof.
  intros H. unfold max_by.
  set (f := λ (best : option Card) (x : Card),
              match best with
              | None => Some x
              | Some b => if rank b <? rank x then Some x else Some b
              end).
  assert (∀ acc acc', option_Forall2 same_but_seal acc acc' →
            option_Forall2 same_but_seal (fold_left f l acc) (fold_left f l' acc'))
    as Hgen.
  { induction H as [|c c' l l' Hc _ IH]; intros acc acc' Hacc; [done|].
    cbn. apply IH. destruct Hacc as [b b' Hb|]; cbn; [|by constructor].
    destruct Hb as (Hb & ?), Hc as (Hc & ?). rewrite Hb, Hc.
    case_match; by constructor. }
  destruct (Hgen None None) as [x y Hxy|]; [constructor|..]; cbn.
  - by constructor.
  - constructor.
Qed.

Lemma sealed_hand_type cards cards' :
  Forall2 same_but_seal cards cards' →
  (get_hand_type cards).1 = (get_hand_type cards').1
  ∧ Forall2 same_but_seal (get_hand_type cards).2 (get_hand_type cards').2.
Proof.
  intros H. unfold get_hand_type.
  rewrite <- (sealed_ranks _ _ H), <- (sealed_flush _ _ H).
  replace (len cards') with (len cards)
    by (unfold len; by rewrite (Forall2_length _ _ _ H)).
  repeat case_match; cbn [fst snd]; (split; [done|]);
    repeat first
      [ apply Forall2_take
      | apply Forall2_app
      | apply Forall2_nil_2
      | by apply sealed_of_rank
      | by apply sealed_max_by
      | done ].
  - apply Forall2_filter; [|done].
    intros c c' (Hr & _). by rewrite Hr.
  - generalize (take 2 (sorted_desc (ranks_with 2 (Counter (ranks_of cards))))).
    intros rs. induction rs as [|r rs IH]; [constructor|]. cbn [flat_map].
    apply Forall2_app; [|done]. by apply Forall2_take, sealed_of_rank.
Qed.

Lemma sealed_score_card acc c c' :
  same_but_seal c c' → score_card acc c = score_card acc c'.
Proof.
  intros (Hr & Hs & He & Hd). unfold score_card, chip_value.
  by rewrite Hr, He, Hd.
Qed.

Lemma sealed_fold_score_card l l' acc :
  Forall2 same_but_seal l l' → fold_left score_card l acc = fold_left score_card l' acc.
Proof.
  intros H. revert acc. induction H as [|c c' l l' Hc _ IH]; intros acc; [done|].
  cbn. by rewrite (sealed_score_card acc c c' Hc), IH.
Qed.

Lemma sealed_check_condition condition cards cards' ht sc sc' gs :
  Forall2 same_but_seal cards cards' →
  _check_condition condition cards ht sc gs
  = _check_condition condition cards' ht sc' gs.
Proof.
  intros H. unfold _check_condition.
  replace (len cards') with (len cards)
    by (unfold len; by rewrite (Forall2_length _ _ _ H)).
  assert (forallb (λ c, bool_decide (suit c ∈ [SPADES; CLUBS])) cards
          = forallb (λ c, bool_decide (suit c ∈ [SPADES; CLUBS])) cards') as ->; [|done].
  induction H as [|c c' l l' (_ & Hs & _) _ IH]; [done|]. cbn. by rewrite Hs, IH.
Qed.

Lemma sealed_score_joker cards cards' ht sc sc' gs acc j :
  Forall2 same_but_seal cards cards' →
  score_joker cards ht sc gs acc j = score_joker cards' ht sc' gs acc j.
Proof.
  intros H. unfold score_joker, _apply_joker.
  destruct (conditional (effect j)) as [c|]; [|done].
  destruct (decide (c = "")); [done|].
  by rewrite (sealed_check_condition c cards cards' ht sc sc' gs H).
Qed.

(** X27. Seals do not count: two lists of cards that differ in the seals of
    their cards at most get the same result from [calculate_score], in
    every state. *)
Theorem calculate_score_ignores_seals (cards cards' : list Card) (gs : GameState) :
  Forall2 same_but_seal cards cards' →
  calculate_score cards gs = calculate_score cards' gs.
Proof.
  intros H. destruct (sealed_hand_type cards cards' H) as [Hht Hsc].
  unfold calculate_score, score_totals.
  destruct (get_hand_type cards) as [ht sc], (get_hand_type cards') as [ht' sc'].
  cbn [fst snd] in *. subst ht'.
  rewrite (sealed_fold_score_card sc sc' _ Hsc).
  assert (∀ js acc,
            fold_left (score_joker cards ht sc gs) js acc
            = fold_left (score_joker cards' ht sc' gs) js acc) as ->; [|done].
  induction js as [|j js IH]; intros acc; [done|]. cbn.
  by rewrite (sealed_score_joker cards cards' ht sc sc' gs acc j H), IH.
Qed.

Lemma calculate_score_ignores_seals_witness :
  calculate_score [mkCard 14 SPADES ENH_NONE FOIL SEAL_RED; card 14 HEARTS] scenario_state
  = calculate_score [mkCard 14 SPADES ENH_NONE FOIL SEAL_NONE;
                     mkCard 14 HEARTS ENH_NONE ED_NONE SEAL_GOLD] scenario_state.
Proof.
  apply (calculate_score_ignores_seals
           [mkCard 14 SPADES ENH_NONE FOIL SEAL_RED; card 14 HEARTS]
           [mkCard 14 SPADES ENH_NONE FOIL SEAL_NONE;
            mkCard 14 HEARTS ENH_NONE ED_NONE SEAL_GOLD]).
  repeat constructor.
Defined.

Lemma foldr_add_perm l l' : l ≡ₚ l' → foldr Z.add 0 l = foldr Z.add 0 l'.
Proof. induction 1; cbn; lia. Qed.

Lemma foldr_mul_perm l l' : l ≡ₚ l' → foldr Z.mul 1 l = foldr Z.mul 1 l'.
Proof. induction 1; cbn; lia. Qed.

Lemma weight_pos (fs : list pyfloat) :
  1 ≤ foldr Z.mul 1 (map (λ f, Z.max 1 (Z.abs (fm f))) fs).
Proof. induction fs as [|f fs IH]; cbn [map foldr]; [lia | nia]. Qed.

Lemma exponents_nonneg (fs : list pyfloat) :
  0 ≤ foldr Z.add 0 (map (λ f, Z.abs (fe f)) fs).
Proof. induction fs as [|f fs IH]; cbn [map foldr]; lia. Qed.

Lemma max1_mul a b : Z.max 1 (Z.abs (a * b)) ≤ Z.max 1 (Z.abs a) * Z.max 1 (Z.abs b).
Proof. rewrite Z.abs_mul. nia. Qed.

(** A chain of products none of which is rounded. *)
Lemma fold_mul_exact fs x :
  small_pairs (x :: fs) →
  fold_left PyFloat.mul fs x
  = mkF (fm x * foldr Z.mul 1 (map fm fs)) (fe x + foldr Z.add 0 (map fe fs)).
Proof.
  revert x. induction fs as [|f fs IH]; intros x [Hw He].
  - cbn. destruct x as [m e]. cbn. f_equal; lia.
  - cbn [map foldr fold_left] in *.
    pose proof (weight_pos fs) as Hfs. pose proof (exponents_nonneg fs) as Hes.
    set (W := foldr Z.mul 1 (map (λ f, Z.max 1 (Z.abs (fm f))) fs)) in *.
    set (E := foldr Z.add 0 (map (λ f, Z.abs (fe f)) fs)) in *.
    pose proof (max1_mul (fm x) (fm f)) as Hxf.
    assert (Z.max 1 (Z.abs (fm x * fm f)) * W < 2 ^ 53) as Hw'.
    { rewrite FloatFacts.two53 in *. nia. }
    assert (Z.abs (fm x) < 2 ^ 53 ∧ Z.abs (fm f) < 2 ^ 53 ∧ Z.abs (fm x * fm f) < 2 ^ 53)
      as (Hx1 & Hf1 & Hxf1).
    { rewrite FloatFacts.two53 in *. nia. }
    rewrite FloatFacts.mul_exact.
    + rewrite IH.
      * cbn [fm fe]. f_equal; lia.
      * split; cbn [map foldr fm fe]; [done|]. fold E. lia.
    + destruct x as [m e]. apply FloatFacts.finite_small; cbn [fm fe] in *; lia.
    + destruct f as [m e]. apply FloatFacts.finite_small; cbn [fm fe] in *; lia.
    + done.
    + lia.
Qed.

Lemma small_pairs_perm fs fs' :
  fs ≡ₚ fs' → small_pairs fs → small_pairs fs'.
Proof.
  intros Hp [Hw He]. split.
  - by rewrite <- (foldr_mul_perm _ _ (Permutation_map _ Hp)).
  - by rewrite <- (foldr_add_perm _ _ (Permutation_map _ Hp)).
Qed.

Lemma fold_mul_proper fs rs x y :
  Forall2 (λ f r, PyFloat.eqb f r = true) fs rs → PyFloat.eqb x y = true →
  PyFloat.eqb (fold_left PyFloat.mul fs x) (fold_left PyFloat.mul rs y) = true.
Proof.
  intros H. revert x y. induction H as [|f r fs rs Hfr _ IH]; intros x y Hxy; [done|].
  cbn. apply IH. by apply FloatFacts.mul_proper.
Qed.

(** Such a chain gives the same number in every order. *)
Lemma fold_mul_perm x fs fs' :
  fs ≡ₚ fs' → exact_multipliers (x :: fs) →
  PyFloat.eqb (fold_left PyFloat.mul fs x) (fold_left PyFloat.mul fs' x) = true.
Proof.
  intros Hp (rs & Hrs & Hsmall).
  apply Forall2_cons_inv_l in Hrs as (y & rs0 & Hxy & Hrs0 & ->).
  destruct (Permutation_Forall2 Hp Hrs0) as (rs0' & Hp' & Hrs0').
  eapply FloatFacts.eqb_trans; [by apply (fold_mul_proper fs rs0 x y)|].
  eapply FloatFacts.eqb_trans;
    [|by apply FloatFacts.eqb_sym, (fold_mul_proper fs' rs0' x y)].
  rewrite (fold_mul_exact rs0 y Hsmall).
  rewrite (fold_mul_exact rs0' y
             (small_pairs_perm _ _ (Permutation_cons eq_refl Hp') Hsmall)).
  rewrite (foldr_mul_perm _ _ (Permutation_map fm Hp')).
  rewrite (foldr_add_perm _ _ (Permutation_map fe Hp')).
  apply FloatFacts.eqb_refl.
Qed.

(** What the jokers add to chips and mult, and the multipliers that they
    hand to [x_mult] one after the other. *)
Lemma fold_score_joker_split cards ht sc gs js c m x :
  fold_left (score_joker cards ht sc gs) js (c, m, x)
  = (c + foldr Z.add 0
           (map (λ j, (_apply_joker j cards ht sc gs).1.1
                      + if decide (joker_edition j = FOIL) then 50 else 0) js),
     m + foldr Z.add 0
           (map (λ j, (_apply_joker j cards ht sc gs).1.2
                      + if decide (joker_edition j = HOLOGRAPHIC) then 10 else 0) js),
     fold_left PyFloat.mul (flat_map (joker_factors cards ht sc gs) js) x).
Proof.
  revert c m x. induction js as [|j js IH]; intros c m x.
  - cbn. f_equal. f_equal; lia.
  - cbn [fold_left map foldr flat_map]. rewrite fold_left_app.
    unfold score_joker at 2. unfold joker_factors at 2.
    destruct (_apply_joker j cards ht sc gs) as [[jc jm] jx].
    destruct (joker_edition j) eqn:Hed; rewrite IH; cbn [fst snd fold_left app];
      repeat case_decide; try done;
      (apply (f_equal2 pair); [apply (f_equal2 pair)|]; first [lia | done]).
Qed.

(** X28. The order of the jokers does not count as long as no product of
    the multipliers is rounded: when [x_mult] after the cards and the
    factors of the jokers (their own multiplier, and 1.5 for a Polychrome
    joker) are m * 2^e for integers m that multiply to less than 2^53 in
    size and integers e that add up to 971 at most in size,
    [calculate_score] gives the same result for the same jokers held in
    another order. *)
Theorem calculate_score_ignores_joker_order (cards : list Card) (gs : GameState)
    (js js' : list Joker) :
  js ≡ₚ js' →
  exact_multipliers (multipliers cards gs js) →
  calculate_score cards (with_jokers js gs) = calculate_score cards (with_jokers js' gs).
Proof.
  intros Hp Hex. unfold calculate_score.
  rewrite !score_totals_with_jokers. unfold multipliers in Hex.
  destruct (get_hand_type cards) as [ht sc]. cbn [fst snd].
  destruct (fold_left score_card sc _) as [[c m] x]. cbn [fst snd] in Hex.
  rewrite !fold_score_joker_split.
  assert (flat_map (joker_factors cards ht sc gs) js
          ≡ₚ flat_map (joker_factors cards ht sc gs) js') as Hfs.
  { clear -Hp. induction Hp; cbn [flat_map].
    - done.
    - by apply Permutation_app_head.
    - rewrite !app_assoc. apply Permutation_app_tail, Permutation_app_comm.
    - by etrans. }
  pose proof (fold_mul_perm x _ _ Hfs Hex) as Hx.
  rewrite <- (foldr_add_perm _ _ (Permutation_map _ Hp)).
  rewrite <- (foldr_add_perm _ _
                (Permutation_map
                   (λ j, (_apply_joker j cards ht sc gs).1.2
                         + (if decide (joker_edition j = HOLOGRAPHIC) then 10 else 0))
                   Hp)).
  destruct (ScoreFacts.final_score_proper
              (c + foldr Z.add 0
                     (map (λ j, (_apply_joker j cards ht sc gs).1.1
                                + (if decide (joker_edition j = FOIL) then 50 else 0)) js))
              (m + foldr Z.add 0
                     (map (λ j, (_apply_joker j cards ht sc gs).1.2
                                + (if decide (joker_edition j = HOLOGRAPHIC)
                                   then 10 else 0)) js))
              _ _ Hx) as [-> ->].
  done.
Qed.

Lemma calculate_score_ignores_joker_order_witness :
  calculate_score [card 14 SPADES; card 14 HEARTS]
    (with_jokers [create_joker "Joker" ED_NONE; create_joker "The Duo" POLYCHROME]
       scenario_state)
  = calculate_score [card 14 SPADES; card 14 HEARTS]
      (with_jokers [create_joker "The Duo" POLYCHROME; create_joker "Joker" ED_NONE]
         scenario_state).
Proof.
  apply (calculate_score_ignores_joker_order [card 14 SPADES; card 14 HEARTS]
           scenario_state
           [create_joker "Joker" ED_NONE; create_joker "The Duo" POLYCHROME]
           [create_joker "The Duo" POLYCHROME; create_joker "Joker" ED_NONE]).
  - apply Permutation_swap.
  - exists [PyFloat.one; PyFloat.one; PyFloat.whole 2; PyFloat.one_and_a_half].
    split; [vm_compute; repeat constructor | by vm_compute].
Defined.

(** Where products are rounded the order counts: on three tens (60 chips,
    3 mult) the jokers x1.1, x1.2, x2.5 give 594 in this order and 593
    with the last two exchanged. *)
Lemma joker_order_can_count :
  (calculate_score three_tens
     (with_jokers [times_joker float_1_1; times_joker float_1_2; times_joker float_2_5]
        scenario_state)).1.1.1 = 594
  ∧ (calculate_score three_tens
       (with_jokers [times_joker float_1_1; times_joker float_2_5; times_joker float_1_2]
          scenario_state)).1.1.1 = 593.
Proof. split; reflexivity. Qed.

End InvarianceFacts.

(** ** Hands without a play *)

Module NoPlayFacts.

Import HandEvaluator Optimizer Strategist Advisor Scenarios AllPlaysFacts HeapFacts
  StrategyFacts AdvisorFacts.

Lemma find_best_play_in_all_plays st a :
  find_best_play st = Some a → hand st ≠ [] → a ∈ all_plays st.
Proof.
  unfold find_best_play, find_best_play_ids. intros Hf Hne.
  destruct (Z.eqb_spec (len (hand st)) 0) as [Hz|Hz].
  { destruct (hand st); [done|]. unfold len in Hz. cbn in Hz. lia. }
  revert Hf. unfold best_scan, all_plays.
  generalize (enumerate_plays (indexed (hand st))). intros combos.
  assert (∀ l best,
            (∀ c, c ∈ l → c ∈ combos) →
            (∀ x, snd best = Some x →
                  snd x ∈ map (λ combo, play_action (map snd combo) st) combos) →
            ∀ x, snd (fold_left (best_step st) l best) = Some x →
                 snd x ∈ map (λ combo, play_action (map snd combo) st) combos)
    as Hfold.
  { induction l as [|c l IH]; intros best Hl Hb; [done|].
    cbn [fold_left]. apply IH.
    - intros c' Hc'. apply Hl. by right.
    - unfold best_step. case_match; [|done].
      cbn. intros x [= <-]. cbn. apply list_elem_of_fmap. exists c.
      split; [done|]. apply Hl. by left. }
  destruct (snd (fold_left _ _ _)) as [[ids b]|] eqn:E; [|done].
  cbn. intros [= <-].
  by apply (Hfold combos (-1, None) ltac:(done) ltac:(done) (ids, b)).
Qed.

(** X29. [find_best_play] returns [None] exactly when the hand is not
    empty and every combination of its cards scores below 0. In such a
    state [get_quick_tips] raises [AttributeError], and so does
    [calculate_strategy] when the target is not reached and a hand is
    left. *)
Theorem find_best_play_none_iff (self : loc) (h : Heap) :
  (find_best_play (snapshot h self) = None
   ↔ hand (snapshot h self) ≠ []
     ∧ ∀ a, a ∈ all_plays (snapshot h self) → expected_score a < 0)
  ∧ (find_best_play (snapshot h self) = None →
     get_quick_tips (Some (snapshot h self)) = Raise AttributeError
     ∧ (valid_state h self →
        current_score (snapshot h self) < target_score (blind (snapshot h self)) →
        0 < hands_remaining (snapshot h self) →
        (calculate_strategy self h).1 = Some (Raise AttributeError))).
Proof.
  split.
  - split.
    + intros Hn. split.
      * intros He. revert Hn. unfold find_best_play, find_best_play_ids.
        by rewrite He.
      * intros a Ha. destruct (Z.lt_ge_cases (expected_score a) 0) as [|Hge]; [done|].
        destruct (best_play_is_first_sorted (snapshot h self)) as (b & tl & _ & Hb).
        { exists a. split; [done | lia]. }
        congruence.
    + intros [Hne Hall].
      destruct (find_best_play (snapshot h self)) as [a|] eqn:Ea; [|done].
      destruct (find_best_play_score _ _ Ea) as [H0 _].
      specialize (Hall a (find_best_play_in_all_plays _ _ Ea Hne)). lia.
  - intros Hn. split.
    + unfold get_quick_tips. by rewrite Hn.
    + intros Hv Hlt Hhr. unfold calculate_strategy.
      destruct (Z.leb_spec (target_score (blind (snapshot h self))
                            - current_score (snapshot h self)) 0); [lia|].
      pose proof (copy_spec self h) as Hc.
      destruct (copy self h) as [sim h1]. destruct Hc as (_ & _ & _ & Hs).
      rewrite Hs.
      assert (∃ fuel, loop_bound (snapshot h self) = S fuel) as [fuel ->].
      { unfold loop_bound.
        exists (Nat.pred (Z.to_nat (hands_remaining (snapshot h self))
                          + Z.to_nat (discards_remaining (snapshot h self)))).
        lia. }
      rewrite strategy_loop_unfold, Hs, Hn.
      destruct (Z.ltb_spec (current_score (snapshot h self))
                  (target_score (blind (snapshot h self)))); [|lia].
      destruct (Z.ltb_spec 0 (hands_remaining (snapshot h self))); [|lia].
      done.
Qed.

Lemma find_best_play_none_iff_witness :
  (calculate_strategy 1%positive
     (heap_with [card 2 SPADES]
        [mkJoker "Debt" "common" ED_NONE (with_flat_mult (-5) JokerEffect_default)]
        4 3 300 0)).1
  = Some (Raise AttributeError).
Proof.
  apply (find_best_play_none_iff 1%positive
           (heap_with [card 2 SPADES]
              [mkJoker "Debt" "common" ED_NONE (with_flat_mult (-5) JokerEffect_default)]
              4 3 300 0)).
  - reflexivity.
  - apply heap_with_valid.
  - reflexivity.
  - reflexivity.
Defined.

End NoPlayFacts.
